(** * OpenQuest RAG pipeline: a shallow embedding and its checked properties

    The development follows the TypeScript sources of the indexing and
    retrieval pipeline:

    - [apps/api/src/rag/ingestion/fileFilter.ts]      (module [FileFilter])
    - [apps/api/src/rag/ingestion/astChunker.ts]      (module [AstChunker])
    - [apps/api/src/rag/ingestion/githubFetcher.ts]   (modules [GithubFetcher],
      [RepoFetch])
    - [apps/api/src/rag/vectorstore/vectorStoreWriter.ts] (modules
      [VectorStoreWriter], [InsertStatement])
    - [apps/api/src/rag/reranking/contextAssembler.ts] (module [ContextAssembler])
    - [apps/api/src/rag/ingestion/ingestionPipeline.ts] and
      [apps/worker/src/jobs/indexRepoJob.ts]          (module [IndexRepoJob])

    Conventions.  A JavaScript string is a Rocq [string]; the model is exact
    on ASCII text, which covers every character the code tests for
    (separators, dots, letters, digits, white space).  Line numbers, indices
    and counters are [nat]; byte sizes are [Z].  An optional field is an
    [option]; JavaScript truthiness of such a field is written out by
    [truthy]. *)

From Stdlib Require Import ZArith Ascii String List Lia Bool.
From stdpp Require Import base option list strings pretty gmap.

Open Scope string_scope.
Set Warnings "-abstract-large-number".

(** ** JavaScript string primitives *)

Module Js.

(** [s.split(c)] for a one-character separator: never empty. *)
Fixpoint split (c : ascii) (s : string) : list string :=
  match s with
  | EmptyString => [ "" ]
  | String a s' =>
      if Ascii.eqb a c then "" :: split c s'
      else match split c s' with
           | h :: t => String a h :: t
           | [] => [ String a "" ]
           end
  end.

(** [parts.join(sep)]. *)
Definition join (sep : string) (parts : list string) : string :=
  String.concat sep parts.

(** [arr.pop() ?? ""] read without mutation: the last element. *)
Definition pop (parts : list string) : string := List.last parts "".

(** [arr.slice(0, -1)]. *)
Definition init (parts : list string) : list string := removelast parts.

(** [arr.slice(a, b)] for non-negative [a] and [b]. *)
Definition slice {A} (l : list A) (a b : nat) : list A :=
  firstn (b - a) (skipn a l).

(** [s.includes(c)] for a one-character needle. *)
Fixpoint includes (c : ascii) (s : string) : bool :=
  match s with
  | EmptyString => false
  | String a s' => Ascii.eqb a c || includes c s'
  end.

Definition is_upper (a : ascii) : bool :=
  let n := nat_of_ascii a in (65 <=? n)%nat && (n <=? 90)%nat.
Definition is_lower (a : ascii) : bool :=
  let n := nat_of_ascii a in (97 <=? n)%nat && (n <=? 122)%nat.
Definition is_digit (a : ascii) : bool :=
  let n := nat_of_ascii a in (48 <=? n)%nat && (n <=? 57)%nat.
Definition is_alnum (a : ascii) : bool := is_upper a || is_lower a || is_digit a.

Definition lower_char (a : ascii) : ascii :=
  if is_upper a then ascii_of_nat (nat_of_ascii a + 32) else a.

(** [s.toLowerCase()] on ASCII letters. *)
Fixpoint toLowerCase (s : string) : string :=
  match s with
  | EmptyString => EmptyString
  | String a s' => String (lower_char a) (toLowerCase s')
  end.

(** Per-character replacement, [s.replace(/[class]/g, c)]. *)
Fixpoint replace_chars (p : ascii -> bool) (c : ascii) (s : string) : string :=
  match s with
  | EmptyString => EmptyString
  | String a s' => String (if p a then c else a) (replace_chars p c s')
  end.

(** Truthiness of an optional string: [undefined], [null] and [""] are
    falsy. *)
Definition truthy (o : option string) : bool :=
  match o with
  | Some (String _ _) => true
  | _ => false
  end.

(** [a || b] on optional strings. *)
Definition or_else (a b : option string) : option string :=
  if truthy a then a else b.

End Js.

(** ** Regular expressions

    A backtracking matcher in continuation-passing style with the priority
    order of ECMAScript: alternatives left to right, greedy repetition, an
    iteration of [*] that consumes nothing is refused.  The patterns of the
    sources are written as values of [regex] next to the literal they
    stand for. *)

Module Regex.

Inductive regex : Type :=
| Eps : regex
| Chr : (ascii -> bool) -> regex
| Seq : regex -> regex -> regex
| Alt : regex -> regex -> regex
| Star : regex -> regex
| Group : nat -> regex -> regex
| Bol : regex
| Eol : regex.

Definition caps : Type := list (nat * string).

Fixpoint cap (n : nat) (cs : caps) : option string :=
  match cs with
  | [] => None
  | (m, s) :: cs' => if Nat.eqb m n then Some s else cap n cs'
  end.

Fixpoint Lit (s : string) : regex :=
  match s with
  | EmptyString => Eps
  | String a s' => Seq (Chr (Ascii.eqb a)) (Lit s')
  end.

Definition Plus (r : regex) : regex := Seq r (Star r).
Definition Opt (r : regex) : regex := Alt r Eps.

(** [\s], [\w], [.] *)
Definition space (a : ascii) : bool :=
  let n := nat_of_ascii a in
  ((9 <=? n)%nat && (n <=? 13)%nat) || (n =? 32)%nat.
Definition word (a : ascii) : bool :=
  Js.is_alnum a || Ascii.eqb a "_"%char.
Definition dot (a : ascii) : bool :=
  negb (Ascii.eqb a "010"%char || Ascii.eqb a "013"%char).

Section Exec.
Context {R : Type}.

(** The iterations of [r*]: [step] matches [r] once.  An iteration has to
    consume at least one character, so the remaining input bounds the
    number of iterations: [fuel] starts at its length. *)
Fixpoint star_loop
         (step : nat -> string -> caps -> (nat -> string -> caps -> option R) -> option R)
         (k : nat -> string -> caps -> option R)
         (fuel : nat) (pos : nat) (s : string) (cs : caps) : option R :=
  match fuel with
  | O => k pos s cs
  | S fuel' =>
      match step pos s cs
              (fun pos' s' cs' =>
                 if (pos <? pos')%nat then star_loop step k fuel' pos' s' cs' else None)
      with
      | Some x => Some x
      | None => k pos s cs
      end
  end.

(** [exec r pos s cs k]: match [r] against the input whose remaining
    part at offset [pos] is [s]; on success continue with [k]. *)
Fixpoint exec (r : regex) (pos : nat) (s : string) (cs : caps)
         (k : nat -> string -> caps -> option R) {struct r} : option R :=
  match r with
  | Eps => k pos s cs
  | Chr p =>
      match s with
      | String a s' => if p a then k (S pos) s' cs else None
      | EmptyString => None
      end
  | Seq r1 r2 =>
      exec r1 pos s cs (fun pos' s' cs' => exec r2 pos' s' cs' k)
  | Alt r1 r2 =>
      match exec r1 pos s cs k with
      | Some x => Some x
      | None => exec r2 pos s cs k
      end
  | Star r1 => star_loop (exec r1) k (String.length s) pos s cs
  | Group n r1 =>
      exec r1 pos s cs
        (fun pos' s' cs' => k pos' s' ((n, substring 0 (pos' - pos) s) :: cs'))
  | Bol => if (pos =? 0)%nat then k pos s cs else None
  | Eol => match s with EmptyString => k pos s cs | _ => None end
  end.
End Exec.

(** A match: start offset, end offset, captures. *)
Record result : Type := { m_start : nat; m_end : nat; m_caps : caps }.

Definition match_at (r : regex) (pos : nat) (s : string) : option result :=
  exec r pos s [] (fun e _ cs => Some {| m_start := pos; m_end := e; m_caps := cs |}).

Fixpoint search_from (r : regex) (pos : nat) (s : string) : option result :=
  match match_at r pos s with
  | Some m => Some m
  | None =>
      match s with
      | EmptyString => None
      | String _ s' => search_from r (S pos) s'
      end
  end.

(** [s.match(re)] for a pattern without the [g] flag: the leftmost match. *)
Definition search (r : regex) (s : string) : option result := search_from r 0 s.

(** [s.replace(re, "")] for a pattern without the [g] flag. *)
Definition remove_first (r : regex) (s : string) : string :=
  match search r s with
  | Some m =>
      substring 0 (m_start m) s ++ substring (m_end m) (String.length s - m_end m) s
  | None => s
  end.

End Regex.

(** ** Node's [path.extname] (POSIX flavour)

    The chunker asks the platform for the extension of a path.  The scan
    below is the loop of Node's [lib/path.js]: it walks the path from its
    last character to its first, skips trailing separators, stops at the
    separator before the last component and remembers the right-most dot. *)

Module NodePath.

Record scan : Type := {
  startDot : option nat;
  startPart : nat;
  end_ : option nat;
  matchedSlash : bool;
  preDotState : Z
}.

Definition scan0 : scan :=
  {| startDot := None; startPart := 0; end_ := None;
     matchedSlash := true; preDotState := 0 |}.

(** [rev] holds the characters at indices [i], [i-1], ..., [0]. *)
Fixpoint extname_loop (rev : list ascii) (i : nat) (st : scan) : scan :=
  match rev with
  | [] => st
  | c :: rest =>
      if Ascii.eqb c "/"%char then
        if negb (matchedSlash st) then
          {| startDot := startDot st; startPart := i + 1; end_ := end_ st;
             matchedSlash := matchedSlash st; preDotState := preDotState st |}
        else extname_loop rest (i - 1) st
      else
        let st1 :=
          match end_ st with
          | None =>
              {| startDot := startDot st; startPart := startPart st;
                 end_ := Some (i + 1); matchedSlash := false;
                 preDotState := preDotState st |}
          | Some _ => st
          end in
        let st2 :=
          if Ascii.eqb c "."%char then
            match startDot st1 with
            | None =>
                {| startDot := Some i; startPart := startPart st1;
                   end_ := end_ st1; matchedSlash := matchedSlash st1;
                   preDotState := preDotState st1 |}
            | Some _ =>
                {| startDot := startDot st1; startPart := startPart st1;
                   end_ := end_ st1; matchedSlash := matchedSlash st1;
                   preDotState := 1 |}
            end
          else
            match startDot st1 with
            | Some _ =>
                {| startDot := startDot st1; startPart := startPart st1;
                   end_ := end_ st1; matchedSlash := matchedSlash st1;
                   preDotState := (-1) |}
            | None => st1
            end in
        extname_loop rest (i - 1) st2
  end.

Definition extname (path : string) : string :=
  let st := extname_loop (rev (list_ascii_of_string path))
                         (String.length path - 1) scan0 in
  match startDot st, end_ st with
  | Some d, Some e =>
      if (preDotState st =? 0)%Z
         || ((preDotState st =? 1)%Z && (d =? e - 1)%nat && (d =? startPart st + 1)%nat)
      then ""
      else substring d (e - d) path
  | _, _ => ""
  end.

End NodePath.

(** ** astChunker.ts *)

Module AstChunker.
Import Regex.

Record CodeChunk : Type := {
  id : string;
  repoId : string;
  filePath : string;
  language : string;
  content : string;
  startLine : nat;
  endLine : nat;
  symbolName : option string;
  chunkIndex : nat
}.

Record ChunkingResult : Type := {
  chunks : list CodeChunk;
  totalChunks : nat;
  strategy : string
}.

Definition SLIDING_WINDOW_SIZE : nat := 60.
Definition SLIDING_WINDOW_OVERLAP : nat := 15.
Definition MAX_CHUNK_LINES : nat := 150.
Definition MIN_CHUNK_LINES : nat := 3.

(** [/[^a-zA-Z0-9]/g] replaced by ["_"], then the three parts glued. *)
Definition safe (s : string) : string :=
  Js.replace_chars (fun a => negb (Js.is_alnum a)) "_"%char s.

Definition makeChunkId (repoId filePath : string) (startLine : nat) : string :=
  safe repoId ++ "__" ++ safe filePath ++ "__L" ++ pretty startLine.

Definition detectLanguage (ext : string) : string :=
  if String.eqb ext ".ts" then "typescript"
  else if String.eqb ext ".tsx" then "typescript"
  else if String.eqb ext ".js" then "javascript"
  else if String.eqb ext ".jsx" then "javascript"
  else if String.eqb ext ".mjs" then "javascript"
  else if String.eqb ext ".py" then "python"
  else if String.eqb ext ".md" then "markdown"
  else if String.eqb ext ".mdx" then "markdown"
  else if String.eqb ext ".json" then "json"
  else if String.eqb ext ".yaml" then "yaml"
  else if String.eqb ext ".yml" then "yaml"
  else if String.eqb ext ".toml" then "toml"
  else "text".

(** *** Sliding window *)

(** The [for] loop of [slidingWindowChunk]; [i] is the loop variable and
    [chunkIndex] the running counter.  The loop stops by itself once
    [i >= lines.length]; [fuel] bounds the number of iterations. *)
Fixpoint slidingWindowLoop (fuel : nat) (repoId filePath : string)
         (lines : list string) (language : string) (i chunkIndex : nat)
  : list CodeChunk :=
  match fuel with
  | O => []
  | S fuel' =>
      if (i <? length lines)%nat then
        let startLine := i + 1 in
        let endLine := Nat.min (i + SLIDING_WINDOW_SIZE) (length lines) in
        let chunkLines := Js.slice lines i endLine in
        if (length chunkLines <? MIN_CHUNK_LINES)%nat then
          slidingWindowLoop fuel' repoId filePath lines language
            (i + (SLIDING_WINDOW_SIZE - SLIDING_WINDOW_OVERLAP)) chunkIndex
        else
          let c := {| id := makeChunkId repoId filePath startLine;
                      repoId := repoId;
                      filePath := filePath;
                      language := language;
                      content := Js.join (String "010"%char "") chunkLines;
                      startLine := startLine;
                      endLine := endLine;
                      symbolName := None;
                      chunkIndex := chunkIndex |} in
          if (length lines <=? endLine)%nat then [c]
          else c :: slidingWindowLoop fuel' repoId filePath lines language
                      (i + (SLIDING_WINDOW_SIZE - SLIDING_WINDOW_OVERLAP))
                      (S chunkIndex)
      else []
  end.

Definition slidingWindowChunk (repoId filePath : string)
           (lines : list string) (language : string) : list CodeChunk :=
  slidingWindowLoop (length lines) repoId filePath lines language 0 0.

(** *** Symbol boundaries *)

Record SymbolBoundary : Type := {
  b_startLine : nat;
  b_symbolName : string
}.

(** The loop of [detectSymbolBoundaries]; [i] is the index of the head of
    [lines]. *)
Fixpoint detectLoop (re : regex) (lines : list string) (i : nat)
  : list SymbolBoundary :=
  match lines with
  | [] => []
  | line :: rest =>
      match search re line with
      | Some m =>
          let name :=
            Js.or_else (cap 1 (m_caps m))
              (Js.or_else (cap 2 (m_caps m))
                 (Js.or_else (cap 3 (m_caps m)) (Some "anonymous"))) in
          {| b_startLine := i + 1; b_symbolName := default "anonymous" name |}
            :: detectLoop re rest (S i)
      | None => detectLoop re rest (S i)
      end
  end.

Definition detectSymbolBoundaries (lines : list string) (re : regex)
  : list SymbolBoundary :=
  detectLoop re lines 0.

(** *** Splitting oversized blocks *)

(** The [for] loop of [splitIfTooLarge]; [n] is [subChunks.length]. *)
Fixpoint splitLoop (fuel : nat) (repoId filePath language : string)
         (chunkLines : list string) (blockStartLine : nat)
         (symbolName : string) (baseIndex : nat) (i n : nat)
  : list CodeChunk :=
  match fuel with
  | O => []
  | S fuel' =>
      if (i <? length chunkLines)%nat then
        let slice := Js.slice chunkLines i (i + MAX_CHUNK_LINES) in
        if (length slice <? MIN_CHUNK_LINES)%nat then []
        else
          let startLine := blockStartLine + i in
          let c := {| id := makeChunkId repoId filePath startLine;
                      repoId := repoId;
                      filePath := filePath;
                      language := language;
                      content := Js.join (String "010"%char "") slice;
                      startLine := startLine;
                      endLine := startLine + length slice - 1;
                      symbolName :=
                        Some (symbolName ++ " [part " ++ pretty (n + 1) ++ "]");
                      chunkIndex := baseIndex + n |} in
          if (length chunkLines <=? i + MAX_CHUNK_LINES)%nat then [c]
          else c :: splitLoop fuel' repoId filePath language chunkLines
                      blockStartLine symbolName baseIndex
                      (i + (MAX_CHUNK_LINES - SLIDING_WINDOW_OVERLAP)) (S n)
      else []
  end.

Definition splitIfTooLarge (repoId filePath language : string)
           (chunkLines : list string) (blockStartLine : nat)
           (symbolName : string) (baseIndex : nat) : list CodeChunk :=
  if (length chunkLines <? MIN_CHUNK_LINES)%nat then []
  else if (length chunkLines <=? MAX_CHUNK_LINES)%nat then
    [ {| id := makeChunkId repoId filePath blockStartLine;
         repoId := repoId;
         filePath := filePath;
         language := language;
         content := Js.join (String "010"%char "") chunkLines;
         startLine := blockStartLine;
         endLine := blockStartLine + length chunkLines - 1;
         symbolName := Some symbolName;
         chunkIndex := baseIndex |} ]
  else
    splitLoop (length chunkLines) repoId filePath language chunkLines
      blockStartLine symbolName baseIndex 0 0.

(** *** Symbol-aware chunkers *)

Definition ws : regex := Chr space.
Definition w : regex := Chr word.

(** [/^(?:export\s+)?(?:default\s+)?(?:async\s+)?(?:function\*?\s+(\w+)|class\s+(\w+)|(?:const|let|var)\s+(\w+)\s*=\s*(?:async\s+)?(?:\([^)]*\)|[\w]+)\s*=>)/] *)
Definition TS_SYMBOL_START_RE : regex :=
  Seq Bol
 (Seq (Opt (Seq (Lit "export") (Plus ws)))
 (Seq (Opt (Seq (Lit "default") (Plus ws)))
 (Seq (Opt (Seq (Lit "async") (Plus ws)))
      (Alt (Seq (Lit "function") (Seq (Opt (Lit "*")) (Seq (Plus ws) (Group 1 (Plus w)))))
      (Alt (Seq (Lit "class") (Seq (Plus ws) (Group 2 (Plus w))))
           (Seq (Alt (Lit "const") (Alt (Lit "let") (Lit "var")))
           (Seq (Plus ws)
           (Seq (Group 3 (Plus w))
           (Seq (Star ws)
           (Seq (Lit "=")
           (Seq (Star ws)
           (Seq (Opt (Seq (Lit "async") (Plus ws)))
           (Seq (Alt (Seq (Lit "(")
                     (Seq (Star (Chr (fun a => negb (Ascii.eqb a ")"%char))))
                          (Lit ")")))
                     (Plus w))
           (Seq (Star ws) (Lit "=>"))))))))))))))).

(** [/^(?:async\s+)?(?:def|class)\s+(\w+)/] *)
Definition PY_SYMBOL_START_RE : regex :=
  Seq Bol
 (Seq (Opt (Seq (Lit "async") (Plus ws)))
 (Seq (Alt (Lit "def") (Lit "class"))
 (Seq (Plus ws) (Group 1 (Plus w))))).

(** The [for] loop shared by [chunkTypeScript] and [chunkPython]: [i] is
    the index of the head of [bs] in [symbolBoundaries]. *)
Fixpoint chunkSymbols (repoId filePath language : string)
         (lines : list string) (bs : list SymbolBoundary) (i : nat)
  : list CodeChunk :=
  match bs with
  | [] => []
  | b :: rest =>
      let endLine :=
        match rest with
        | b' :: _ => b_startLine b' - 1
        | [] => length lines
        end in
      let chunkLines := Js.slice lines (b_startLine b - 1) endLine in
      splitIfTooLarge repoId filePath language chunkLines
        (b_startLine b) (b_symbolName b) i
      ++ chunkSymbols repoId filePath language lines rest (S i)
  end.

Definition chunkTypeScript (repoId filePath : string) (lines : list string)
  : list CodeChunk :=
  chunkSymbols repoId filePath "typescript" lines
    (detectSymbolBoundaries lines TS_SYMBOL_START_RE) 0.

Definition chunkPython (repoId filePath : string) (lines : list string)
  : list CodeChunk :=
  chunkSymbols repoId filePath "python" lines
    (detectSymbolBoundaries lines PY_SYMBOL_START_RE) 0.

(** *** Entry point *)

Definition isScriptExt (ext : string) : bool :=
  String.eqb ext ".ts" || String.eqb ext ".tsx" || String.eqb ext ".js"
  || String.eqb ext ".jsx" || String.eqb ext ".mjs".

Definition chunkFile (repoId filePath content : string) : ChunkingResult :=
  let ext := Js.toLowerCase (NodePath.extname filePath) in
  let lines := Js.split "010"%char content in
  let '(chunks0, strategy0) :=
    if isScriptExt ext then (chunkTypeScript repoId filePath lines, "ast")
    else if String.eqb ext ".py" then (chunkPython repoId filePath lines, "ast")
    else (slidingWindowChunk repoId filePath lines "text", "sliding-window") in
  let '(chunks1, strategy1) :=
    match chunks0 with
    | [] =>
        (slidingWindowChunk repoId filePath lines (detectLanguage ext),
         "sliding-window")
    | _ :: _ => (chunks0, strategy0)
    end in
  {| chunks := chunks1; totalChunks := length chunks1; strategy := strategy1 |}.

(** [chunkFiles]: all chunks of all files, flat. *)
Fixpoint chunkFiles (repoId : string) (files : list (string * string))
  : list CodeChunk :=
  match files with
  | [] => []
  | (path, content) :: rest =>
      chunks (chunkFile repoId path content) ++ chunkFiles repoId rest
  end.

End AstChunker.

(** ** fileFilter.ts *)

Module FileFilter.

(** [RawFile] of githubFetcher.ts. *)
Record RawFile : Type := {
  path : string;
  content : string;
  sizeBytes : Z
}.

Definition SUPPORTED_EXTENSIONS : gset string :=
  list_to_set
    [ ".ts"; ".tsx"; ".js"; ".jsx"; ".mjs"; ".cjs";
      ".py";
      ".md"; ".mdx"; ".json"; ".yaml"; ".yml"; ".toml" ].

Definition IGNORED_PATHS : gset string :=
  list_to_set
    [ "node_modules"; ".pnp"; "vendor"; "venv"; ".venv"; "env"; "__pypackages__";
      "dist"; "build"; "out"; ".next"; ".nuxt"; ".output"; ".cache";
      "__pycache__"; ".pytest_cache"; "*.egg-info";
      ".git"; ".svn"; ".hg"; ".idea"; ".vscode";
      "coverage"; ".nyc_output"; "htmlcov";
      "tmp"; "temp"; "logs" ].

Definition IGNORED_FILENAMES : gset string :=
  list_to_set
    [ "package-lock.json"; "yarn.lock"; "pnpm-lock.yaml"; "poetry.lock";
      "Pipfile.lock"; "composer.lock"; ".DS_Store"; "Thumbs.db";
      ".env"; ".env.local"; ".env.production";
      ".gitignore"; ".gitattributes"; ".editorconfig"; ".prettierrc";
      ".eslintrc"; ".eslintrc.js"; ".eslintrc.json";
      "jest.config.js"; "jest.config.ts"; "vitest.config.ts" ].

Definition MAX_FILE_SIZE_BYTES : Z := 500 * 1024.
Definition MIN_FILE_SIZE_BYTES : Z := 10.

(** [set.has(x)]. *)
Definition has (x : string) (set : gset string) : bool := bool_decide (x ∈ set).

(** [(n / 1024).toFixed(1)] for an integer [n >= 0] below 2^53: the
    quotient is exact in binary floating point, and [toFixed] rounds the
    exact value to the nearest tenth, a tie going up. *)
Definition toFixed1_div1024 (n : Z) : string :=
  let tenths := ((10 * n + 512) / 1024)%Z in
  pretty (tenths / 10)%Z ++ "." ++ pretty (tenths mod 10)%Z.

Inductive Decision : Type :=
| Index : Decision
| Skip : string -> Decision.   (* { index: false, reason } *)

(** The [for] loop over [pathParts.slice(0, -1)]: the first ignored part. *)
Fixpoint firstIgnored (parts : list string) : option string :=
  match parts with
  | [] => None
  | part :: rest => if has part IGNORED_PATHS then Some part else firstIgnored rest
  end.

Definition fileName (f : RawFile) : string := Js.pop (Js.split "/"%char (path f)).

Definition fileExt (f : RawFile) : string :=
  let filename := fileName f in
  if Js.includes "."%char filename
  then "." ++ Js.toLowerCase (Js.pop (Js.split "."%char filename))
  else "".

Definition shouldIndex (file : RawFile) : Decision :=
  let filename := fileName file in
  let ext := fileExt file in
  let pathParts := Js.split "/"%char (path file) in
  match firstIgnored (Js.init pathParts) with
  | Some part => Skip ("ignored directory: " ++ part)
  | None =>
      if has filename IGNORED_FILENAMES then Skip ("ignored filename: " ++ filename)
      else if negb (has ext SUPPORTED_EXTENSIONS) then Skip ("unsupported extension: " ++ ext)
      else if (MAX_FILE_SIZE_BYTES <? sizeBytes file)%Z
           then Skip ("too large: " ++ toFixed1_div1024 (sizeBytes file) ++ "KB")
      else if (sizeBytes file <? MIN_FILE_SIZE_BYTES)%Z
           then Skip ("too small: " ++ pretty (sizeBytes file) ++ " bytes")
      else if Js.includes "000"%char (content file) then Skip "binary file detected"
      else Index
  end.

Record FilterResult : Type := {
  accepted : list RawFile;
  rejected : list (string * string)      (* { path, reason } *)
}.

(** The loop of [filterFiles]: each file goes to the end of one of the two
    arrays. *)
Fixpoint filterLoop (files : list RawFile) (acc : FilterResult) : FilterResult :=
  match files with
  | [] => acc
  | file :: rest =>
      match shouldIndex file with
      | Index =>
          filterLoop rest
            {| accepted := accepted acc ++ [file]; rejected := rejected acc |}
      | Skip reason =>
          filterLoop rest
            {| accepted := accepted acc;
               rejected := rejected acc ++ [(path file, reason)] |}
      end
  end.

Definition filterFiles (files : list RawFile) : FilterResult :=
  filterLoop files {| accepted := []; rejected := [] |}.

End FileFilter.

(** ** githubFetcher.ts: the URL parser *)

Module GithubFetcher.
Import Regex.

Record RepoMeta : Type := {
  owner : string;
  repo : string;
  defaultBranch : string;
  sizeKB : Z;
  fileCount : nat;
  usedFallback : bool
}.

(** A value or a thrown [Error] with its message. *)
Inductive Exn (A : Type) : Type :=
| Ok : A -> Exn A
| Throw : string -> Exn A.
Arguments Ok {A} _.
Arguments Throw {A} _.

Definition notSlash : regex := Chr (fun a => negb (Ascii.eqb a "/"%char)).

(** [/\.git$/] *)
Definition DOT_GIT_RE : regex := Seq (Lit ".git") Eol.
(** [/\/tree\/.*$/] *)
Definition TREE_RE : regex := Seq (Lit "/tree/") (Seq (Star (Chr dot)) Eol).
(** [/github\.com\/([^/]+)\/([^/]+)/] *)
Definition GITHUB_RE : regex :=
  Seq (Lit "github.com/")
 (Seq (Group 1 (Plus notSlash))
 (Seq (Lit "/") (Group 2 (Plus notSlash)))).

Definition parseGitHubUrl (url : string) : Exn (string * string) :=
  let cleaned := remove_first TREE_RE (remove_first DOT_GIT_RE url) in
  match search GITHUB_RE cleaned with
  | None => Throw ("Invalid GitHub URL: " ++ url)
  | Some m =>
      Ok (default "" (cap 1 (m_caps m)), default "" (cap 2 (m_caps m)))
  end.

End GithubFetcher.

(** ** The vector store writer

    [writeToVectorStore] and its strategies (the text follows the file
    filter in the listing of fileFilter.ts; the job imports it from
    vectorstore/vectorStoreWriter).  The database is two tables keyed by their
    primary keys; the schema is not among the sources, and no constraint
    other than the two primary keys is modelled.  The engine refuses an
    [INSERT] that names a parameter it was not given, or that proposes one
    id twice under [ON CONFLICT ... DO UPDATE]; the awaited call then throws,
    which is [Refused] below, and the table is as the statements before it
    left it.  A statement the engine accepts is applied row by row.  Loss of
    the connection and the like are outside the model.  [now] is the reading
    of the clock used for [updatedAt]; the measured [durationMs] is left out
    of the result.  An embedding is carried in the text form the writer
    sends. *)

Module VectorStoreWriter.
Import AstChunker GithubFetcher.

Record EmbeddedChunk : Type := {
  chunk : CodeChunk;
  embedding : string;
  embeddedAt : Z
}.

Record WriteOptions : Type := {
  repoMeta : RepoMeta;
  commitHash : option string;
  embeddingModel : string
}.

Inductive Strategy : Type := skipped | full_reindex | upsert.

Record WriteResult : Type := {
  w_repoId : string;
  w_strategy : Strategy;
  chunksWritten : nat;
  chunksDeleted : nat
}.

(** A row of [code_chunks]. *)
Record StoredChunk : Type := {
  c_id : string;
  c_repo_id : string;
  c_file_path : string;
  c_language : string;
  c_content : string;
  c_start_line : nat;
  c_end_line : nat;
  c_symbol_name : option string;
  c_chunk_index : nat;
  c_embedding : string;
  c_embedded_at : Z
}.

(** A row of [repo_index]. *)
Record RepoIndex : Type := {
  r_repoId : string;
  r_commitHash : option string;
  r_defaultBranch : string;
  r_sizeKB : Z;
  r_fileCount : nat;
  r_chunkCount : nat;
  r_embeddingModel : string;
  r_updatedAt : Z
}.

Record Db : Type := {
  code_chunks : gmap string StoredChunk;
  repo_index : gmap string RepoIndex
}.

Definition INSERT_BATCH_SIZE : nat := 50.

(** The eleven parameters of one [VALUES] tuple. *)
Definition rowOf (e : EmbeddedChunk) : StoredChunk :=
  {| c_id := id (chunk e);
     c_repo_id := AstChunker.repoId (chunk e);
     c_file_path := filePath (chunk e);
     c_language := language (chunk e);
     c_content := content (chunk e);
     c_start_line := startLine (chunk e);
     c_end_line := endLine (chunk e);
     c_symbol_name := symbolName (chunk e);
     c_chunk_index := chunkIndex (chunk e);
     c_embedding := embedding e;
     c_embedded_at := embeddedAt e |}.

(** One proposed row under [ON CONFLICT (id) DO UPDATE SET content,
    embedding, embedded_at] ([upsert = true]) or [DO NOTHING]. *)
Definition insertRow (upsert : bool) (table : gmap string StoredChunk)
           (e : EmbeddedChunk) : gmap string StoredChunk :=
  let new := rowOf e in
  match table !! c_id new with
  | None => <[c_id new := new]> table
  | Some old =>
      if upsert then
        <[c_id new :=
            {| c_id := c_id old;
               c_repo_id := c_repo_id old;
               c_file_path := c_file_path old;
               c_language := c_language old;
               c_content := c_content new;
               c_start_line := c_start_line old;
               c_end_line := c_end_line old;
               c_symbol_name := c_symbol_name old;
               c_chunk_index := c_chunk_index old;
               c_embedding := c_embedding new;
               c_embedded_at := c_embedded_at new |}]> table
      else table
  end.

(** *** The statements of [batchInsertChunks]

    What a pass of the loop hands to [$executeRawUnsafe]: the numbers of
    the placeholders [$n] written into the [VALUES] clause, in order, and
    the parameters passed after the query text. *)

Module InsertStatement.

Inductive Param : Type :=
| PString : string -> Param
| PNumber : Z -> Param
| PNull : Param.

(** The eleven values [batch.flatMap] lists for one chunk. *)
Definition paramsOf (e : EmbeddedChunk) : list Param :=
  [ PString (id (chunk e));
    PString (AstChunker.repoId (chunk e));
    PString (filePath (chunk e));
    PString (language (chunk e));
    PString (content (chunk e));
    PNumber (Z.of_nat (startLine (chunk e)));
    PNumber (Z.of_nat (endLine (chunk e)));
    match symbolName (chunk e) with Some name => PString name | None => PNull end;
    PNumber (Z.of_nat (chunkIndex (chunk e)));
    PString (embedding e);
    PNumber (embeddedAt e) ].

(** The placeholders of the tuple of [batch[idx]] in the pass that starts
    at [i]: [base = i + idx], then [$${base * 11 + 1}], ...,
    [$${base * 11 + 11}]. *)
Definition tuplePlaceholders (i idx : nat) : list nat :=
  let base := i + idx in
  [ base * 11 + 1; base * 11 + 2; base * 11 + 3; base * 11 + 4; base * 11 + 5;
    base * 11 + 6; base * 11 + 7; base * 11 + 8; base * 11 + 9; base * 11 + 10;
    base * 11 + 11 ].

(** [batch.map((e, idx) => ...)] *)
Definition values (i : nat) (batch : list EmbeddedChunk) : list (list nat) :=
  imap (fun idx _ => tuplePlaceholders i idx) batch.

(** [batch.flatMap((e) => [...])] *)
Definition params (batch : list EmbeddedChunk) : list Param :=
  flat_map paramsOf batch.

Record Statement : Type := {
  placeholders : list nat;
  arguments : list Param
}.

(** The statement of the pass that starts at [i]. *)
Definition statementOf (i : nat) (batch : list EmbeddedChunk) : Statement :=
  {| placeholders := concat (values i batch); arguments := params batch |}.

(** The statements of the passes of the [for] loop, in order, were each of
    them to return. *)
Fixpoint statementsLoop (fuel : nat) (embedded : list EmbeddedChunk) (i : nat)
  : list Statement :=
  match fuel with
  | O => []
  | S fuel' =>
      if (i <? length embedded)%nat then
        let batch := Js.slice embedded i (i + INSERT_BATCH_SIZE) in
        statementOf i batch :: statementsLoop fuel' embedded (i + INSERT_BATCH_SIZE)
      else []
  end.

Definition statements (embedded : list EmbeddedChunk) : list Statement :=
  statementsLoop (length embedded) embedded 0.

End InsertStatement.

(** Why the engine refuses a statement. *)
Inductive Refusal : Type :=
| ParameterNotPassed    (* a placeholder [$n] with fewer than [n] parameters passed *)
| RowProposedTwice.     (* [ON CONFLICT DO UPDATE] may not touch a row a second time *)

(** What an awaited call comes to: its value, or the refusal it throws. *)
Inductive Outcome (A : Type) : Type :=
| Done : A -> Outcome A
| Refused : Refusal -> Outcome A.
Arguments Done {A} _.
Arguments Refused {A} _.

(** The effect of an accepted [INSERT INTO code_chunks ... VALUES ...]. *)
Definition executeInsert (upsert : bool) (batch : list EmbeddedChunk)
           (table : gmap string StoredChunk) : gmap string StoredChunk :=
  fold_left (insertRow upsert) batch table.

(** [$executeRawUnsafe(query, ...params)] for the statement of a batch.  A
    placeholder [$n] is bound to the [n]-th parameter, so the engine
    refuses a statement with a placeholder above the number of parameters.
    A statement of this loop either numbers its placeholders as its
    parameters are passed, [$1], [$2], ... (the pass that starts at 0), or
    has every placeholder above their number (the later passes); in the
    first case the [VALUES] tuples are the rows of the chunks of the batch,
    in order. *)
Definition executeRawUnsafe (upsert : bool) (st : InsertStatement.Statement)
           (batch : list EmbeddedChunk) (table : gmap string StoredChunk)
  : Outcome (gmap string StoredChunk) :=
  if negb (forallb (fun p => (p <=? length (InsertStatement.arguments st))%nat)
                   (InsertStatement.placeholders st))
  then Refused ParameterNotPassed
  else if upsert && negb (bool_decide (NoDup (map (fun e => id (chunk e)) batch)))
  then Refused RowProposedTwice
  else Done (executeInsert upsert batch table).

(** The [for] loop of [batchInsertChunks]: a refused statement ends it. *)
Fixpoint batchLoop (fuel : nat) (upsert : bool) (embedded : list EmbeddedChunk)
         (i totalInserted : nat) (table : gmap string StoredChunk)
  : gmap string StoredChunk * Outcome nat :=
  match fuel with
  | O => (table, Done totalInserted)
  | S fuel' =>
      if (i <? length embedded)%nat then
        let batch := Js.slice embedded i (i + INSERT_BATCH_SIZE) in
        match executeRawUnsafe upsert (InsertStatement.statementOf i batch) batch table with
        | Done table' =>
            batchLoop fuel' upsert embedded (i + INSERT_BATCH_SIZE)
              (totalInserted + length batch) table'
        | Refused why => (table, Refused why)
        end
      else (table, Done totalInserted)
  end.

Definition batchInsertChunks (table : gmap string StoredChunk)
           (embedded : list EmbeddedChunk) (upsert : bool)
  : gmap string StoredChunk * Outcome nat :=
  batchLoop (length embedded) upsert embedded 0 0 table.

(** [db.codeChunk.deleteMany({ where: { repoId } })]: the table without
    the rows of the repository, and their number. *)
Definition deleteMany (repoId : string) (table : gmap string StoredChunk)
  : gmap string StoredChunk * nat :=
  (filter (fun kv : string * StoredChunk => c_repo_id kv.2 <> repoId) table,
   size (filter (fun kv : string * StoredChunk => c_repo_id kv.2 = repoId) table)).

Definition repoIdOf (options : WriteOptions) : string :=
  owner (repoMeta options) ++ "/" ++ repo (repoMeta options).

Definition fullReindex (now : Z) (db : Db) (repoId : string)
           (embedded : list EmbeddedChunk) (options : WriteOptions)
  : Db * Outcome WriteResult :=
  let existing := repo_index db !! repoId in
  let '(table1, chunksDeleted) :=
    match existing with
    | Some _ => deleteMany repoId (code_chunks db)
    | None => (code_chunks db, 0)
    end in
  match batchInsertChunks table1 embedded false with
  | (table2, Refused why) =>
      ({| code_chunks := table2; repo_index := repo_index db |}, Refused why)
  | (table2, Done chunksWritten) =>
      let row :=
        match repo_index db !! repoId with
        | None =>
            {| r_repoId := repoId;
               r_commitHash := commitHash options;
               r_defaultBranch := defaultBranch (repoMeta options);
               r_sizeKB := sizeKB (repoMeta options);
               r_fileCount := fileCount (repoMeta options);
               r_chunkCount := chunksWritten;
               r_embeddingModel := embeddingModel options;
               r_updatedAt := now |}
        | Some old =>
            {| r_repoId := r_repoId old;
               r_commitHash := commitHash options;
               r_defaultBranch := r_defaultBranch old;
               r_sizeKB := sizeKB (repoMeta options);
               r_fileCount := fileCount (repoMeta options);
               r_chunkCount := chunksWritten;
               r_embeddingModel := embeddingModel options;
               r_updatedAt := now |}
        end in
      ({| code_chunks := table2; repo_index := <[repoId := row]> (repo_index db) |},
       Done {| w_repoId := repoId; w_strategy := full_reindex;
               chunksWritten := chunksWritten; chunksDeleted := chunksDeleted |})
  end.

Definition upsertChunks (now : Z) (db : Db) (repoId : string)
           (embedded : list EmbeddedChunk) (options : WriteOptions)
  : Db * Outcome WriteResult :=
  match batchInsertChunks (code_chunks db) embedded true with
  | (table1, Refused why) =>
      ({| code_chunks := table1; repo_index := repo_index db |}, Refused why)
  | (table1, Done chunksWritten) =>
      let row :=
        match repo_index db !! repoId with
        | None =>
            {| r_repoId := repoId;
               r_commitHash := None;
               r_defaultBranch := defaultBranch (repoMeta options);
               r_sizeKB := sizeKB (repoMeta options);
               r_fileCount := fileCount (repoMeta options);
               r_chunkCount := chunksWritten;
               r_embeddingModel := embeddingModel options;
               r_updatedAt := now |}
        | Some old =>
            {| r_repoId := r_repoId old;
               r_commitHash := r_commitHash old;
               r_defaultBranch := r_defaultBranch old;
               r_sizeKB := r_sizeKB old;
               r_fileCount := r_fileCount old;
               r_chunkCount := chunksWritten;
               r_embeddingModel := embeddingModel options;
               r_updatedAt := now |}
        end in
      ({| code_chunks := table1; repo_index := <[repoId := row]> (repo_index db) |},
       Done {| w_repoId := repoId; w_strategy := upsert;
               chunksWritten := chunksWritten; chunksDeleted := 0 |})
  end.

(** [existing?.commitHash === options.commitHash] for a hash [h] that
    passed the truthiness test. *)
Definition sameCommit (existing : option RepoIndex) (h : string) : bool :=
  match existing with
  | Some row => bool_decide (r_commitHash row = Some h)
  | None => false
  end.

Definition writeToVectorStore (now : Z) (db : Db)
           (embedded : list EmbeddedChunk) (options : WriteOptions)
  : Db * Outcome WriteResult :=
  let repoId := repoIdOf options in
  match commitHash options with
  | Some (String a h) =>                       (* if (options.commitHash) *)
      let existing := repo_index db !! repoId in
      if sameCommit existing (String a h) then
        (db, Done {| w_repoId := repoId; w_strategy := skipped;
                     chunksWritten := 0; chunksDeleted := 0 |})
      else fullReindex now db repoId embedded options
  | _ => upsertChunks now db repoId embedded options
  end.

End VectorStoreWriter.

(** ** contextAssembler.ts

    [String.prototype.length] counts UTF-16 code units, and the prompt holds
    arbitrary chunk text and an en dash; the measure is therefore a
    parameter, [jsLength], of the definitions that use it.

    [grouped] is an object literal used as a dictionary.  Its own entries
    are kept in insertion order; [Object.entries] lists the keys that are
    array indices first, in ascending order, then the others.  A key that
    names a member inherited from [Object.prototype] reads as a truthy
    value that has no [push]: [groupByFile] throws a [TypeError] there,
    which is [None] below.  The [score] of a retrieved chunk is not read by
    the assembler and is left out. *)

Module ContextAssembler.

Record RetrievedChunk : Type := {
  filePath : string;
  startLine : nat;
  endLine : nat;
  symbolName : option string;
  content : string;
  language : string
}.

Record Citation : Type := {
  c_filePath : string;
  c_startLine : nat;
  c_endLine : nat;
  c_symbolName : option string
}.

Record AssembledContext : Type := {
  systemPrompt : string;
  userPrompt : string;
  citationMap : gmap string Citation;
  tokenEstimate : nat
}.

Definition MAX_CONTEXT_CHARS : nat := 12000.

Definition nl : string := String "010"%char "".

(** *** Object semantics used by [groupByFile] *)

Definition inheritedKeys : list string :=
  [ "constructor"; "hasOwnProperty"; "isPrototypeOf"; "propertyIsEnumerable";
    "toLocaleString"; "toString"; "valueOf"; "__proto__";
    "__defineGetter__"; "__defineSetter__"; "__lookupGetter__"; "__lookupSetter__" ].

Definition inherited (k : string) : bool :=
  existsb (String.eqb k) inheritedKeys.

Fixpoint digitsValue (s : string) (acc : N) : option N :=
  match s with
  | EmptyString => Some acc
  | String a s' =>
      if Js.is_digit a
      then digitsValue s' (acc * 10 + N.of_nat (nat_of_ascii a - 48))%N
      else None
  end.

(** The array index a key denotes, if it is the canonical numeral of a
    number below 2^32 - 1. *)
Definition arrayIndex (k : string) : option N :=
  match k with
  | EmptyString => None
  | _ =>
      match digitsValue k 0%N with
      | Some n =>
          if String.eqb (pretty n) k && (n <? 4294967295)%N then Some n else None
      | None => None
      end
  end.

Section Entries.
Context {V : Type}.

Fixpoint insertIndexed (e : N * (string * V)) (l : list (N * (string * V)))
  : list (N * (string * V)) :=
  match l with
  | [] => [e]
  | e' :: l' =>
      if (e.1 <=? e'.1)%N then e :: l else e' :: insertIndexed e l'
  end.

Fixpoint entriesSplit (o : list (string * V))
  : list (N * (string * V)) * list (string * V) :=
  match o with
  | [] => ([], [])
  | kv :: rest =>
      let '(ix, named) := entriesSplit rest in
      match arrayIndex kv.1 with
      | Some n => (insertIndexed (n, kv) ix, named)
      | None => (ix, kv :: named)
      end
  end.

(** [Object.entries(o)] for own properties held in insertion order. *)
Definition entries (o : list (string * V)) : list (string * V) :=
  let '(ix, named) := entriesSplit o in (map snd ix ++ named)%list.
End Entries.

(** [grouped[k].push(chunk)], creating the array first when the key is
    new. *)
Fixpoint pushTo (k : string) (chunk : RetrievedChunk)
         (grouped : list (string * list RetrievedChunk))
  : list (string * list RetrievedChunk) :=
  match grouped with
  | [] => [(k, [chunk])]
  | (k', l) :: rest =>
      if String.eqb k' k then (k', (l ++ [chunk])%list) :: rest
      else (k', l) :: pushTo k chunk rest
  end.

Fixpoint groupLoop (chunks : list RetrievedChunk)
         (grouped : list (string * list RetrievedChunk))
  : option (list (string * list RetrievedChunk)) :=
  match chunks with
  | [] => Some grouped
  | chunk :: rest =>
      if inherited (filePath chunk) then None
      else groupLoop rest (pushTo (filePath chunk) chunk grouped)
  end.

(** [arr.sort((a, b) => a.startLine - b.startLine)]: a stable sort. *)
Fixpoint insertByLine (c : RetrievedChunk) (l : list RetrievedChunk)
  : list RetrievedChunk :=
  match l with
  | [] => [c]
  | c' :: l' =>
      if (startLine c <=? startLine c')%nat then c :: l
      else c' :: insertByLine c l'
  end.

Definition sortByLine (l : list RetrievedChunk) : list RetrievedChunk :=
  fold_right insertByLine [] l.

Definition groupByFile (chunks : list RetrievedChunk)
  : option (list (string * list RetrievedChunk)) :=
  match groupLoop chunks [] with
  | Some grouped => Some (map (fun kv => (kv.1, sortByLine kv.2)) grouped)
  | None => None
  end.

(** *** Prompt builders *)

Definition buildSystemPrompt (repoId : string) : string :=
  "You are a code intelligence assistant for the repository `" ++ repoId ++ "`.

Your job is to answer developer questions about this codebase accurately and concisely.

RULES:
1. Answer ONLY using the code context provided below. Do not use outside knowledge.
2. Always cite your sources using the [N] citation markers provided.
3. Include exact file paths and line numbers in your answer.
4. If the context does not contain enough information to answer, say so clearly — do not guess.
5. Format code references using backticks.
6. Keep answers concise. Developers want facts, not essays.".

Definition buildUserPrompt (query contextSection : string) : string :=
  "## Codebase Context

" ++ contextSection ++ "

---

## Question

" ++ query ++ "

## Answer (cite sources with [N] markers)".

(** *** The assembly loop *)

Definition citationKey (citationIndex : nat) : string :=
  "[" ++ pretty citationIndex ++ "]".

Definition citationOf (chunk : RetrievedChunk) : Citation :=
  {| c_filePath := filePath chunk;
     c_startLine := startLine chunk;
     c_endLine := endLine chunk;
     c_symbolName := symbolName chunk |}.

Definition chunkHeader (citationKey : string) (chunk : RetrievedChunk) : string :=
  if Js.truthy (symbolName chunk)
  then citationKey ++ " `" ++ default "" (symbolName chunk) ++ "` (lines "
       ++ pretty (startLine chunk) ++ "–" ++ pretty (endLine chunk) ++ ")"
  else citationKey ++ " lines "
       ++ pretty (startLine chunk) ++ "–" ++ pretty (endLine chunk).

Definition chunkBlock (citationKey : string) (chunk : RetrievedChunk) : string :=
  chunkHeader citationKey chunk ++ nl ++ "```" ++ language chunk ++ nl
  ++ content chunk ++ nl ++ "```".

Definition fileHeader (filePath : string) : string :=
  "### File: `" ++ filePath ++ "`".

(** The variables the two loops update. *)
Record Acc : Type := {
  a_citationMap : gmap string Citation;
  a_citationIndex : nat;
  a_totalChars : nat
}.

Section Assemble.
Variable jsLength : string -> nat.

(** The inner loop, over the chunks of one file. *)
Fixpoint chunkLoop (fileChunks : list RetrievedChunk) (acc : Acc)
         (fileBlock : list string) : Acc * list string :=
  match fileChunks with
  | [] => (acc, fileBlock)
  | chunk :: rest =>
      if (MAX_CONTEXT_CHARS <? a_totalChars acc)%nat then (acc, fileBlock)
      else
        let key := citationKey (a_citationIndex acc) in
        let block := chunkBlock key chunk in
        chunkLoop rest
          {| a_citationMap := <[key := citationOf chunk]> (a_citationMap acc);
             a_citationIndex := a_citationIndex acc + 1;
             a_totalChars := a_totalChars acc + jsLength block |}
          (fileBlock ++ [block])%list
  end.

(** The outer loop, over [Object.entries(grouped)]. *)
Fixpoint fileLoop (groups : list (string * list RetrievedChunk)) (acc : Acc)
         (contextBlocks : list string) : Acc * list string :=
  match groups with
  | [] => (acc, contextBlocks)
  | (filePath, fileChunks) :: rest =>
      let '(acc', fileBlock) := chunkLoop fileChunks acc [fileHeader filePath] in
      fileLoop rest acc' (contextBlocks ++ [Js.join (nl ++ nl) fileBlock])%list
  end.

Definition assembleContext (query : string) (chunks : list RetrievedChunk)
           (repoId : string) : option AssembledContext :=
  match groupByFile chunks with
  | None => None
  | Some grouped =>
      let '(acc, contextBlocks) :=
        fileLoop (entries grouped)
          {| a_citationMap := ∅; a_citationIndex := 1; a_totalChars := 0 |} [] in
      let contextSection := Js.join (nl ++ nl ++ "---" ++ nl ++ nl) contextBlocks in
      let systemPrompt := buildSystemPrompt repoId in
      let userPrompt := buildUserPrompt query contextSection in
      Some {| systemPrompt := systemPrompt;
              userPrompt := userPrompt;
              citationMap := a_citationMap acc;
              tokenEstimate := (jsLength systemPrompt + jsLength userPrompt + 3) / 4 |}
  end.
End Assemble.

End ContextAssembler.

(** ** ingestionPipeline.ts and indexRepoJob.ts

    The job talks to GitHub, to the embedding provider and to the database.
    Those collaborators are the fields of [Services]; a call to one of them
    is recorded in the [log] of the world the job runs in, so that what a
    run did can be read off afterwards.  The text of the error the database
    client throws for a refused statement is not in the sources:
    [clientError] stands for it.  Wall-clock durations are left out. *)

Module IndexRepoJob.
Import AstChunker FileFilter GithubFetcher VectorStoreWriter.

Record FetchResult : Type := {
  files : list RawFile;
  meta : RepoMeta
}.

Record IngestionStats : Type := {
  totalFilesFound : nat;
  filesAccepted : nat;
  filesRejected : nat;
  s_totalChunks : nat;
  usedCloneFallback : bool
}.

Record IngestionOutput : Type := {
  o_repoId : string;
  o_chunks : list CodeChunk;
  stats : IngestionStats
}.

Record RepoData : Type := {
  default_branch : string;
  size : Z
}.

Record EmbeddingResult : Type := {
  embedded : list EmbeddedChunk;
  model : string
}.

Record IndexRepoJobData : Type := {
  githubUrl : string;
  githubToken : option string;
  requestedBy : option string
}.

Record IndexRepoJobResult : Type := {
  j_repoId : string;
  j_strategy : Strategy;
  j_chunksWritten : nat
}.

Inductive Event : Type :=
| UpdateProgress : nat -> Event
| ReposGet : string -> string -> Event
| FetchLatestCommitHash : string -> string -> string -> Event
| RunIngestionPipeline : string -> Event
| EmbedChunks : nat -> Event
| WriteToVectorStore : nat -> Event.

Record Services : Type := {
  repos_get : string -> string -> option string -> Exn RepoData;
  fetchLatestCommitHash : string -> string -> string -> option string -> option string;
  fetchRepository : string -> option string -> Exn FetchResult;
  embedChunks : list CodeChunk -> Exn EmbeddingResult;
  clientError : Refusal -> string;   (* the message of the database client's error *)
  clock : Z
}.

Record World : Type := {
  db : Db;
  log : list Event
}.

(** Computations that read and write the world and may throw. *)
Definition M (A : Type) : Type := World -> Exn A * World.

#[local] Instance M_ret : MRet M := fun A (a : A) w => (Ok a, w).
#[local] Instance M_bind : MBind M :=
  fun A B (f : A -> M B) (m : M A) w =>
    match m w with
    | (Ok a, w') => f a w'
    | (Throw e, w') => (Throw e, w')
    end.

Definition emit (e : Event) : M unit :=
  fun w => (Ok tt, {| db := db w; log := (log w ++ [e])%list |}).

Definition lift {A} (x : Exn A) : M A := fun w => (x, w).

(** [runIngestionPipeline]: fetch, filter, chunk. *)
Definition runIngestionPipeline (svc : Services) (url : string)
           (token : option string) : Exn IngestionOutput :=
  match fetchRepository svc url token with
  | Throw e => Throw e
  | Ok fetchResult =>
      let repoId := owner (meta fetchResult) ++ "/" ++ repo (meta fetchResult) in
      let filterResult := filterFiles (files fetchResult) in
      let chunks :=
        chunkFiles repoId
          (map (fun f => (path f, FileFilter.content f)) (accepted filterResult)) in
      Ok {| o_repoId := repoId;
            o_chunks := chunks;
            stats := {| totalFilesFound := length (files fetchResult);
                        filesAccepted := length (accepted filterResult);
                        filesRejected := length (rejected filterResult);
                        s_totalChunks := length chunks;
                        usedCloneFallback := usedFallback (meta fetchResult) |} |}
  end.

Definition writePhase (svc : Services) (embedded : list EmbeddedChunk)
           (options : WriteOptions) : M WriteResult :=
  fun w =>
    let '(db', r) := writeToVectorStore (clock svc) (db w) embedded options in
    (match r with
     | Done result => Ok result
     | Refused why => Throw (clientError svc why)
     end,
     {| db := db'; log := (log w ++ [WriteToVectorStore (length embedded)])%list |}).

Definition processIndexRepoJob (svc : Services) (data : IndexRepoJobData)
  : M IndexRepoJobResult :=
  (* Phase 1: commit hash check *)
  emit (UpdateProgress 5) ;;
  '(owner, repo) ← lift (parseGitHubUrl (githubUrl data)) ;
  emit (ReposGet owner repo) ;;
  repoData ← lift (repos_get svc owner repo (githubToken data)) ;
  let defaultBranch := default_branch repoData in
  emit (FetchLatestCommitHash owner repo defaultBranch) ;;
  let commitHash := fetchLatestCommitHash svc owner repo defaultBranch (githubToken data) in
  (* Phase 2: ingestion *)
  emit (UpdateProgress 10) ;;
  emit (RunIngestionPipeline (githubUrl data)) ;;
  ingestionResult ← lift (runIngestionPipeline svc (githubUrl data) (githubToken data)) ;
  emit (UpdateProgress 40) ;;
  match o_chunks ingestionResult with
  | [] =>
      mret {| j_repoId := o_repoId ingestionResult;
              j_strategy := skipped;
              j_chunksWritten := 0 |}
  | _ :: _ =>
      (* Phase 3: embedding *)
      emit (EmbedChunks (length (o_chunks ingestionResult))) ;;
      embeddingResult ← lift (embedChunks svc (o_chunks ingestionResult)) ;
      emit (UpdateProgress 80) ;;
      (* Phase 4: write *)
      writeResult ← writePhase svc (embedded embeddingResult)
        {| repoMeta := {| owner := owner;
                          repo := repo;
                          defaultBranch := defaultBranch;
                          sizeKB := size repoData;
                          fileCount := filesAccepted (stats ingestionResult);
                          usedFallback := usedCloneFallback (stats ingestionResult) |};
           commitHash := commitHash;
           embeddingModel := model embeddingResult |} ;
      emit (UpdateProgress 100) ;;
      mret {| j_repoId := o_repoId ingestionResult;
              j_strategy := w_strategy writeResult;
              j_chunksWritten := chunksWritten writeResult |}
  end.

End IndexRepoJob.

(** ** githubFetcher.ts: the fetch strategies

    [fetchRepository] and the REST strategy.  The GitHub client, the clone
    strategy (isomorphic-git and the file system) and [Buffer.byteLength]
    are given by a record of functions; a rejected promise is a [Throw].
    [getBlob] answers with the decoded text of the blob. *)

Module RepoFetch.
Import FileFilter GithubFetcher IndexRepoJob.

Definition FILE_COUNT_THRESHOLD : nat := 1000.
Definition SIZE_THRESHOLD_MB : Z := 50.
Definition MAX_FILE_SIZE_BYTES : Z := 500 * 1024.

(** An entry of [treeData.tree]; every field may be missing. *)
Record TreeItem : Type := {
  t_path : option string;
  t_sha : option string;
  t_size : option Z;
  t_type : option string
}.

Record Platform : Type := {
  octokit_repos_get : option string -> string -> string -> Exn RepoData;
  octokit_git_getTree :
    option string -> string -> string -> string -> Exn (option (list TreeItem));
  octokit_git_getBlob : option string -> string -> string -> option string -> Exn string;
  fetchViaClone : string -> option string -> Exn (list RawFile);
  byteLength : string -> Z;
  env_GITHUB_TOKEN : option string
}.

(** The loop over [parts]: [false] at the first ignored part. *)
Fixpoint noIgnoredPart (parts : list string) : bool :=
  match parts with
  | [] => true
  | part :: rest => if has part IGNORED_PATHS then false else noIgnoredPart rest
  end.

Definition isRelevantFile (filePath : string) : bool :=
  let ext := Js.toLowerCase (NodePath.extname filePath) in
  if negb (has ext SUPPORTED_EXTENSIONS) then false
  else noIgnoredPart (Js.split "/"%char filePath).

(** The callback of [treeItems.filter] in [fetchViaRestApi]. *)
Definition isWanted (item : TreeItem) : bool :=
  if negb (Js.truthy (t_path item)) then false
  else if negb (isRelevantFile (default "" (t_path item))) then false
  else if (MAX_FILE_SIZE_BYTES <? default 0%Z (t_size item))%Z then false
  else true.

Definition BATCH_SIZE : nat := 20.

Section Rest.
Variable platform : Platform.
Variable auth : option string.
Variables owner repo : string.

(** One promise of a batch: the file, or nothing when it is rejected. *)
Definition fetchBlob (item : TreeItem) : option RawFile :=
  match octokit_git_getBlob platform auth owner repo (t_sha item) with
  | Ok content =>
      Some {| path := default "" (t_path item);
              FileFilter.content := content;
              sizeBytes := match t_size item with
                           | Some size => size
                           | None => byteLength platform content
                           end |}
  | Throw _ => None
  end.

(** The [for] loop over the results of [Promise.allSettled]. *)
Fixpoint pushFulfilled (settled : list (option RawFile)) (results : list RawFile)
  : list RawFile :=
  match settled with
  | [] => results
  | Some value :: rest => pushFulfilled rest (results ++ [value])%list
  | None :: rest => pushFulfilled rest results
  end.

Fixpoint restLoop (fuel : nat) (relevant : list TreeItem) (i : nat)
         (results : list RawFile) : list RawFile :=
  match fuel with
  | O => results
  | S fuel' =>
      if (i <? length relevant)%nat then
        let batch := Js.slice relevant i (i + BATCH_SIZE) in
        let settled := map fetchBlob batch in
        restLoop fuel' relevant (i + BATCH_SIZE) (pushFulfilled settled results)
      else results
  end.

Definition fetchViaRestApi (treeItems : list TreeItem) : list RawFile :=
  let relevant := List.filter isWanted treeItems in
  restLoop (length relevant) relevant 0 [].

End Rest.

Definition isBlob (item : TreeItem) : bool :=
  match t_type item with
  | Some type => String.eqb type "blob"
  | None => false
  end.

Definition fetchRepository (platform : Platform) (githubUrl : string)
           (githubToken : option string) : Exn FetchResult :=
  match parseGitHubUrl githubUrl with
  | Throw e => Throw e
  | Ok (owner, repo) =>
      let auth := Js.or_else githubToken (env_GITHUB_TOKEN platform) in
      match octokit_repos_get platform auth owner repo with
      | Throw e => Throw e
      | Ok repoData =>
          let sizeKB := size repoData in
          let defaultBranch := default_branch repoData in
          match octokit_git_getTree platform auth owner repo defaultBranch with
          | Throw e => Throw e
          | Ok tree =>
              let allFiles := List.filter isBlob (default [] tree) in
              let fileCount := length allFiles in
              let meta usedFallback :=
                {| GithubFetcher.owner := owner; GithubFetcher.repo := repo;
                   GithubFetcher.defaultBranch := defaultBranch;
                   GithubFetcher.sizeKB := sizeKB;
                   GithubFetcher.fileCount := fileCount;
                   GithubFetcher.usedFallback := usedFallback |} in
              (* sizeKB / 1024 > 50, an exact quotient *)
              let shouldUseFallback :=
                (FILE_COUNT_THRESHOLD <? fileCount)%nat
                || (SIZE_THRESHOLD_MB * 1024 <? sizeKB)%Z in
              if shouldUseFallback then
                match fetchViaClone platform githubUrl githubToken with
                | Throw e => Throw e
                | Ok files => Ok {| files := files; meta := meta true |}
                end
              else
                Ok {| files := fetchViaRestApi platform auth owner repo allFiles;
                      meta := meta false |}
          end
      end
  end.

End RepoFetch.

(** * The vocabulary of the statements

    Predicates that read a sentence of the specification, and the sample
    data on which the statements are exercised. *)

Section ChunkSizesTerms.
Import AstChunker.

(** [MIN_CHUNK_LINES <= endLine - startLine + 1 <= MAX_CHUNK_LINES], read
    over the integers. *)
Definition sizeInBounds (c : CodeChunk) : Prop :=
  (3 <= Z.of_nat (endLine c) - Z.of_nat (startLine c) + 1 <= 150)%Z.

End ChunkSizesTerms.

(** A markdown file of three lines, and the one chunk it yields. *)
Definition sampleReadme : string :=
  "a" ++ String "010"%char "b" ++ String "010"%char "c".

Definition sampleReadmeChunk : AstChunker.CodeChunk :=
  {| AstChunker.id := "o_r__README_md__L1";
     AstChunker.repoId := "o/r";
     AstChunker.filePath := "README.md";
     AstChunker.language := "text";
     AstChunker.content := sampleReadme;
     AstChunker.startLine := 1;
     AstChunker.endLine := 3;
     AstChunker.symbolName := None;
     AstChunker.chunkIndex := 0 |}.

Section ChunkIndicesTerms.
Import AstChunker.

(** A script whose first symbol is a one-line block and whose second symbol
    spans three lines. *)
Definition shortThenLong : string :=
  "function a() {}" ++ String "010"%char
  "function b() {" ++ String "010"%char
  "  return 1;" ++ String "010"%char
  "}".

(** A script whose first symbol spans 151 lines and whose second spans
    three. *)
Definition longThenShort : string :=
  "function a() {"
  ++ String.concat "" (repeat (String "010"%char "  step();") 150)
  ++ String "010"%char "function b() {" ++ String "010"%char
  "  return 1;" ++ String "010"%char
  "}".

End ChunkIndicesTerms.

Section FilterRulesTerms.
Import FileFilter.

(** The five rules, in the order of the specification. *)
Inductive Rule : Type :=
| NoIgnoredDirectory      (* 1 *)
| NotIgnoredFilename      (* 2 *)
| SupportedExtension      (* 3 *)
| SizeInRange             (* 4 *)
| NoNulByte.              (* 5 *)

(** The test [shouldIndex] makes for each rule, on the parts it computes. *)
Definition holds (r : Rule) (f : RawFile) : bool :=
  match r with
  | NoIgnoredDirectory =>
      forallb (fun part => negb (has part IGNORED_PATHS))
              (Js.init (Js.split "/"%char (path f)))
  | NotIgnoredFilename => negb (has (fileName f) IGNORED_FILENAMES)
  | SupportedExtension => has (fileExt f) SUPPORTED_EXTENSIONS
  | SizeInRange => (10 <=? sizeBytes f)%Z && (sizeBytes f <=? 512000)%Z
  | NoNulByte => negb (Js.includes "000"%char (content f))
  end.

Definition rulesInOrder : list Rule :=
  [ NoIgnoredDirectory; NotIgnoredFilename; SupportedExtension; SizeInRange; NoNulByte ].

Definition allRulesHold (f : RawFile) : bool :=
  forallb (fun r => holds r f) rulesInOrder.

(** The first rule, in the order above, that a file breaks. *)
Definition firstFailing (f : RawFile) : option Rule :=
  find (fun r => negb (holds r f)) rulesInOrder.

Fixpoint startsWith (p s : string) {struct p} : bool :=
  match p, s with
  | EmptyString, _ => true
  | String a p', String b s' => Ascii.eqb a b && startsWith p' s'
  | String _ _, EmptyString => false
  end.

(** The rule a recorded reason speaks of. *)
Definition ruleOfReason (reason : string) : option Rule :=
  if startsWith "ignored directory: " reason then Some NoIgnoredDirectory
  else if startsWith "ignored filename: " reason then Some NotIgnoredFilename
  else if startsWith "unsupported extension: " reason then Some SupportedExtension
  else if startsWith "too large: " reason then Some SizeInRange
  else if startsWith "too small: " reason then Some SizeInRange
  else if String.eqb "binary file detected" reason then Some NoNulByte
  else None.

(** The reason [shouldIndex] gives, or the empty string for an accepted
    file. *)
Definition reasonOf (f : RawFile) : string :=
  match shouldIndex f with
  | Index => ""
  | Skip reason => reason
  end.

End FilterRulesTerms.

Section VectorStoreTerms.
Import AstChunker GithubFetcher VectorStoreWriter.

Definition skippedResult (options : WriteOptions) : WriteResult :=
  {| w_repoId := repoIdOf options; w_strategy := skipped;
     chunksWritten := 0; chunksDeleted := 0 |}.

(** The chunk of the sample file with its embedding, and the options of a
    write for [o/r] under an optional commit hash. *)
Definition sampleEmbedded : EmbeddedChunk :=
  {| chunk := sampleReadmeChunk; embedding := "[0.6,0.8]"; embeddedAt := 1000 |}.

Definition sampleOptions (h : option string) : WriteOptions :=
  {| repoMeta := {| owner := "o"; repo := "r"; defaultBranch := "main";
                    sizeKB := 12; fileCount := 1; usedFallback := false |};
     commitHash := h;
     embeddingModel := "text-embedding-004" |}.

Definition emptyDb : Db := {| code_chunks := ∅; repo_index := ∅ |}.

(** The result of a call that returned. *)
Definition outcome {A} (o : Outcome A) : option A :=
  match o with
  | Done a => Some a
  | Refused _ => None
  end.

(** A README of 2266 lines, and its chunks with an embedding each: 51
    windows, one more than a statement takes. *)
Definition longReadme : string :=
  Js.join (String "010"%char "") (repeat "Find issues." 2266).

Definition longReadmeEmbedded : list EmbeddedChunk :=
  map (fun c => {| chunk := c; embedding := "[0.6,0.8]"; embeddedAt := 1000 |})
      (chunks (chunkFile "o/r" "README.md" longReadme)).

Definition sampleRow : RepoIndex :=
  {| r_repoId := "o/r"; r_commitHash := Some "abc"; r_defaultBranch := "main";
     r_sizeKB := 12; r_fileCount := 1; r_chunkCount := 1;
     r_embeddingModel := "text-embedding-004"; r_updatedAt := 1 |}.

(** The store after a first write of [sampleEmbedded] at commit [abc]. *)
Definition indexedDb : Db :=
  {| code_chunks := {[ "o_r__README_md__L1" := rowOf sampleEmbedded ]};
     repo_index := {[ "o/r" := sampleRow ]} |}.

Definition chunksOfRepo (repoId : string) (db : Db) : nat :=
  size (filter (fun kv : string * StoredChunk => c_repo_id kv.2 = repoId) (code_chunks db)).

(** A second chunk of [README.md], and a store that holds both. *)
Definition otherEmbedded : EmbeddedChunk :=
  {| chunk := {| AstChunker.id := "o_r__README_md__L46";
                 AstChunker.repoId := "o/r";
                 AstChunker.filePath := "README.md";
                 AstChunker.language := "text";
                 AstChunker.content := sampleReadme;
                 AstChunker.startLine := 46;
                 AstChunker.endLine := 48;
                 AstChunker.symbolName := None;
                 AstChunker.chunkIndex := 1 |};
     embedding := "[0.8,0.6]"; embeddedAt := 1000 |}.

Definition twoChunkDb : Db :=
  {| code_chunks := {[ "o_r__README_md__L1" := rowOf sampleEmbedded;
                       "o_r__README_md__L46" := rowOf otherEmbedded ]};
     repo_index := ∅ |}.

End VectorStoreTerms.

Section EmptyCorpusTerms.
Import AstChunker FileFilter GithubFetcher VectorStoreWriter IndexRepoJob.

Definition isHeavyPhase (e : Event) : bool :=
  match e with
  | EmbedChunks _ | WriteToVectorStore _ => true
  | _ => false
  end.

(** A repository whose only file is a lock file: nothing passes the
    filter, so the pipeline yields no chunk. *)
Definition lockOnlyServices : Services :=
  {| repos_get := fun _ _ _ => Ok {| default_branch := "main"; size := 1 |};
     fetchLatestCommitHash := fun _ _ _ _ => Some "abc";
     fetchRepository := fun _ _ =>
       Ok {| files := [ {| path := "yarn.lock"; FileFilter.content := "# lock file";
                           sizeBytes := 11 |} ];
             meta := {| GithubFetcher.owner := "o"; GithubFetcher.repo := "r";
                        defaultBranch := "main"; sizeKB := 1; fileCount := 1;
                        usedFallback := false |} |};
     embedChunks := fun _ => Throw "embedding provider not reachable";
     clientError := fun _ => "Raw query failed";
     clock := 0 |}.

Definition lockOnlyJob : IndexRepoJobData :=
  {| githubUrl := "https://github.com/o/r"; githubToken := None; requestedBy := None |}.

Definition lockOnlyOutput : IngestionOutput :=
  {| o_repoId := "o/r"; o_chunks := [];
     stats := {| totalFilesFound := 1; filesAccepted := 0; filesRejected := 1;
                 s_totalChunks := 0; usedCloneFallback := false |} |}.

End EmptyCorpusTerms.

(** A numbered block: the citation number and the chunk shown under it. *)
Abbreviation Numbered := (nat * ContextAssembler.RetrievedChunk)%type.

Section CitationsTerms.
Import ContextAssembler.

Definition renderChunk (nc : Numbered) : string :=
  chunkBlock (citationKey nc.1) nc.2.

(** One file of the context section: its header, then its numbered
    blocks. *)
Definition renderFile (fb : string * list Numbered) : string :=
  Js.join (nl ++ nl) (fileHeader fb.1 :: map renderChunk fb.2).

Definition renderContext (blocks : list (string * list Numbered)) : string :=
  Js.join (nl ++ nl ++ "---" ++ nl ++ nl) (map renderFile blocks).

End CitationsTerms.

(** Two chunks of one file, retrieved out of line order. *)
Definition sampleRetrieved : list ContextAssembler.RetrievedChunk :=
  [ {| ContextAssembler.filePath := "src/auth.ts";
       ContextAssembler.startLine := 40;
       ContextAssembler.endLine := 44;
       ContextAssembler.symbolName := Some "logout";
       ContextAssembler.content := "export function logout() {}";
       ContextAssembler.language := "typescript" |};
    {| ContextAssembler.filePath := "src/auth.ts";
       ContextAssembler.startLine := 1;
       ContextAssembler.endLine := 9;
       ContextAssembler.symbolName := None;
       ContextAssembler.content := "import jwt from 'jsonwebtoken';";
       ContextAssembler.language := "typescript" |} ].

Definition sampleContext : option ContextAssembler.AssembledContext :=
  ContextAssembler.assembleContext String.length "where is auth?" sampleRetrieved "o/r".

(** ** Further vocabulary: chunks and their file *)

Section ChunkTerms.
Import AstChunker.

(** A chunk that describes a range of the lines of its file: the range is
    inside the file, the content is the text of these lines, and the
    identity fields are those of the file. *)
Definition describesLines (repoId filePath : string) (lines : list string)
           (c : CodeChunk) : Prop :=
  1 <= startLine c /\ startLine c <= endLine c /\ endLine c <= length lines
  /\ content c
     = Js.join (String "010"%char "") (Js.slice lines (startLine c - 1) (endLine c))
  /\ id c = makeChunkId repoId filePath (startLine c)
  /\ AstChunker.repoId c = repoId
  /\ AstChunker.filePath c = filePath.

(** A strictly increasing list of numbers, all at least [lo]. *)
Fixpoint increasingFrom (lo : nat) (l : list nat) : Prop :=
  match l with
  | [] => True
  | x :: rest => lo <= x /\ increasingFrom (S x) rest
  end.

(** Line [n] lies in the range of chunk [c]. *)
Definition covers (c : CodeChunk) (n : nat) : Prop :=
  startLine c <= n /\ n <= endLine c.

(** Line [n] (from 1) of the file starts a symbol for the pattern. *)
Definition symbolLine (re : Regex.regex) (lines : list string) (n : nat) : Prop :=
  1 <= n /\ exists line, nth_error lines (n - 1) = Some line /\ Regex.search re line <> None.

(** Every match of the pattern takes at least one character. *)
Fixpoint consumes (r : Regex.regex) : bool :=
  match r with
  | Regex.Chr _ => true
  | Regex.Seq r1 r2 => consumes r1 || consumes r2
  | Regex.Alt r1 r2 => consumes r1 && consumes r2
  | Regex.Group _ r1 => consumes r1
  | _ => false
  end.

(** The pattern has no capture group. *)
Fixpoint groupFree (r : Regex.regex) : bool :=
  match r with
  | Regex.Seq r1 r2 | Regex.Alt r1 r2 => groupFree r1 && groupFree r2
  | Regex.Star r1 => groupFree r1
  | Regex.Group _ _ => false
  | _ => true
  end.

(** Every match of the pattern ends with a text of at least one character
    in one of the groups 1, 2 and 3: a group that takes a character stands
    on each way through the pattern, with no group after it. *)
Fixpoint names (r : Regex.regex) : bool :=
  match r with
  | Regex.Group n r1 => (1 <=? n)%nat && (n <=? 3)%nat && consumes r1
  | Regex.Seq r1 r2 => names r2 || (names r1 && groupFree r2)
  | Regex.Alt r1 r2 => names r1 && names r2
  | _ => false
  end.

(** One of [match[1]], [match[2]], [match[3]] is truthy. *)
Definition named (cs : Regex.caps) : bool :=
  Js.truthy (Regex.cap 1 cs) || Js.truthy (Regex.cap 2 cs) || Js.truthy (Regex.cap 3 cs).

(** The lines of a file as the chunker sees them. *)
Definition linesOf (content : string) : list string := Js.split "010"%char content.

(** The extension the chunker dispatches on. *)
Definition extOf (filePath : string) : string :=
  Js.toLowerCase (NodePath.extname filePath).

End ChunkTerms.

(** ** Further vocabulary: rows of the store *)

Section StoreTerms.
Import AstChunker GithubFetcher VectorStoreWriter.

(** The ids proposed by a list of embedded chunks. *)
Definition idsOf (embedded : list EmbeddedChunk) : list string :=
  map (fun e => id (chunk e)) embedded.

(** The columns an upsert leaves alone. *)
Definition keptColumns (row : StoredChunk)
  : string * string * string * string * nat * nat * option string * nat :=
  (c_id row, c_repo_id row, c_file_path row, c_language row,
   c_start_line row, c_end_line row, c_symbol_name row, c_chunk_index row).

(** The columns an upsert overwrites. *)
Definition writtenColumns (row : StoredChunk) : string * string * Z :=
  (c_content row, c_embedding row, c_embedded_at row).

(** The row a conflict leaves: the stored row with the written columns of
    the proposed one. *)
Definition overwritten (old new : StoredChunk) : StoredChunk :=
  {| c_id := c_id old; c_repo_id := c_repo_id old; c_file_path := c_file_path old;
     c_language := c_language old; c_content := c_content new;
     c_start_line := c_start_line old; c_end_line := c_end_line old;
     c_symbol_name := c_symbol_name old; c_chunk_index := c_chunk_index old;
     c_embedding := c_embedding new; c_embedded_at := c_embedded_at new |}.

(** What one proposed row does to the slot of key [k]. *)
Definition slotStep (upsert : bool) (k : string) (slot : option StoredChunk)
           (e : EmbeddedChunk) : option StoredChunk :=
  if String.eqb (id (chunk e)) k
  then match slot with
       | None => Some (rowOf e)
       | Some old => Some (if upsert then overwritten old (rowOf e) else old)
       end
  else slot.

(** The written columns the slot of key [k] ends with, from [w] on. *)
Definition lastWritten (k : string) (embedded : list EmbeddedChunk)
           (w : string * string * Z) : string * string * Z :=
  fold_left (fun w e => if String.eqb (id (chunk e)) k
                        then writtenColumns (rowOf e) else w) embedded w.

(** A chunk row and an index row of another repository, [p/q], and a store
    that holds them beside one chunk of [o/r]. *)
Definition foreignChunkRow : StoredChunk :=
  {| c_id := "p_q__x_md__L1"; c_repo_id := "p/q"; c_file_path := "x.md";
     c_language := "text"; c_content := sampleReadme; c_start_line := 1;
     c_end_line := 3; c_symbol_name := None; c_chunk_index := 0;
     c_embedding := "[1,0]"; c_embedded_at := 500 |}.

Definition foreignIndexRow : RepoIndex :=
  {| r_repoId := "p/q"; r_commitHash := Some "fff"; r_defaultBranch := "main";
     r_sizeKB := 3; r_fileCount := 1; r_chunkCount := 1;
     r_embeddingModel := "text-embedding-004"; r_updatedAt := 500 |}.

Definition sharedDb : Db :=
  {| code_chunks := {[ "p_q__x_md__L1" := foreignChunkRow;
                       "o_r__README_md__L46" := rowOf otherEmbedded ]};
     repo_index := {[ "p/q" := foreignIndexRow; "o/r" := sampleRow ]} |}.

(** The chunks go out in one [INSERT] statement, and it proposes no id
    twice (a statement with [ON CONFLICT ... DO UPDATE] may not touch a row
    a second time). *)
Definition oneStatement (embedded : list EmbeddedChunk) : Prop :=
  length embedded <= INSERT_BATCH_SIZE /\ List.NoDup (idsOf embedded).

(** A [RepoIndex] row with another [updatedAt]. *)
Definition touchedAt (now : Z) (row : RepoIndex) : RepoIndex :=
  {| r_repoId := r_repoId row; r_commitHash := r_commitHash row;
     r_defaultBranch := r_defaultBranch row; r_sizeKB := r_sizeKB row;
     r_fileCount := r_fileCount row; r_chunkCount := r_chunkCount row;
     r_embeddingModel := r_embeddingModel row; r_updatedAt := now |}.

End StoreTerms.

(** ** Further vocabulary: what the assembler writes *)

Section AssemblerTerms.
Import ContextAssembler.
Variable jsLength : string -> nat.

(** The characters the numbered blocks add to the budget. *)
Definition sizeOf (cited : list Numbered) : nat :=
  fold_right (fun nc sum => jsLength (renderChunk nc) + sum) 0 cited.

(** The chunks of one file that get a block, numbered from [idx], when
    [total] characters were written before. *)
Fixpoint takeWithin (fileChunks : list RetrievedChunk) (idx total : nat)
  : list Numbered :=
  match fileChunks with
  | [] => []
  | chunk :: rest =>
      if (MAX_CONTEXT_CHARS <? total)%nat then []
      else (idx, chunk)
             :: takeWithin rest (idx + 1) (total + jsLength (renderChunk (idx, chunk)))
  end.

(** The files of the context section with their numbered blocks. *)
Fixpoint traceFiles (groups : list (string * list RetrievedChunk)) (idx total : nat)
  : list (string * list Numbered) :=
  match groups with
  | [] => []
  | (filePath, fileChunks) :: rest =>
      let cited := takeWithin fileChunks idx total in
      (filePath, cited) :: traceFiles rest (idx + length cited) (total + sizeOf cited)
  end.

(** The map the numbered blocks are recorded in. *)
Definition recordAll (cited : list Numbered) (m : gmap string Citation)
  : gmap string Citation :=
  fold_left (fun m nc => <[citationKey nc.1 := citationOf nc.2]> m) cited m.

End AssemblerTerms.

(** The files and numbered blocks [assembleContext] writes for a list of
    retrieved chunks (none when grouping throws). *)
Definition blocksOf (jsLength : string -> nat)
           (chunks : list ContextAssembler.RetrievedChunk)
  : list (string * list Numbered) :=
  match ContextAssembler.groupByFile chunks with
  | Some grouped => traceFiles jsLength (ContextAssembler.entries grouped) 1 0
  | None => []
  end.

(** All numbered blocks of the context section, in the order of the
    prompt. *)
Definition flatBlocks (blocks : list (string * list Numbered)) : list Numbered :=
  concat (map snd blocks).

(** The chunks held by the groups of [groupByFile], in order. *)
Definition members (g : list (string * list ContextAssembler.RetrievedChunk))
  : list ContextAssembler.RetrievedChunk :=
  concat (map snd g).

(** Groups with one entry per key, each holding chunks of that path. *)
Definition wellGrouped (g : list (string * list ContextAssembler.RetrievedChunk)) : Prop :=
  List.NoDup (map fst g)
  /\ Forall (fun kv : string * list ContextAssembler.RetrievedChunk =>
               Forall (fun c => ContextAssembler.filePath c = kv.1) kv.2) g.

(** The strings of [l] that are not in [seen], in order of first
    appearance, after those of [seen]. *)
Fixpoint firstSeen (seen l : list string) : list string :=
  match l with
  | [] => seen
  | x :: rest =>
      firstSeen (if existsb (String.eqb x) seen then seen else (seen ++ [x])%list) rest
  end.

(** Start lines in ascending order. *)
Fixpoint ascending (l : list nat) : Prop :=
  match l with
  | [] => True
  | x :: rest =>
      match rest with
      | [] => True
      | y :: _ => x <= y /\ ascending rest
      end
  end.

(** ** Further vocabulary: statements and their parameters *)

Section StatementTerms.
Import VectorStoreWriter.InsertStatement.

(** The placeholders of the statement are those of the parameters passed
    with it: [$1], ..., [$k] for [k] parameters. *)
Definition wellNumbered (st : Statement) : Prop :=
  placeholders st = seq 1 (length (arguments st)).

End StatementTerms.

(** ** Further vocabulary: runs of the job *)

Section JobTerms.
Import AstChunker FileFilter GithubFetcher VectorStoreWriter IndexRepoJob.

Definition isWrite (e : Event) : bool :=
  match e with
  | WriteToVectorStore _ => true
  | _ => false
  end.

(** The repository the job writes for. *)
Definition storeKey (owner repo : string) : string := owner ++ "/" ++ repo.

(** A repository with a three-line README, an embedder that answers, and
    a head commit [abc]. *)
Definition readmeText : string :=
  "# OpenQuest" ++ String "010"%char "Find issues." ++ String "010"%char "Start here.".

Definition readmeServices : Services :=
  {| repos_get := fun _ _ _ => Ok {| default_branch := "main"; size := 1 |};
     fetchLatestCommitHash := fun _ _ _ _ => Some "abc";
     fetchRepository := fun _ _ =>
       Ok {| files := [ {| path := "README.md"; FileFilter.content := readmeText;
                           sizeBytes := 36 |};
                        {| path := "yarn.lock"; FileFilter.content := "# lock file";
                           sizeBytes := 11 |} ];
             meta := {| GithubFetcher.owner := "o"; GithubFetcher.repo := "r";
                        defaultBranch := "main"; sizeKB := 1; fileCount := 2;
                        usedFallback := false |} |};
     embedChunks := fun cs =>
       Ok {| embedded := map (fun c => {| chunk := c; embedding := "[0.6,0.8]";
                                          embeddedAt := 1000 |}) cs;
             model := "text-embedding-004" |};
     clientError := fun _ => "Raw query failed";
     clock := 2000 |}.

(** The options the job passes to [writeToVectorStore]. *)
Definition jobOptions (svc : Services) (data : IndexRepoJobData)
           (owner repo : string) (repoData : RepoData)
           (out : IngestionOutput) (er : EmbeddingResult) : WriteOptions :=
  {| repoMeta := {| GithubFetcher.owner := owner;
                    GithubFetcher.repo := repo;
                    defaultBranch := default_branch repoData;
                    sizeKB := size repoData;
                    fileCount := filesAccepted (stats out);
                    usedFallback := usedCloneFallback (stats out) |};
     commitHash := fetchLatestCommitHash svc owner repo (default_branch repoData)
                     (githubToken data);
     embeddingModel := model er |}.

(** The calls of a run up to the start of ingestion. *)
Definition preamble (data : IndexRepoJobData) (owner repo : string)
           (repoData : RepoData) : list Event :=
  [ UpdateProgress 5; ReposGet owner repo;
    FetchLatestCommitHash owner repo (default_branch repoData);
    UpdateProgress 10; RunIngestionPipeline (githubUrl data) ].

(** The world of a run that made [events] and left the store alone. *)
Definition logged (w : World) (events : list Event) : World :=
  {| db := db w; log := (log w ++ events)%list |}.

(** The run meets the error [e] before it reaches the writer: at the URL,
    at the repository lookup, in the pipeline, or in the embedder. *)
Definition failsBeforeWrite (svc : Services) (data : IndexRepoJobData) (e : string)
  : Prop :=
  parseGitHubUrl (githubUrl data) = Throw e
  \/ exists owner repo,
      parseGitHubUrl (githubUrl data) = Ok (owner, repo)
      /\ (repos_get svc owner repo (githubToken data) = Throw e
          \/ exists repoData,
              repos_get svc owner repo (githubToken data) = Ok repoData
              /\ (runIngestionPipeline svc (githubUrl data) (githubToken data) = Throw e
                  \/ exists out,
                      runIngestionPipeline svc (githubUrl data) (githubToken data) = Ok out
                      /\ o_chunks out <> []
                      /\ embedChunks svc (o_chunks out) = Throw e)).

Definition badUrlJob : IndexRepoJobData :=
  {| githubUrl := "not-a-url"; githubToken := None; requestedBy := None |}.

Definition freshWorld : World := {| db := emptyDb; log := [] |}.

End JobTerms.

(** ** Further vocabulary: parts of a URL *)

Section UrlTerms.
Import Regex GithubFetcher.

(** Every character of the string passes the test. *)
Fixpoint everyChar (p : ascii -> bool) (s : string) : bool :=
  match s with
  | EmptyString => true
  | String a s' => p a && everyChar p s'
  end.

(** The URL after the two replacements of [parseGitHubUrl]. *)
Definition cleanedUrl (url : string) : string :=
  remove_first TREE_RE (remove_first DOT_GIT_RE url).

(** A path segment: not empty, no slash. *)
Definition isSegment (s : string) : Prop :=
  s <> "" /\ Js.includes "/"%char s = false.

(** [s.endsWith(suffix)]. *)
Definition endsWith (suffix s : string) : bool :=
  (String.length suffix <=? String.length s)%nat
  && String.eqb (substring (String.length s - String.length suffix)
                           (String.length suffix) s) suffix.

(** A character of a ref: ASCII, and no line break, so that [.] takes
    it. *)
Definition refChar (a : ascii) : bool :=
  Regex.dot a && (nat_of_ascii a <? 128)%nat.

(** The address of a repository page. *)
Definition plainUrl (owner repo : string) : string :=
  "https://github.com/" ++ owner ++ "/" ++ repo.

End UrlTerms.

(** ** Further vocabulary: the five rules as the specification words them *)

Section FilterSpecTerms.
Import FileFilter.

(** An entry of a denylist: a name, or a pattern with a star at one end. *)
Inductive Entry : Type :=
| Name : string -> Entry          (* [node_modules] *)
| Beginning : string -> Entry     (* [.eslintrc*] *)
| Ending : string -> Entry.       (* [*.egg-info] *)

Definition listed (e : Entry) (s : string) : bool :=
  match e with
  | Name name => String.eqb name s
  | Beginning prefix => startsWith prefix s
  | Ending suffix => endsWith suffix s
  end.

Definition onList (l : list Entry) (s : string) : bool :=
  existsb (fun e => listed e s) l.

(** The directory denylist of rule 1. *)
Definition directoryDenylist : list Entry :=
  [ Name "node_modules"; Name "dist"; Name "build"; Name "out"; Name ".next";
    Name ".nuxt"; Name ".output"; Name ".cache"; Name "__pycache__";
    Name ".pytest_cache"; Ending ".egg-info"; Name "vendor"; Name "venv";
    Name ".venv"; Name "env"; Name "__pypackages__"; Name ".git"; Name ".svn";
    Name ".hg"; Name ".idea"; Name ".vscode"; Name "coverage"; Name ".nyc_output";
    Name "htmlcov"; Name "tmp"; Name "temp"; Name "logs"; Name ".pnp" ].

(** The filename denylist of rule 2, with its two patterns. *)
Definition filenameDenylist : list Entry :=
  [ Name "package-lock.json"; Name "yarn.lock"; Name "pnpm-lock.yaml";
    Name "poetry.lock"; Name "Pipfile.lock"; Name "composer.lock";
    Name ".DS_Store"; Name "Thumbs.db";
    Name ".env"; Name ".env.local"; Name ".env.production";
    Name ".gitignore"; Name ".gitattributes"; Name ".editorconfig";
    Name ".prettierrc"; Beginning ".eslintrc";
    Beginning "jest.config."; Name "vitest.config.ts" ].

(** The same list with names in place of the two patterns: three of the
    [.eslintrc] family and two of the [jest.config] family. *)
Definition filenameDenylistByName : list Entry :=
  [ Name "package-lock.json"; Name "yarn.lock"; Name "pnpm-lock.yaml";
    Name "poetry.lock"; Name "Pipfile.lock"; Name "composer.lock";
    Name ".DS_Store"; Name "Thumbs.db";
    Name ".env"; Name ".env.local"; Name ".env.production";
    Name ".gitignore"; Name ".gitattributes"; Name ".editorconfig";
    Name ".prettierrc"; Name ".eslintrc"; Name ".eslintrc.js"; Name ".eslintrc.json";
    Name "jest.config.js"; Name "jest.config.ts"; Name "vitest.config.ts" ].

(** The extension allowlist of rule 3. *)
Definition extensionAllowlist : list string :=
  [ ".ts"; ".tsx"; ".js"; ".jsx"; ".mjs"; ".cjs"; ".py"; ".md"; ".mdx"; ".json";
    ".yaml"; ".yml"; ".toml" ].

(** A path read from left to right: the directories it goes through, a
    slash closing each, and the basename that is left at the end.  [cur] is
    the part read since the last slash. *)
Fixpoint readPath (cur path : string) : list string * string :=
  match path with
  | EmptyString => ([], cur)
  | String a rest =>
      if Ascii.eqb a "/"%char
      then let '(directories, basename) := readPath "" rest in
           (cur :: directories, basename)
      else readPath (cur ++ String a "") rest
  end.

Definition directoriesOf (path : string) : list string := (readPath "" path).1.
Definition basenameOf (path : string) : string := (readPath "" path).2.

(** The text after the last dot of a name, when it has a dot. *)
Fixpoint afterLastDot (name : string) : option string :=
  match name with
  | EmptyString => None
  | String a rest =>
      match afterLastDot rest with
      | Some tail => Some tail
      | None => if Ascii.eqb a "."%char then Some rest else None
      end
  end.

(** The extension of a name: its last dot and what follows, in lower case;
    empty for a name without a dot. *)
Definition extensionOf (name : string) : string :=
  match afterLastDot name with
  | Some tail => "." ++ Js.toLowerCase tail
  | None => ""
  end.

(** Rule [r] for a file, the filename denylist being read as [filenames]. *)
Definition ruleHolds (filenames : list Entry) (r : Rule) (f : RawFile) : bool :=
  match r with
  | NoIgnoredDirectory =>
      forallb (fun d => negb (onList directoryDenylist d)) (directoriesOf (path f))
  | NotIgnoredFilename => negb (onList filenames (basenameOf (path f)))
  | SupportedExtension =>
      existsb (String.eqb (extensionOf (basenameOf (path f)))) extensionAllowlist
  | SizeInRange => (10 <=? sizeBytes f)%Z && (sizeBytes f <=? 512000)%Z
  | NoNulByte => negb (Js.includes "000"%char (content f))
  end.

Definition fiveRules (filenames : list Entry) (f : RawFile) : bool :=
  forallb (fun r => ruleHolds filenames r f) rulesInOrder.

(** The first of the five rules, in their order, that the file breaks. *)
Definition firstBroken (filenames : list Entry) (f : RawFile) : option Rule :=
  find (fun r => negb (ruleHolds filenames r f)) rulesInOrder.

(** A file none of whose directories has a name that ends in
    [.egg-info]. *)
Definition outsideEggInfo (f : RawFile) : Prop :=
  forallb (fun d => negb (endsWith ".egg-info" d)) (directoriesOf (path f)) = true.

(** A linter configuration in YAML, a test configuration in the module
    format, and a data file of a Python package's metadata directory. *)
Definition eslintrcYml : RawFile :=
  {| path := ".eslintrc.yml"; content := "root: true"; sizeBytes := 10 |}.

Definition jestConfigMjs : RawFile :=
  {| path := "jest.config.mjs"; content := "export default {};"; sizeBytes := 18 |}.

Definition eggInfoFile : RawFile :=
  {| path := "pkg.egg-info/meta.json"; content := "[1, 2, 3, 4]"; sizeBytes := 12 |}.

End FilterSpecTerms.

(** ** Further vocabulary: a small repository behind the client *)

Section FetchTerms.
Import FileFilter GithubFetcher IndexRepoJob RepoFetch.

(** A tree with a README, a script under [dist], a folder and a blob that
    cannot be fetched. *)
Definition sampleTree : list TreeItem :=
  [ {| t_path := Some "README.md"; t_sha := Some "a1"; t_size := Some 36%Z;
       t_type := Some "blob" |};
    {| t_path := Some "dist/main.js"; t_sha := Some "b2"; t_size := Some 90%Z;
       t_type := Some "blob" |};
    {| t_path := Some "src"; t_sha := Some "c3"; t_size := None;
       t_type := Some "tree" |};
    {| t_path := Some "src/lost.ts"; t_sha := Some "d4"; t_size := Some 50%Z;
       t_type := Some "blob" |} ].

Definition samplePlatform : Platform :=
  {| octokit_repos_get := fun _ _ _ => Ok {| default_branch := "main"; size := 1 |};
     octokit_git_getTree := fun _ _ _ _ => Ok (Some sampleTree);
     octokit_git_getBlob := fun _ _ _ sha =>
       if bool_decide (sha = Some "a1") then Ok readmeText
       else Throw "Not Found";
     fetchViaClone := fun _ _ => Throw "clone not available";
     byteLength := fun s => Z.of_nat (String.length s);
     env_GITHUB_TOKEN := None |}.

End FetchTerms.

(** * Properties *)

(** ** The matcher *)

Section Matcher.
Import Regex.
Context {R : Type}.

Local Abbreviation cont := (nat -> string -> caps -> option R).

(** The matcher calls its continuation only further right in the same
    input: two continuations that agree there give the same result. *)
Lemma exec_ext (r : regex) :
  forall pos s cs (k1 k2 : cont),
    (forall pos' s' cs',
        pos' + String.length s' = pos + String.length s -> pos <= pos' ->
        k1 pos' s' cs' = k2 pos' s' cs') ->
    exec r pos s cs k1 = exec r pos s cs k2.
Proof.
  induction r as [|p|r1 IH1 r2 IH2|r1 IH1 r2 IH2|r1 IH1|n r1 IH1| |];
    intros pos s cs k1 k2 H; cbn [exec].
  - apply H; lia.
  - destruct s as [|a s']; [reflexivity|].
    destruct (p a); [|reflexivity]. apply H; cbn [String.length]; lia.
  - apply IH1. intros pos' s' cs' Hlen Hle.
    apply IH2. intros pos'' s'' cs'' Hlen' Hle'. apply H; lia.
  - rewrite (IH1 pos s cs k1 k2 H), (IH2 pos s cs k1 k2 H). reflexivity.
  - generalize (String.length s). intros fuel.
    revert pos s cs H. induction fuel as [|fuel IHf]; intros pos s cs H;
      cbn [star_loop].
    + apply H; lia.
    + rewrite (H pos s cs) by lia.
      erewrite IH1; [reflexivity|].
      intros pos' s' cs' Hlen Hle. cbn beta.
      destruct (pos <? pos')%nat; [|reflexivity].
      apply IHf. intros pos'' s'' cs'' Hlen' Hle'. apply H; lia.
  - apply IH1. intros pos' s' cs' Hlen Hle. apply H; lia.
  - destruct (pos =? 0)%nat; [|reflexivity]. apply H; lia.
  - destruct s; [|reflexivity]. apply H; lia.
Qed.

Lemma exec_fail (r : regex) :
  forall pos s cs, exec r pos s cs (fun _ _ _ => @None R) = None.
Proof.
  induction r as [|p|r1 IH1 r2 IH2|r1 IH1 r2 IH2|r1 IH1|n r1 IH1| |];
    intros pos s cs; cbn [exec].
  - reflexivity.
  - destruct s as [|a s']; [reflexivity|]. destruct (p a); reflexivity.
  - transitivity (exec r1 pos s cs (fun _ _ _ => @None R)); [|apply IH1].
    apply exec_ext. intros. apply IH2.
  - rewrite IH1. apply IH2.
  - generalize (String.length s). intros fuel. revert pos s cs.
    induction fuel as [|fuel IHf]; intros pos s cs; cbn [star_loop]; [reflexivity|].
    erewrite exec_ext; [rewrite IH1; reflexivity|].
    intros pos' s' cs' _ _. cbn beta. destruct (pos <? pos')%nat; [apply IHf|reflexivity].
  - apply IH1.
  - destruct (pos =? 0)%nat; reflexivity.
  - destruct s; reflexivity.
Qed.

(** One more iteration of [r*] is tried only if input is left: the fuel
    given to [star_loop] is never what stops it. *)
Lemma star_loop_fuel (r : regex) (k : cont) :
  forall f1 f2 pos s cs,
    String.length s <= f1 -> String.length s <= f2 ->
    star_loop (exec r) k f1 pos s cs = star_loop (exec r) k f2 pos s cs.
Proof.
  assert (Hstep : forall f pos s cs,
             String.length s = 0 -> star_loop (exec r) k f pos s cs = k pos s cs).
  { intros [|f] pos s cs Hs; cbn [star_loop]; [reflexivity|].
    erewrite exec_ext; [rewrite exec_fail; reflexivity|].
    intros pos' s' cs' Hlen Hle. cbn beta.
    destruct (Nat.ltb_spec pos pos'); [lia|reflexivity]. }
  induction f1 as [|f1 IH]; intros f2 pos s cs H1 H2.
  - rewrite !Hstep by lia. reflexivity.
  - destruct f2 as [|f2]; [rewrite !Hstep by lia; reflexivity|].
    cbn [star_loop]. erewrite exec_ext; [reflexivity|].
    intros pos' s' cs' Hlen Hle. cbn beta.
    destruct (Nat.ltb_spec pos pos'); [|reflexivity].
    apply IH; lia.
Qed.

End Matcher.

(** The declarations listed in the comment above [TS_SYMBOL_START_RE], and
    two Python ones. *)
Example TS_SYMBOL_START_RE_samples :
  map (fun line => Regex.m_caps <$> Regex.search AstChunker.TS_SYMBOL_START_RE line)
      [ "export function foo() { ... }";
        "export const foo = () => { ... }";
        "export class Foo { ... }";
        "export default function() { ... }";
        "async function foo() { ... }";
        "  function indented() {}" ]
  = [ Some [(1, "foo")]; Some [(3, "foo")]; Some [(2, "Foo")]; None;
      Some [(1, "foo")]; None ].
Proof. vm_compute. reflexivity. Qed.

Example PY_SYMBOL_START_RE_samples :
  map (fun line => Regex.m_caps <$> Regex.search AstChunker.PY_SYMBOL_START_RE line)
      [ "async def fetch(url):"; "class Model:"; "    def method(self):" ]
  = [ Some [(1, "fetch")]; Some [(1, "Model")]; None ].
Proof. vm_compute. reflexivity. Qed.

(** ** Lists and loops *)

Section LoopFacts.
Import AstChunker.

Lemma slice_length {A} (l : list A) (a b : nat) :
  length (Js.slice l a b) = Nat.min (b - a) (length l - a).
Proof. unfold Js.slice. rewrite length_take, length_drop. reflexivity. Qed.

(** The window loop ends by itself: any fuel that covers the remaining
    lines gives the same chunks. *)
Lemma slidingWindowLoop_fuel repoId filePath lines language :
  forall f1 f2 i n,
    length lines <= f1 + i -> length lines <= f2 + i ->
    slidingWindowLoop f1 repoId filePath lines language i n
    = slidingWindowLoop f2 repoId filePath lines language i n.
Proof.
  induction f1 as [|f1 IH]; intros f2 i n H1 H2.
  - destruct f2 as [|f2]; simpl; [reflexivity|].
    destruct (Nat.ltb_spec i (length lines)); [lia|reflexivity].
  - destruct f2 as [|f2]; cbn [slidingWindowLoop].
    + destruct (Nat.ltb_spec i (length lines)); [lia|reflexivity].
    + destruct (Nat.ltb_spec i (length lines)); [|reflexivity].
      unfold SLIDING_WINDOW_SIZE, SLIDING_WINDOW_OVERLAP.
      repeat case_match; try reflexivity;
        first [ apply IH; lia | f_equal; apply IH; lia ].
Qed.

Lemma splitLoop_fuel repoId filePath language chunkLines b name base :
  forall f1 f2 i n,
    length chunkLines <= f1 + i -> length chunkLines <= f2 + i ->
    splitLoop f1 repoId filePath language chunkLines b name base i n
    = splitLoop f2 repoId filePath language chunkLines b name base i n.
Proof.
  induction f1 as [|f1 IH]; intros f2 i n H1 H2.
  - destruct f2 as [|f2]; simpl; [reflexivity|].
    destruct (Nat.ltb_spec i (length chunkLines)); [lia|reflexivity].
  - destruct f2 as [|f2]; cbn [splitLoop].
    + destruct (Nat.ltb_spec i (length chunkLines)); [lia|reflexivity].
    + destruct (Nat.ltb_spec i (length chunkLines)); [|reflexivity].
      unfold MAX_CHUNK_LINES, SLIDING_WINDOW_OVERLAP.
      repeat case_match; try reflexivity;
        first [ apply IH; lia | f_equal; apply IH; lia ].
Qed.

End LoopFacts.

(** ** Chunk sizes *)

Section ChunkSizes.
Import AstChunker.

Lemma slidingWindowLoop_bounds repoId filePath lines language c :
  forall fuel i n,
    In c (slidingWindowLoop fuel repoId filePath lines language i n) ->
    sizeInBounds c.
Proof.
  induction fuel as [|fuel IH]; intros i n Hin; simpl in Hin; [contradiction|].
  destruct (Nat.ltb_spec i (length lines)) as [Hi|Hi]; [|contradiction].
  rewrite slice_length in Hin.
  unfold SLIDING_WINDOW_SIZE, SLIDING_WINDOW_OVERLAP, MIN_CHUNK_LINES in Hin.
  destruct (Nat.ltb_spec (Nat.min (Nat.min (i + 60) (length lines) - i) (length lines - i)) 3)
    as [Hs|Hs].
  - eapply IH, Hin.
  - assert (Hc : forall c', c' = c ->
              startLine c' = i + 1 ->
              endLine c' = Nat.min (i + 60) (length lines) -> sizeInBounds c).
    { intros c' <- Hst Hen. unfold sizeInBounds. rewrite Hst, Hen. lia. }
    destruct (Nat.leb_spec (length lines) (Nat.min (i + 60) (length lines))).
    + destruct Hin as [Hin|[]]. eapply Hc; [exact Hin|reflexivity..].
    + destruct Hin as [Hin|Hin]; [eapply Hc; [exact Hin|reflexivity..]|].
      eapply IH, Hin.
Qed.

Lemma splitLoop_bounds repoId filePath language chunkLines b name base c :
  forall fuel i n,
    In c (splitLoop fuel repoId filePath language chunkLines b name base i n) ->
    sizeInBounds c.
Proof.
  induction fuel as [|fuel IH]; intros i n Hin; simpl in Hin; [contradiction|].
  destruct (Nat.ltb_spec i (length chunkLines)) as [Hi|Hi]; [|contradiction].
  rewrite !slice_length in Hin.
  unfold MAX_CHUNK_LINES, SLIDING_WINDOW_OVERLAP, MIN_CHUNK_LINES in Hin.
  destruct (Nat.ltb_spec (Nat.min (i + 150 - i) (length chunkLines - i)) 3) as [Hs|Hs];
    [contradiction|].
  assert (Hc : forall c', c' = c ->
            startLine c' = b + i ->
            endLine c' = b + i + Nat.min (i + 150 - i) (length chunkLines - i) - 1 ->
            sizeInBounds c).
  { intros c' <- Hst Hen. unfold sizeInBounds. rewrite Hst, Hen. lia. }
  destruct (Nat.leb_spec (length chunkLines) (i + 150)).
  - destruct Hin as [Hin|[]]. eapply Hc; [exact Hin|reflexivity..].
  - destruct Hin as [Hin|Hin]; [eapply Hc; [exact Hin|reflexivity..]|].
    eapply IH, Hin.
Qed.

Lemma splitIfTooLarge_bounds repoId filePath language chunkLines b name base c :
  In c (splitIfTooLarge repoId filePath language chunkLines b name base) ->
  sizeInBounds c.
Proof.
  unfold splitIfTooLarge, MIN_CHUNK_LINES, MAX_CHUNK_LINES.
  destruct (Nat.ltb_spec (length chunkLines) 3); [contradiction|].
  destruct (Nat.leb_spec (length chunkLines) 150).
  - intros [<-|[]]. unfold sizeInBounds. simpl. lia.
  - apply splitLoop_bounds.
Qed.

Lemma chunkSymbols_bounds repoId filePath language lines c :
  forall bs i,
    In c (chunkSymbols repoId filePath language lines bs i) -> sizeInBounds c.
Proof.
  induction bs as [|bd bs IH]; intros i Hin; simpl in Hin; [contradiction|].
  apply in_app_or in Hin as [Hin|Hin].
  - eapply splitIfTooLarge_bounds, Hin.
  - eapply IH, Hin.
Qed.

(** C2.  Every chunk that [chunkFile] emits, whichever strategy produced
    it (symbol blocks, their sub-chunks, or sliding windows), spans between
    3 and 150 lines: [3 <= endLine - startLine + 1 <= 150]. *)
Theorem chunkFile_chunk_size_bounds (repoId filePath content : string) (c : CodeChunk) :
  In c (chunks (chunkFile repoId filePath content)) ->
  (3 <= Z.of_nat (endLine c) - Z.of_nat (startLine c) + 1 <= 150)%Z.
Proof.
  unfold chunkFile.
  set (ext := Js.toLowerCase (NodePath.extname filePath)).
  set (lines := Js.split "010"%char content).
  assert (Hsw : forall lang, In c (slidingWindowChunk repoId filePath lines lang) ->
                             sizeInBounds c).
  { intros lang. apply slidingWindowLoop_bounds. }
  assert (Hsym : forall lang re,
             In c (chunkSymbols repoId filePath lang lines
                     (detectSymbolBoundaries lines re) 0) -> sizeInBounds c).
  { intros lang re. apply chunkSymbols_bounds. }
  destruct (isScriptExt ext); [|destruct (String.eqb ext ".py")].
  - destruct (chunkTypeScript repoId filePath lines) eqn:E; cbn [chunks].
    + apply Hsw.
    + rewrite <- E. apply Hsym.
  - destruct (chunkPython repoId filePath lines) eqn:E; cbn [chunks].
    + apply Hsw.
    + rewrite <- E. apply Hsym.
  - destruct (slidingWindowChunk repoId filePath lines "text") eqn:E; cbn [chunks].
    + apply Hsw.
    + rewrite <- E. apply Hsw.
Qed.

End ChunkSizes.

Lemma chunkFile_chunk_size_bounds_witness :
  In sampleReadmeChunk (AstChunker.chunks (AstChunker.chunkFile "o/r" "README.md" sampleReadme))
  /\ (3 <= Z.of_nat 3 - Z.of_nat 1 + 1 <= 150)%Z.
Proof.
  assert (H : In sampleReadmeChunk
                (AstChunker.chunks (AstChunker.chunkFile "o/r" "README.md" sampleReadme))).
  { vm_compute. left. reflexivity. }
  split; [exact H|].
  exact (chunkFile_chunk_size_bounds "o/r" "README.md" sampleReadme sampleReadmeChunk H).
Defined.

(** ** Chunk indices *)

Section ChunkIndices.
Import AstChunker.

(** The sliding-window path numbers its chunks by position. *)
Lemma slidingWindowLoop_chunkIndex repoId filePath lines language :
  forall fuel i n k c,
    nth_error (slidingWindowLoop fuel repoId filePath lines language i n) k = Some c ->
    chunkIndex c = n + k.
Proof.
  induction fuel as [|fuel IH]; intros i n k c Hk; cbn [slidingWindowLoop] in Hk.
  { destruct k; discriminate. }
  repeat case_match; try (destruct k; discriminate).
  - eapply IH in Hk. lia.
  - destruct k as [|[|k]]; simpl in Hk; try discriminate.
    injection Hk as <-. simpl. lia.
  - destruct k as [|k]; simpl in Hk.
    + injection Hk as <-. simpl. lia.
    + eapply IH in Hk. lia.
Qed.

Lemma slidingWindowChunk_chunkIndex repoId filePath lines language k c :
  nth_error (slidingWindowChunk repoId filePath lines language) k = Some c ->
  chunkIndex c = k.
Proof. intros H. apply slidingWindowLoop_chunkIndex in H. exact H. Qed.

(** C5.  The i-th chunk emitted for a file should carry [chunkIndex = i].
    The symbol-aware path numbers chunks by symbol instead: after a skipped
    one-line block the first emitted chunk carries index 1, and after a
    block split in two parts the next symbol repeats index 1. *)
Theorem chunkFile_chunkIndex_by_symbol :
  map chunkIndex (chunks (chunkFile "o/r" "src/a.ts" shortThenLong)) = [1]
  /\ map chunkIndex (chunks (chunkFile "o/r" "src/a.ts" longThenShort)) = [0; 1; 1]
  /\ map startLine (chunks (chunkFile "o/r" "src/a.ts" longThenShort)) = [1; 136; 152].
Proof. vm_compute. repeat split; reflexivity. Qed.

End ChunkIndices.

(** ** Language tags *)

Section LanguageTags.
Import AstChunker.

Lemma slidingWindowLoop_language repoId filePath lines language c :
  forall fuel i n,
    In c (slidingWindowLoop fuel repoId filePath lines language i n) ->
    AstChunker.language c = language.
Proof.
  induction fuel as [|fuel IH]; intros i n Hin; cbn [slidingWindowLoop] in Hin;
    [contradiction|].
  repeat case_match; try contradiction.
  - eapply IH, Hin.
  - destruct Hin as [<-|[]]. reflexivity.
  - destruct Hin as [<-|Hin]; [reflexivity|]. eapply IH, Hin.
Qed.

(** Whether a window is emitted does not depend on the tag it is given. *)
Lemma slidingWindowLoop_nil repoId filePath lines l1 l2 :
  forall fuel i n,
    slidingWindowLoop fuel repoId filePath lines l1 i n = [] ->
    slidingWindowLoop fuel repoId filePath lines l2 i n = [].
Proof.
  induction fuel as [|fuel IH]; intros i n H; cbn [slidingWindowLoop] in *;
    [reflexivity|].
  repeat case_match; try discriminate; try reflexivity.
  eapply IH, H.
Qed.

(** Files that are not dispatched to a symbol-aware chunker get chunks
    tagged ["text"], whatever [detectLanguage] says of their extension. *)
Lemma chunkFile_other_extensions_text repoId filePath content c :
  let ext := Js.toLowerCase (NodePath.extname filePath) in
  isScriptExt ext = false ->
  String.eqb ext ".py" = false ->
  In c (chunks (chunkFile repoId filePath content)) ->
  language c = "text".
Proof.
  intros ext Hs Hp. unfold chunkFile. fold ext. rewrite Hs, Hp.
  destruct (slidingWindowChunk repoId filePath (Js.split "010"%char content) "text")
    eqn:E; cbn [chunks].
  - unfold slidingWindowChunk in *.
    rewrite (slidingWindowLoop_nil _ _ _ "text" (detectLanguage ext) _ _ _ E).
    contradiction.
  - rewrite <- E. apply slidingWindowLoop_language.
Qed.

(** C4.  The extension map sends [.md] to [markdown], [.json] to [json],
    [.yaml] to [yaml] and [.toml] to [toml], and the chunks of such files
    should carry that tag.  They carry ["text"]: the dispatcher passes the
    literal to the window chunker, and the map is consulted only when no
    chunk was produced. *)
Theorem chunkFile_markdown_tagged_text :
  detectLanguage ".md" = "markdown"
  /\ map language (chunks (chunkFile "o/r" "README.md" sampleReadme)) = ["text"]
  /\ map language (chunks (chunkFile "o/r" "config/app.json" sampleReadme)) = ["text"]
  /\ map language (chunks (chunkFile "o/r" "ci.yaml" sampleReadme)) = ["text"]
  /\ map language (chunks (chunkFile "o/r" "pyproject.toml" sampleReadme)) = ["text"].
Proof. vm_compute. repeat split; reflexivity. Qed.

End LanguageTags.

(** ** Chunk ids *)

Section ChunkIds.
Import AstChunker.

Lemma string_app_inv_head (p s1 s2 : string) : p ++ s1 = p ++ s2 -> s1 = s2.
Proof.
  induction p as [|a p IH]; simpl; [tauto|].
  intros H. injection H as H. exact (IH H).
Qed.

(** Within one file the id determines the start line. *)
Lemma makeChunkId_startLine_inj repoId filePath l1 l2 :
  makeChunkId repoId filePath l1 = makeChunkId repoId filePath l2 -> l1 = l2.
Proof.
  unfold makeChunkId. intros H.
  do 4 apply string_app_inv_head in H.
  exact (pretty_nat_inj _ _ H).
Qed.

(** C6.  Ids are a function of [(repoId, filePath, startLine)], and are
    meant to tell apart the chunks of a repository.  Two paths that differ
    only in characters outside [a-zA-Z0-9] get the same id: the chunks of
    [a/b.md] and [a_b.md], both starting at line 1, collide. *)
Theorem makeChunkId_collision :
  "a/b.md" <> "a_b.md"
  /\ makeChunkId "o/r" "a/b.md" 1 = makeChunkId "o/r" "a_b.md" 1
  /\ map (fun c => (filePath c, startLine c, id c))
         (chunkFiles "o/r" [("a/b.md", sampleReadme); ("a_b.md", sampleReadme)])
     = [ ("a/b.md", 1, "o_r__a_b_md__L1"); ("a_b.md", 1, "o_r__a_b_md__L1") ].
Proof. split; [discriminate|]. vm_compute. split; reflexivity. Qed.

End ChunkIds.

(** ** GitHub URLs *)

Section Urls.
Import GithubFetcher.

Example parseGitHubUrl_plain :
  parseGitHubUrl "https://github.com/octocat/Hello-World" = Ok ("octocat", "Hello-World")
  /\ parseGitHubUrl "https://github.com/octocat/Hello-World.git" = Ok ("octocat", "Hello-World")
  /\ parseGitHubUrl "https://github.com/octocat/Hello-World/tree/main"
     = Ok ("octocat", "Hello-World")
  /\ parseGitHubUrl "not-a-url" = Throw "Invalid GitHub URL: not-a-url".
Proof. vm_compute. repeat split; reflexivity. Qed.

(** C8.  For a valid owner and repository name the three URL forms should
    parse to the same pair.  For the repository name [tree] the form with a
    [/tree/<ref>] suffix is cut at the first [/tree/], which is the name
    itself, and the parser throws. *)
Theorem parseGitHubUrl_repo_named_tree :
  parseGitHubUrl "https://github.com/o/tree" = Ok ("o", "tree")
  /\ parseGitHubUrl "https://github.com/o/tree.git" = Ok ("o", "tree")
  /\ parseGitHubUrl "https://github.com/o/tree/tree/main"
     = Throw "Invalid GitHub URL: https://github.com/o/tree/tree/main".
Proof. vm_compute. repeat split; reflexivity. Qed.

End Urls.

(** ** The tests of the file filter, one by one *)

Section FilterRules.
Import FileFilter.

Lemma firstIgnored_none parts :
  firstIgnored parts = None <->
  forallb (fun part => negb (has part IGNORED_PATHS)) parts = true.
Proof.
  induction parts as [|p parts IH]; simpl; [tauto|].
  destruct (has p IGNORED_PATHS); simpl; [split; discriminate|exact IH].
Qed.

Lemma allRulesHold_firstFailing f :
  allRulesHold f = true <-> firstFailing f = None.
Proof.
  unfold allRulesHold, firstFailing, rulesInOrder. cbn [forallb find].
  destruct (holds NoIgnoredDirectory f), (holds NotIgnoredFilename f),
    (holds SupportedExtension f), (holds SizeInRange f), (holds NoNulByte f);
    cbn [negb andb]; split; intros H; (reflexivity || discriminate H).
Qed.

(** What [shouldIndex] answers, rule by rule. *)
Lemma shouldIndex_firstFailing f :
  match firstFailing f with
  | None => shouldIndex f = Index
  | Some r => exists reason, shouldIndex f = Skip reason /\ ruleOfReason reason = Some r
  end.
Proof.
  unfold firstFailing, rulesInOrder, shouldIndex. cbn [find holds].
  destruct (firstIgnored (Js.init (Js.split "/"%char (path f)))) as [part|] eqn:E1.
  - assert (H1 : forallb (fun part => negb (has part IGNORED_PATHS))
                   (Js.init (Js.split "/"%char (path f))) = false).
    { apply not_true_is_false. intros H. apply firstIgnored_none in H. congruence. }
    rewrite H1. cbn [negb]. eexists; split; [reflexivity|reflexivity].
  - apply firstIgnored_none in E1. rewrite E1. cbn [negb].
    destruct (has (fileName f) IGNORED_FILENAMES); cbn [negb].
    { eexists; split; reflexivity. }
    destruct (has (fileExt f) SUPPORTED_EXTENSIONS); cbn [negb].
    2:{ eexists; split; reflexivity. }
    unfold MAX_FILE_SIZE_BYTES, MIN_FILE_SIZE_BYTES.
    destruct (Z.ltb_spec (500 * 1024) (sizeBytes f)).
    { replace ((10 <=? sizeBytes f)%Z && (sizeBytes f <=? 512000)%Z) with false
        by (symmetry; apply andb_false_iff; right; apply Z.leb_gt; lia).
      cbn [negb]. eexists; split; reflexivity. }
    destruct (Z.ltb_spec (sizeBytes f) 10).
    { replace ((10 <=? sizeBytes f)%Z && (sizeBytes f <=? 512000)%Z) with false
        by (symmetry; apply andb_false_iff; left; apply Z.leb_gt; lia).
      cbn [negb]. eexists; split; reflexivity. }
    replace ((10 <=? sizeBytes f)%Z && (sizeBytes f <=? 512000)%Z) with true
      by (symmetry; apply andb_true_iff; split; apply Z.leb_le; lia).
    cbn [negb].
    destruct (Js.includes "000"%char (content f)); cbn [negb].
    { eexists; split; reflexivity. }
    reflexivity.
Qed.

Lemma shouldIndex_accepts f :
  shouldIndex f = Index <-> allRulesHold f = true.
Proof.
  rewrite allRulesHold_firstFailing.
  pose proof (shouldIndex_firstFailing f) as H.
  destruct (firstFailing f) as [r|].
  - destruct H as (reason & -> & _). split; discriminate.
  - tauto.
Qed.

Lemma filterLoop_lists files :
  forall acc,
    accepted (filterLoop files acc)
    = (accepted acc ++ List.filter allRulesHold files)%list
    /\ rejected (filterLoop files acc)
       = (rejected acc
          ++ map (fun f => (path f, reasonOf f))
                 (List.filter (fun f => negb (allRulesHold f)) files))%list.
Proof.
  induction files as [|f files IH]; intros acc; cbn [filterLoop List.filter map].
  { rewrite !app_nil_r. split; reflexivity. }
  pose proof (shouldIndex_accepts f) as Hacc.
  destruct (shouldIndex f) as [|reason] eqn:E.
  - replace (allRulesHold f) with true by (symmetry; apply Hacc; reflexivity).
    cbn [negb]. destruct (IH {| accepted := accepted acc ++ [f]; rejected := rejected acc |})
      as [-> ->].
    cbn [accepted rejected]. rewrite <- app_assoc. split; reflexivity.
  - replace (allRulesHold f) with false.
    2:{ symmetry. apply not_true_is_false. intros H. apply Hacc in H. discriminate. }
    cbn [negb map]. unfold reasonOf at 1. rewrite E.
    destruct (IH {| accepted := accepted acc;
                    rejected := rejected acc ++ [(path f, reason)] |}) as [-> ->].
    cbn [accepted rejected]. rewrite <- app_assoc. split; reflexivity.
Qed.

End FilterRules.

(** ** The vector store *)

Section VectorStore.
Import AstChunker GithubFetcher VectorStoreWriter.

Lemma slice_then_rest {A} (l : list A) (i n : nat) :
  (Js.slice l i (i + n) ++ skipn (i + n) l)%list = skipn i l.
Proof.
  unfold Js.slice. replace (i + n - i) with n by lia.
  rewrite <- drop_drop. apply take_drop.
Qed.

(** *** The statement of a pass *)

Lemma tuplePlaceholders_seq i idx :
  InsertStatement.tuplePlaceholders i idx = seq ((i + idx) * 11 + 1) 11.
Proof.
  unfold InsertStatement.tuplePlaceholders. cbn [seq].
  repeat (apply f_equal2; [lia|]). reflexivity.
Qed.

Lemma concat_values batch :
  forall i,
    concat (InsertStatement.values i batch) = seq (i * 11 + 1) (11 * length batch).
Proof.
  unfold InsertStatement.values.
  induction batch as [|e batch IH]; intros i; [rewrite Nat.mul_0_r; reflexivity|].
  rewrite imap_cons. cbn [concat length].
  rewrite (imap_ext _ (fun idx _ => InsertStatement.tuplePlaceholders (S i) idx)).
  2:{ intros idx x _. cbn [compose]. rewrite !tuplePlaceholders_seq. f_equal. lia. }
  rewrite IH, tuplePlaceholders_seq.
  replace (11 * S (length batch)) with (11 + 11 * length batch) by lia.
  rewrite seq_app. f_equal; f_equal; lia.
Qed.

Lemma length_params batch :
  length (InsertStatement.params batch) = 11 * length batch.
Proof.
  unfold InsertStatement.params.
  induction batch as [|e batch IH]; cbn [flat_map length]; [reflexivity|].
  rewrite length_app, IH. cbn [InsertStatement.paramsOf length]. lia.
Qed.

(** Every placeholder of the statement of a pass names a parameter passed
    with it exactly in the pass that starts at 0. *)
Lemma statementOf_bound i batch :
  batch <> [] ->
  forallb (fun p => (p <=? length (InsertStatement.arguments
                                     (InsertStatement.statementOf i batch)))%nat)
          (InsertStatement.placeholders (InsertStatement.statementOf i batch))
  = (i =? 0)%nat.
Proof.
  intros Hne. cbn [InsertStatement.statementOf InsertStatement.arguments
                   InsertStatement.placeholders].
  rewrite concat_values, length_params.
  assert (Hlen : 0 < length batch) by (destruct batch; [congruence|cbn [length]; lia]).
  destruct (Nat.eqb_spec i 0) as [->|Hi].
  - apply forallb_forall. intros p Hp. apply in_seq in Hp. apply Nat.leb_le. lia.
  - apply not_true_is_false. intros Hall.
    rewrite forallb_forall in Hall.
    specialize (Hall (i * 11 + 11 * length batch)).
    rewrite Nat.leb_le in Hall. rewrite in_seq in Hall. lia.
Qed.

Lemma executeRawUnsafe_first upsert batch table :
  executeRawUnsafe upsert (InsertStatement.statementOf 0 batch) batch table
  = if upsert && negb (bool_decide (NoDup (map (fun e => id (chunk e)) batch)))
    then Refused RowProposedTwice
    else Done (executeInsert upsert batch table).
Proof.
  unfold executeRawUnsafe. destruct batch as [|e batch].
  - cbn [InsertStatement.statementOf InsertStatement.placeholders InsertStatement.values
         imap concat forallb negb]. reflexivity.
  - rewrite statementOf_bound by discriminate. reflexivity.
Qed.

Lemma executeRawUnsafe_later upsert i batch table :
  0 < i -> batch <> [] ->
  executeRawUnsafe upsert (InsertStatement.statementOf i batch) batch table
  = Refused ParameterNotPassed.
Proof.
  intros Hi Hne. unfold executeRawUnsafe. rewrite statementOf_bound by exact Hne.
  destruct (Nat.eqb_spec i 0); [lia|reflexivity].
Qed.

(** *** The loop of [batchInsertChunks] *)

Lemma batchLoop_end upsert embedded fuel i total table :
  length embedded <= i ->
  batchLoop fuel upsert embedded i total table = (table, Done total).
Proof.
  intros Hi. destruct fuel as [|fuel]; cbn [batchLoop]; [reflexivity|].
  destruct (Nat.ltb_spec i (length embedded)); [lia|reflexivity].
Qed.

Lemma slice_first {A} (l : list A) (n : nat) : Js.slice l 0 (0 + n) = take n l.
Proof. unfold Js.slice. cbn [Nat.add skipn]. rewrite Nat.sub_0_r. reflexivity. Qed.

(** The first pass, on a list that is not empty. *)
Lemma batchInsertChunks_first table embedded upsert :
  embedded <> [] ->
  batchInsertChunks table embedded upsert
  = let batch := take INSERT_BATCH_SIZE embedded in
    if upsert && negb (bool_decide (NoDup (map (fun e => id (chunk e)) batch)))
    then (table, Refused RowProposedTwice)
    else batchLoop (length embedded - 1) upsert embedded INSERT_BATCH_SIZE
           (length batch) (executeInsert upsert batch table).
Proof.
  intros Hne. unfold batchInsertChunks.
  destruct (length embedded) as [|fuel] eqn:E.
  { destruct embedded; [congruence|discriminate E]. }
  cbn [batchLoop]. rewrite E.
  destruct (Nat.ltb_spec 0 (S fuel)) as [_|]; [|lia].
  rewrite slice_first, executeRawUnsafe_first. cbn zeta.
  destruct (upsert && negb _); [reflexivity|].
  replace (S fuel - 1) with fuel by lia. reflexivity.
Qed.

(** A list that fits one statement, with distinct ids where rows are to be
    updated, is written whole. *)
Lemma batchInsertChunks_one table embedded upsert :
  length embedded <= INSERT_BATCH_SIZE ->
  (upsert = true -> List.NoDup (map (fun e => id (chunk e)) embedded)) ->
  batchInsertChunks table embedded upsert
  = (fold_left (insertRow upsert) embedded table, Done (length embedded)).
Proof.
  intros Hlen Hnd. destruct embedded as [|e l] eqn:E; [reflexivity|]. rewrite <- E in *.
  rewrite batchInsertChunks_first by (subst; discriminate).
  cbn zeta. rewrite firstn_all2 by exact Hlen.
  replace (upsert && negb _) with false.
  - apply batchLoop_end. exact Hlen.
  - symmetry. destruct upsert; [|reflexivity].
    rewrite bool_decide_eq_true_2 by (apply NoDup_ListNoDup, Hnd; reflexivity).
    reflexivity.
Qed.

(** With more chunks than one statement takes, the second statement is
    refused; the rows of the first stay written. *)
Lemma batchInsertChunks_over table embedded upsert :
  INSERT_BATCH_SIZE < length embedded ->
  batchInsertChunks table embedded upsert
  = let batch := take INSERT_BATCH_SIZE embedded in
    if upsert && negb (bool_decide (NoDup (map (fun e => id (chunk e)) batch)))
    then (table, Refused RowProposedTwice)
    else (fold_left (insertRow upsert) batch table, Refused ParameterNotPassed).
Proof.
  intros Hlen.
  rewrite batchInsertChunks_first by (intros ->; cbn [length] in Hlen; lia).
  cbn zeta. destruct (upsert && negb _); [reflexivity|].
  destruct (length embedded - 1) as [|fuel] eqn:E; [unfold INSERT_BATCH_SIZE in Hlen; lia|].
  cbn [batchLoop].
  destruct (Nat.ltb_spec INSERT_BATCH_SIZE (length embedded)) as [_|]; [|lia].
  rewrite executeRawUnsafe_later; [reflexivity|unfold INSERT_BATCH_SIZE; lia|].
  intros Hnil. apply (f_equal (@length _)) in Hnil.
  rewrite slice_length in Hnil. cbn [length] in Hnil. unfold INSERT_BATCH_SIZE in *. lia.
Qed.

(** What a returned count says. *)
Lemma batchInsertChunks_Done table embedded upsert table' n :
  batchInsertChunks table embedded upsert = (table', Done n) ->
  length embedded <= INSERT_BATCH_SIZE
  /\ (upsert = true -> List.NoDup (map (fun e => id (chunk e)) embedded))
  /\ table' = fold_left (insertRow upsert) embedded table
  /\ n = length embedded.
Proof.
  intros H.
  destruct (Nat.le_gt_cases (length embedded) INSERT_BATCH_SIZE) as [Hlen|Hlen].
  2:{ rewrite batchInsertChunks_over in H by exact Hlen. cbn zeta in H.
      destruct (upsert && negb _); discriminate H. }
  assert (Hnd : upsert = true -> List.NoDup (map (fun e => id (chunk e)) embedded)).
  { intros ->. apply NoDup_ListNoDup.
    destruct embedded as [|e l] eqn:E; [constructor|]. rewrite <- E in *.
    rewrite batchInsertChunks_first in H by (subst; discriminate).
    cbn zeta in H. rewrite firstn_all2 in H by exact Hlen.
    destruct (bool_decide (NoDup (map (fun e => id (chunk e)) embedded))) eqn:Hd.
    - apply bool_decide_eq_true_1 in Hd. exact Hd.
    - discriminate H. }
  rewrite batchInsertChunks_one in H by assumption.
  injection H as <- <-. auto.
Qed.

(** A row whose id is not proposed is left as it was. *)
Lemma insertRow_other upsert table e k :
  k <> id (chunk e) -> insertRow upsert table e !! k = table !! k.
Proof.
  intros Hk. unfold insertRow. cbn [rowOf c_id].
  destruct (table !! id (chunk e)); [destruct upsert|];
    try reflexivity; apply lookup_insert_ne; congruence.
Qed.

Lemma insertRows_other upsert embedded k :
  forall table,
    ~ In k (map (fun e => id (chunk e)) embedded) ->
    fold_left (insertRow upsert) embedded table !! k = table !! k.
Proof.
  induction embedded as [|e embedded IH]; intros table Hk; cbn [fold_left];
    [reflexivity|].
  cbn [map In] in Hk. rewrite IH by tauto. apply insertRow_other. intros ->. tauto.
Qed.

(** Refused or not, the loop leaves alone every row whose id is not
    proposed. *)
Lemma batchInsertChunks_other table embedded upsert k :
  ~ In k (map (fun e => id (chunk e)) embedded) ->
  (batchInsertChunks table embedded upsert).1 !! k = table !! k.
Proof.
  intros Hk.
  destruct (Nat.le_gt_cases (length embedded) INSERT_BATCH_SIZE) as [Hlen|Hlen].
  - destruct embedded as [|e l] eqn:E; [reflexivity|]. rewrite <- E in *.
    rewrite batchInsertChunks_first by (subst; discriminate).
    cbn zeta. rewrite firstn_all2 by exact Hlen.
    destruct (upsert && negb _); [reflexivity|].
    rewrite batchLoop_end by exact Hlen. cbn [fst].
    apply insertRows_other, Hk.
  - rewrite batchInsertChunks_over by exact Hlen. cbn zeta.
    destruct (upsert && negb _); [reflexivity|]. cbn [fst].
    apply insertRows_other. intros Hin. apply Hk.
    apply in_map_iff in Hin as (e & <- & He).
    apply (in_map (fun e => id (chunk e))).
    apply list_elem_of_In. apply list_elem_of_In in He.
    exact (subseteq_take _ _ _ He).
Qed.

(** *** The three strategies *)

Lemma writeToVectorStore_skips now db embedded options h row :
  commitHash options = Some h -> h <> "" ->
  repo_index db !! repoIdOf options = Some row ->
  r_commitHash row = Some h ->
  writeToVectorStore now db embedded options = (db, Done (skippedResult options)).
Proof.
  intros Hh Hne Hrow Hsame. unfold writeToVectorStore. rewrite Hh.
  destruct h as [|a h]; [congruence|].
  rewrite Hrow. unfold sameCommit. rewrite bool_decide_eq_true_2 by exact Hsame.
  reflexivity.
Qed.

Lemma writeToVectorStore_cases now db embedded options :
  writeToVectorStore now db embedded options = (db, Done (skippedResult options))
  \/ writeToVectorStore now db embedded options
     = fullReindex now db (repoIdOf options) embedded options
  \/ writeToVectorStore now db embedded options
     = upsertChunks now db (repoIdOf options) embedded options.
Proof.
  unfold writeToVectorStore.
  destruct (commitHash options) as [[|a h]|]; [tauto| |tauto].
  destruct (sameCommit _ _); [left; reflexivity|tauto].
Qed.

Lemma writeToVectorStore_upserts now db embedded options :
  Js.truthy (commitHash options) = false ->
  writeToVectorStore now db embedded options
  = upsertChunks now db (repoIdOf options) embedded options.
Proof.
  unfold writeToVectorStore. destruct (commitHash options) as [[|a h]|];
    [reflexivity|discriminate|reflexivity].
Qed.

(** A full reindex that returns. *)
Lemma fullReindex_Done now db repoId embedded options db' r :
  fullReindex now db repoId embedded options = (db', Done r) ->
  length embedded <= INSERT_BATCH_SIZE
  /\ r = {| w_repoId := repoId; w_strategy := full_reindex;
            chunksWritten := length embedded;
            chunksDeleted := match repo_index db !! repoId with
                             | Some _ => (deleteMany repoId (code_chunks db)).2
                             | None => 0
                             end |}
  /\ code_chunks db'
     = fold_left (insertRow false) embedded
         match repo_index db !! repoId with
         | Some _ => (deleteMany repoId (code_chunks db)).1
         | None => code_chunks db
         end
  /\ exists row,
      repo_index db' = <[repoId := row]> (repo_index db)
      /\ r_commitHash row = commitHash options
      /\ r_chunkCount row = length embedded
      /\ r_updatedAt row = now.
Proof.
  unfold fullReindex.
  destruct (repo_index db !! repoId) as [old|];
    [destruct (deleteMany repoId (code_chunks db)) as [table1 deleted]|];
    (destruct (batchInsertChunks _ embedded false) as [table2 [n|why]] eqn:E;
     [|discriminate]);
    apply batchInsertChunks_Done in E as (Hlen & _ & -> & ->);
    intros [= <- <-]; cbn [fst snd code_chunks repo_index];
    (split; [exact Hlen|]); (split; [reflexivity|]); (split; [reflexivity|]);
    eexists; (split; [reflexivity|]); repeat split; reflexivity.
Qed.

(** A full reindex of a list that fits one statement returns. *)
Lemma fullReindex_one now db repoId embedded options :
  length embedded <= INSERT_BATCH_SIZE ->
  exists db' r, fullReindex now db repoId embedded options = (db', Done r).
Proof.
  intros Hlen. unfold fullReindex.
  destruct (match repo_index db !! repoId with
            | Some _ => deleteMany repoId (code_chunks db)
            | None => (code_chunks db, 0)
            end) as [table1 deleted].
  rewrite batchInsertChunks_one by (exact Hlen || discriminate).
  eauto.
Qed.

(** An upsert that returns. *)
Lemma upsertChunks_Done now db repoId embedded options db' r :
  upsertChunks now db repoId embedded options = (db', Done r) ->
  length embedded <= INSERT_BATCH_SIZE
  /\ List.NoDup (map (fun e => id (chunk e)) embedded)
  /\ r = {| w_repoId := repoId; w_strategy := upsert;
            chunksWritten := length embedded; chunksDeleted := 0 |}
  /\ code_chunks db' = fold_left (insertRow true) embedded (code_chunks db)
  /\ exists row,
      repo_index db' = <[repoId := row]> (repo_index db)
      /\ r_chunkCount row = length embedded
      /\ r_updatedAt row = now.
Proof.
  unfold upsertChunks.
  destruct (batchInsertChunks _ embedded true) as [table1 [n|why]] eqn:E; [|discriminate].
  apply batchInsertChunks_Done in E as (Hlen & Hnd & -> & ->).
  intros [= <- <-]. cbn [fst snd code_chunks repo_index].
  split; [exact Hlen|]. split; [exact (Hnd eq_refl)|].
  split; [reflexivity|]. split; [reflexivity|].
  eexists. split; [reflexivity|].
  destruct (repo_index db !! repoId); split; reflexivity.
Qed.

Lemma upsertChunks_one now db repoId embedded options :
  length embedded <= INSERT_BATCH_SIZE ->
  List.NoDup (map (fun e => id (chunk e)) embedded) ->
  exists db' r, upsertChunks now db repoId embedded options = (db', Done r).
Proof.
  intros Hlen Hnd. unfold upsertChunks.
  rewrite batchInsertChunks_one by auto. eauto.
Qed.

(** A write under a commit hash that returns leaves that hash in the
    repository's row. *)
Lemma writeToVectorStore_records_commit now db embedded options a h db' r :
  commitHash options = Some (String a h) ->
  writeToVectorStore now db embedded options = (db', Done r) ->
  exists row,
    repo_index db' !! repoIdOf options = Some row
    /\ r_commitHash row = Some (String a h).
Proof.
  intros Hh. unfold writeToVectorStore. rewrite Hh.
  destruct (sameCommit (repo_index db !! repoIdOf options) (String a h)) eqn:E.
  - intros [= <- _]. unfold sameCommit in E.
    destruct (repo_index db !! repoIdOf options) as [row|]; [|discriminate].
    apply bool_decide_eq_true_1 in E. eauto.
  - intros H. apply fullReindex_Done in H as (_ & _ & _ & row & -> & Hc & _).
    exists row. rewrite lookup_insert_eq. split; [reflexivity|]. rewrite Hc. exact Hh.
Qed.

(** A write of a list that fits one statement, with distinct ids,
    returns. *)
Lemma writeToVectorStore_one now db embedded options :
  length embedded <= INSERT_BATCH_SIZE ->
  (Js.truthy (commitHash options) = false ->
   List.NoDup (map (fun e => id (chunk e)) embedded)) ->
  exists db' r, writeToVectorStore now db embedded options = (db', Done r).
Proof.
  intros Hlen Hnd. unfold writeToVectorStore.
  destruct (commitHash options) as [[|a h]|].
  - apply upsertChunks_one; auto.
  - destruct (sameCommit _ _); [eauto|]. apply fullReindex_one, Hlen.
  - apply upsertChunks_one; auto.
Qed.

(** C1.  Writing the same chunks under the same commit hash twice in a row
    should leave the store as one write leaves it, the second write
    returning [skipped], whatever the list of chunks.  With the 51 chunks
    of a README of 2266 lines, written under commit [abc] into an empty
    store, the second statement is refused: the first write throws with 50
    rows written and no [RepoIndex] row, and the second write of the same
    chunks under the same hash is not skipped but goes the same way and
    throws again. *)
Theorem writeToVectorStore_second_statement_refused :
  let options := sampleOptions (Some "abc") in
  let once := writeToVectorStore 1 emptyDb longReadmeEmbedded options in
  let twice := writeToVectorStore 2 once.1 longReadmeEmbedded options in
  length longReadmeEmbedded = 51
  /\ List.NoDup (map (fun e => id (chunk e)) longReadmeEmbedded)
  /\ once.2 = Refused ParameterNotPassed
  /\ size (code_chunks once.1) = 50
  /\ repo_index once.1 = ∅
  /\ twice.2 = Refused ParameterNotPassed
  /\ twice.1 = once.1.
Proof.
  cbn zeta. split; [vm_compute; reflexivity|]. split.
  { apply NoDup_ListNoDup, (bool_decide_unpack _). vm_compute. exact I. }
  vm_compute. repeat split; reflexivity.
Qed.

(** The first write of the sample, into an empty store, is a full
    reindex that leaves [indexedDb]. *)
Example writeToVectorStore_first_write :
  writeToVectorStore 1 emptyDb [sampleEmbedded] (sampleOptions (Some "abc"))
  = (indexedDb, Done {| w_repoId := "o/r"; w_strategy := full_reindex;
                        chunksWritten := 1; chunksDeleted := 0 |}).
Proof. vm_compute. reflexivity. Qed.

(** The empty string is not taken for a commit hash: such a write goes the
    way of a write without one. *)
Example writeToVectorStore_empty_hash :
  w_strategy <$> outcome (writeToVectorStore 2 indexedDb [sampleEmbedded]
                            (sampleOptions (Some ""))).2
  = Some upsert.
Proof. vm_compute. reflexivity. Qed.

(** *** Upsert *)

(** C10.  Without a commit hash the writer upserts.  When the write
    returns, the [RepoIndex] row it leaves has [chunkCount] equal to the
    number of chunks passed to this call, while every stored chunk whose id
    is not among them stays as it was; and it does return for chunks that go
    out in one statement with ids that differ.  So after a partial upsert
    [chunkCount] can be smaller than the number of chunks stored for the
    repository: upserting one chunk into a store that holds two leaves
    [chunkCount = 1] and two chunks. *)
Theorem writeToVectorStore_upsert_chunkCount :
  (forall (now : Z) (db db' : Db) (embedded : list EmbeddedChunk)
          (options : WriteOptions) (r : WriteResult),
      Js.truthy (commitHash options) = false ->
      writeToVectorStore now db embedded options = (db', Done r) ->
      w_strategy r = upsert
      /\ chunksWritten r = length embedded
      /\ (exists row,
             repo_index db' !! repoIdOf options = Some row
             /\ r_chunkCount row = length embedded)
      /\ (forall k, ~ In k (map (fun e => id (chunk e)) embedded) ->
                    code_chunks db' !! k = code_chunks db !! k))
  /\ (forall (now : Z) (db : Db) (embedded : list EmbeddedChunk) (options : WriteOptions),
         Js.truthy (commitHash options) = false ->
         length embedded <= INSERT_BATCH_SIZE ->
         List.NoDup (map (fun e => id (chunk e)) embedded) ->
         exists db' r, writeToVectorStore now db embedded options = (db', Done r))
  /\ (exists db' r,
         writeToVectorStore 1 twoChunkDb [sampleEmbedded] (sampleOptions None) = (db', Done r)
         /\ (r_chunkCount <$> repo_index db' !! "o/r") = Some 1
         /\ chunksOfRepo "o/r" db' = 2).
Proof.
  split; [|split].
  - intros now db db' embedded options r Hno.
    rewrite (writeToVectorStore_upserts _ _ _ _ Hno). intros H.
    apply upsertChunks_Done in H as (_ & _ & -> & Htable & row & Hidx & Hcount & _).
    split; [reflexivity|]. split; [reflexivity|]. split.
    + exists row. rewrite Hidx, lookup_insert_eq. split; [reflexivity|exact Hcount].
    + intros k Hk. rewrite Htable. apply insertRows_other, Hk.
  - intros now db embedded options Hno Hlen Hnd.
    apply writeToVectorStore_one; auto.
  - eexists. eexists. split; [vm_compute; reflexivity|].
    vm_compute. split; reflexivity.
Qed.

Lemma writeToVectorStore_upsert_chunkCount_witness :
  Js.truthy (commitHash (sampleOptions None)) = false
  /\ length [sampleEmbedded] <= INSERT_BATCH_SIZE
  /\ List.NoDup (map (fun e => id (chunk e)) [sampleEmbedded])
  /\ ~ In "o_r__README_md__L46" (map (fun e => id (chunk e)) [sampleEmbedded])
  /\ exists db' r,
      writeToVectorStore 1 twoChunkDb [sampleEmbedded] (sampleOptions None) = (db', Done r)
      /\ w_strategy r = upsert
      /\ (exists row,
             repo_index db' !! repoIdOf (sampleOptions None) = Some row
             /\ r_chunkCount row = length [sampleEmbedded])
      /\ code_chunks db' !! "o_r__README_md__L46"
         = code_chunks twoChunkDb !! "o_r__README_md__L46".
Proof.
  assert (H1 : Js.truthy (commitHash (sampleOptions None)) = false) by reflexivity.
  assert (H2 : ~ In "o_r__README_md__L46" (map (fun e => id (chunk e)) [sampleEmbedded])).
  { vm_compute. intros [H|[]]. discriminate H. }
  assert (H3 : length [sampleEmbedded] <= INSERT_BATCH_SIZE) by (vm_compute; lia).
  assert (H4 : List.NoDup (map (fun e => id (chunk e)) [sampleEmbedded])).
  { constructor; [intros []|constructor]. }
  split; [exact H1|]. split; [exact H3|]. split; [exact H4|]. split; [exact H2|].
  destruct (proj1 (proj2 writeToVectorStore_upsert_chunkCount) 1%Z twoChunkDb
              [sampleEmbedded] (sampleOptions None) H1 H3 H4) as (db' & r & Hw).
  exists db', r. split; [exact Hw|].
  destruct (proj1 writeToVectorStore_upsert_chunkCount 1%Z twoChunkDb db' [sampleEmbedded]
              (sampleOptions None) r H1 Hw) as (Hs & _ & Hrow & Hkeep).
  split; [exact Hs|]. split; [exact Hrow|].
  exact (Hkeep "o_r__README_md__L46" H2).
Defined.

End VectorStore.

(** ** The index job on an empty corpus *)

Section EmptyCorpus.
Import AstChunker FileFilter GithubFetcher VectorStoreWriter IndexRepoJob.

(** C9.  When the ingestion pipeline returns no chunk, the job returns
    normally with strategy [skipped] and [chunksWritten = 0]; the calls it
    made stop at the progress report that follows ingestion, so neither
    the embedder nor the vector store writer was called, and the database
    is as it was. *)
Theorem processIndexRepoJob_no_chunks
        (svc : Services) (data : IndexRepoJobData) (w : World)
        (owner repo : string) (repoData : RepoData) (out : IngestionOutput) :
  parseGitHubUrl (githubUrl data) = Ok (owner, repo) ->
  repos_get svc owner repo (githubToken data) = Ok repoData ->
  runIngestionPipeline svc (githubUrl data) (githubToken data) = Ok out ->
  o_chunks out = [] ->
  exists events,
    processIndexRepoJob svc data w
    = (Ok {| j_repoId := o_repoId out; j_strategy := skipped; j_chunksWritten := 0 |},
       {| db := db w; log := (log w ++ events)%list |})
    /\ events = [ UpdateProgress 5; ReposGet owner repo;
                  FetchLatestCommitHash owner repo (default_branch repoData);
                  UpdateProgress 10; RunIngestionPipeline (githubUrl data);
                  UpdateProgress 40 ]
    /\ forallb (fun e => negb (isHeavyPhase e)) events = true.
Proof.
  intros Hurl Hget Hrun Hnil. eexists. split; [|split; reflexivity].
  unfold processIndexRepoJob, mbind, M_bind, mret, M_ret, emit, lift.
  cbn [db log]. rewrite Hurl. cbn [db log]. rewrite Hget. cbn [db log].
  rewrite Hrun. cbn [db log]. rewrite Hnil.
  rewrite <- !app_assoc. reflexivity.
Qed.

Lemma processIndexRepoJob_no_chunks_witness :
  parseGitHubUrl (githubUrl lockOnlyJob) = Ok ("o", "r")
  /\ repos_get lockOnlyServices "o" "r" (githubToken lockOnlyJob)
     = Ok {| default_branch := "main"; size := 1 |}
  /\ runIngestionPipeline lockOnlyServices (githubUrl lockOnlyJob) (githubToken lockOnlyJob)
     = Ok lockOnlyOutput
  /\ o_chunks lockOnlyOutput = []
  /\ exists events,
      processIndexRepoJob lockOnlyServices lockOnlyJob {| db := emptyDb; log := [] |}
      = (Ok {| j_repoId := "o/r"; j_strategy := skipped; j_chunksWritten := 0 |},
         {| db := emptyDb; log := events |})
      /\ forallb (fun e => negb (isHeavyPhase e)) events = true.
Proof.
  assert (H1 : parseGitHubUrl (githubUrl lockOnlyJob) = Ok ("o", "r"))
    by (vm_compute; reflexivity).
  assert (H2 : repos_get lockOnlyServices "o" "r" (githubToken lockOnlyJob)
               = Ok {| default_branch := "main"; size := 1 |}) by reflexivity.
  assert (H3 : runIngestionPipeline lockOnlyServices (githubUrl lockOnlyJob)
                 (githubToken lockOnlyJob) = Ok lockOnlyOutput)
    by (vm_compute; reflexivity).
  assert (H4 : o_chunks lockOnlyOutput = []) by reflexivity.
  split; [exact H1|]. split; [exact H2|]. split; [exact H3|]. split; [exact H4|].
  destruct (processIndexRepoJob_no_chunks lockOnlyServices lockOnlyJob
              {| db := emptyDb; log := [] |} "o" "r" _ lockOnlyOutput H1 H2 H3 H4)
    as (events & Hrun & _ & Hlight).
  exists events. split; [exact Hrun|exact Hlight].
Defined.

End EmptyCorpus.

(** ** Citation keys *)

Section Citations.
Import ContextAssembler.

Lemma string_length_app (s t : string) :
  String.length (s ++ t) = String.length s + String.length t.
Proof. induction s as [|a s IH]; simpl; [reflexivity|]. rewrite IH. reflexivity. Qed.

Lemma string_app_inv_tail (t : string) :
  forall s1 s2, s1 ++ t = s2 ++ t -> s1 = s2.
Proof.
  induction s1 as [|a s1 IH]; intros [|b s2] H.
  - reflexivity.
  - apply (f_equal String.length) in H.
    rewrite !string_length_app in H. cbn [String.length] in H. lia.
  - apply (f_equal String.length) in H.
    rewrite !string_length_app in H. cbn [String.length] in H. lia.
  - cbn [String.append] in H. injection H as -> H. f_equal. exact (IH _ H).
Qed.

Lemma citationKey_inj n m : citationKey n = citationKey m -> n = m.
Proof.
  unfold citationKey. intros H.
  apply string_app_inv_head, string_app_inv_tail in H.
  exact (pretty_nat_inj _ _ H).
Qed.

End Citations.

Example assembleContext_sample_citations :
  (ContextAssembler.citationMap <$> sampleContext)
  = Some {[ "[1]" := {| ContextAssembler.c_filePath := "src/auth.ts";
                        ContextAssembler.c_startLine := 1;
                        ContextAssembler.c_endLine := 9;
                        ContextAssembler.c_symbolName := None |};
            "[2]" := {| ContextAssembler.c_filePath := "src/auth.ts";
                        ContextAssembler.c_startLine := 40;
                        ContextAssembler.c_endLine := 44;
                        ContextAssembler.c_symbolName := Some "logout" |} ]}.
Proof. vm_compute. reflexivity. Qed.

(** ** More on the chunker *)

Section ChunkerMore.
Import AstChunker.

Lemma string_app_nil_r (s : string) : s ++ "" = s.
Proof.
  induction s as [|a s IH]; [reflexivity|].
  change (String a s ++ "") with (String a (s ++ "")). rewrite IH. reflexivity.
Qed.

Lemma string_app_assoc (s t u : string) : (s ++ t) ++ u = s ++ t ++ u.
Proof.
  induction s as [|a s IH]; [reflexivity|].
  change (String a (s ++ t) ++ u = String a (s ++ t ++ u)).
  change (String a ((s ++ t) ++ u) = String a (s ++ t ++ u)). rewrite IH. reflexivity.
Qed.


Lemma increasingFrom_weaken l : forall lo lo', lo' <= lo -> increasingFrom lo l -> increasingFrom lo' l.
Proof. destruct l as [|x l]; cbn; [tauto|]. intros lo lo' H [H1 H2]. split; [lia|exact H2]. Qed.

Lemma increasingFrom_app l1 : forall lo hi l2,
  increasingFrom lo l1 -> Forall (fun x => x < hi) l1 -> increasingFrom hi l2 ->
  lo <= hi ->
  increasingFrom lo (l1 ++ l2).
Proof.
  induction l1 as [|x l1 IH]; intros lo hi l2 H1 Hlt H2 Hle; cbn [app].
  - eapply increasingFrom_weaken; eassumption.
  - cbn [increasingFrom] in *. destruct H1 as [H1 H1'].
    apply Forall_cons_1 in Hlt as [Hx Hlt]. split; [exact H1|].
    apply (IH (S x) hi); try assumption; lia.
Qed.

Lemma increasingFrom_lower l : forall lo, increasingFrom lo l -> Forall (fun x => lo <= x) l.
Proof.
  induction l as [|x l IH]; intros lo H; constructor; cbn [increasingFrom] in H.
  - tauto.
  - destruct H as [H1 H2]. apply IH in H2. eapply Forall_impl; [exact H2|].
    cbn beta. intros; lia.
Qed.

Lemma increasingFrom_NoDup l : forall lo, increasingFrom lo l -> List.NoDup l.
Proof.
  induction l as [|x l IH]; intros lo H; [constructor|].
  cbn [increasingFrom] in H. destruct H as [_ H]. constructor; [|eapply IH, H].
  intros Hin. apply increasingFrom_lower in H. rewrite List.Forall_forall in H.
  specialize (H x Hin). lia.
Qed.

(** A slice read back through its own length. *)
Lemma slice_by_length {A} (l : list A) (a n : nat) :
  Js.slice l a (a + length (take n (drop a l))) = take n (drop a l).
Proof.
  unfold Js.slice. replace (a + length (take n (drop a l)) - a) with (length (take n (drop a l))) by lia.
  rewrite length_take, <- take_take.
  rewrite (take_ge (drop a l) (length (drop a l))) by lia. reflexivity.
Qed.

Lemma slice_slice {A} (l : list A) (a b i j : nat) :
  Js.slice (Js.slice l a b) i j = take (Nat.min (j - i) (b - a - i)) (drop (a + i) l).
Proof.
  unfold Js.slice. rewrite skipn_firstn_comm, take_take, drop_drop. reflexivity.
Qed.

(** *** Every chunk describes lines of its file *)

Lemma slidingWindowLoop_describes repoId filePath lines language c :
  forall fuel i n,
    In c (slidingWindowLoop fuel repoId filePath lines language i n) ->
    describesLines repoId filePath lines c.
Proof.
  induction fuel as [|fuel IH]; intros i n Hin; cbn [slidingWindowLoop] in Hin;
    [contradiction|].
  destruct (Nat.ltb_spec i (length lines)) as [Hi|Hi]; [|contradiction].
  unfold SLIDING_WINDOW_SIZE, SLIDING_WINDOW_OVERLAP, MIN_CHUNK_LINES in Hin.
  destruct (Nat.ltb_spec (length (Js.slice lines i (Nat.min (i + 60) (length lines)))) 3)
    as [Hs|Hs]; [eapply IH, Hin|].
  rewrite slice_length in Hs.
  assert (Hc : describesLines repoId filePath lines
                 {| id := makeChunkId repoId filePath (i + 1);
                    repoId := repoId; filePath := filePath; language := language;
                    content := Js.join (String "010"%char "")
                                 (Js.slice lines i (Nat.min (i + 60) (length lines)));
                    startLine := i + 1;
                    endLine := Nat.min (i + 60) (length lines);
                    symbolName := None; chunkIndex := n |}).
  { unfold describesLines. cbn.
    replace (i + 1 - 1) with i by lia. repeat split; try reflexivity; lia. }
  destruct (Nat.leb_spec (length lines) (Nat.min (i + 60) (length lines))).
  - destruct Hin as [<-|[]]. exact Hc.
  - destruct Hin as [<-|Hin]; [exact Hc|eapply IH, Hin].
Qed.

Lemma splitLoop_describes repoId filePath language lines a e name base c :
  forall fuel i n,
    In c (splitLoop fuel repoId filePath language (Js.slice lines a e)
            (a + 1) name base i n) ->
    describesLines repoId filePath lines c.
Proof.
  induction fuel as [|fuel IH]; intros i n Hin; cbn [splitLoop] in Hin;
    [contradiction|].
  destruct (Nat.ltb_spec i (length (Js.slice lines a e))) as [Hi|Hi]; [|contradiction].
  unfold MAX_CHUNK_LINES, SLIDING_WINDOW_OVERLAP, MIN_CHUNK_LINES in Hin.
  rewrite slice_slice in Hin.
  replace (i + 150 - i) with 150 in Hin by lia.
  set (t := take (Nat.min 150 (e - a - i)) (drop (a + i) lines)) in *.
  destruct (Nat.ltb_spec (length t) 3) as [Hs|Hs]; [contradiction|].
  assert (Ht : length t <= length lines - (a + i)).
  { subst t. rewrite length_take, length_drop. lia. }
  assert (Hc : describesLines repoId filePath lines
                 {| id := makeChunkId repoId filePath (a + 1 + i);
                    repoId := repoId; filePath := filePath; language := language;
                    content := Js.join (String "010"%char "") t;
                    startLine := a + 1 + i;
                    endLine := a + 1 + i + length t - 1;
                    symbolName := Some (name ++ " [part " ++ pretty (n + 1) ++ "]");
                    chunkIndex := base + n |}).
  { unfold describesLines. cbn [startLine endLine content id AstChunker.repoId
                                 AstChunker.filePath].
    replace (a + 1 + i - 1) with (a + i) by lia.
    replace (a + 1 + i + length t - 1) with (a + i + length t) by lia.
    subst t. rewrite slice_by_length. repeat split; try reflexivity; lia. }
  destruct (Nat.leb_spec (length (Js.slice lines a e)) (i + 150)).
  - destruct Hin as [<-|[]]. exact Hc.
  - destruct Hin as [<-|Hin]; [exact Hc|eapply IH, Hin].
Qed.

Lemma splitIfTooLarge_describes repoId filePath language lines a e name base c :
  In c (splitIfTooLarge repoId filePath language (Js.slice lines a e)
          (a + 1) name base) ->
  describesLines repoId filePath lines c.
Proof.
  unfold splitIfTooLarge, MIN_CHUNK_LINES, MAX_CHUNK_LINES.
  destruct (Nat.ltb_spec (length (Js.slice lines a e)) 3) as [|H3]; [contradiction|].
  destruct (Nat.leb_spec (length (Js.slice lines a e)) 150).
  - intros [<-|[]]. unfold describesLines.
    cbn [startLine endLine content id AstChunker.repoId AstChunker.filePath].
    replace (a + 1 - 1) with a by lia.
    replace (a + 1 + length (Js.slice lines a e) - 1)
      with (a + length (Js.slice lines a e)) by lia.
    assert (Hlen : length (Js.slice lines a e) <= length lines - a)
      by (rewrite slice_length; lia).
    change (Js.slice lines a e) with (take (e - a) (drop a lines)) in *.
    rewrite slice_by_length.
    repeat split; try reflexivity; lia.
  - apply splitLoop_describes.
Qed.
Lemma detectLoop_starts re lines :
  forall i,
    increasingFrom (S i) (map b_startLine (detectLoop re lines i))
    /\ Forall (fun b => b_startLine b <= i + length lines) (detectLoop re lines i).
Proof.
  induction lines as [|line lines IH]; intros i; cbn [detectLoop].
  { split; [exact I|constructor]. }
  destruct (IH (S i)) as [Hinc Hle].
  assert (Hle' : Forall (fun b => b_startLine b <= i + length (line :: lines))
                   (detectLoop re lines (S i))).
  { eapply Forall_impl; [exact Hle|]. cbn. intros; lia. }
  destruct (Regex.search re line).
  - split.
    + cbn [map increasingFrom b_startLine]. split; [lia|].
      eapply increasingFrom_weaken; [|exact Hinc]. lia.
    + constructor; [cbn; lia|exact Hle'].
  - split; [|exact Hle'].
    eapply increasingFrom_weaken; [|exact Hinc]. lia.
Qed.

Lemma chunkSymbols_describes repoId filePath language lines c :
  forall bs i,
    Forall (fun b => 1 <= b_startLine b) bs ->
    In c (chunkSymbols repoId filePath language lines bs i) ->
    describesLines repoId filePath lines c.
Proof.
  induction bs as [|b bs IH]; intros i Hpos Hin; cbn [chunkSymbols] in Hin;
    [contradiction|].
  apply Forall_cons_1 in Hpos as [Hb Hpos].
  apply in_app_or in Hin as [Hin|Hin]; [|eapply IH; eassumption].
  replace (b_startLine b) with (b_startLine b - 1 + 1) in Hin at 2 by lia.
  eapply splitIfTooLarge_describes, Hin.
Qed.

(** The two shapes of what [chunkFile] returns: the windows of the whole
    file, or the blocks of the detected symbols. *)
Lemma chunkFile_cases repoId filePath content :
  exists language,
    chunks (chunkFile repoId filePath content)
    = slidingWindowChunk repoId filePath (linesOf content) language
    \/ exists language' re,
        chunks (chunkFile repoId filePath content)
        = chunkSymbols repoId filePath language' (linesOf content)
            (detectSymbolBoundaries (linesOf content) re) 0.
Proof.
  unfold chunkFile, linesOf.
  set (ext := Js.toLowerCase (NodePath.extname filePath)).
  set (lines := Js.split "010"%char content).
  destruct (isScriptExt ext); [|destruct (String.eqb ext ".py")].
  - destruct (chunkTypeScript repoId filePath lines) eqn:E; cbn [chunks].
    + exists (detectLanguage ext). left. reflexivity.
    + exists "". right. exists "typescript", TS_SYMBOL_START_RE. symmetry. exact E.
  - destruct (chunkPython repoId filePath lines) eqn:E; cbn [chunks].
    + exists (detectLanguage ext). left. reflexivity.
    + exists "". right. exists "python", PY_SYMBOL_START_RE. symmetry. exact E.
  - destruct (slidingWindowChunk repoId filePath lines "text") eqn:E; cbn [chunks].
    + exists (detectLanguage ext). left. reflexivity.
    + exists "text". left. symmetry. exact E.
Qed.

Lemma detectSymbolBoundaries_positive lines re :
  Forall (fun b => 1 <= b_startLine b) (detectSymbolBoundaries lines re).
Proof.
  unfold detectSymbolBoundaries.
  destruct (detectLoop_starts re lines 0) as [Hinc _].
  apply increasingFrom_lower in Hinc.
  rewrite List.Forall_forall in Hinc. apply List.Forall_forall. intros b Hb.
  apply (Hinc (b_startLine b)). apply in_map, Hb.
Qed.

Lemma chunkFile_describes repoId filePath content c :
  In c (chunks (chunkFile repoId filePath content)) ->
  describesLines repoId filePath (linesOf content) c.
Proof.
  intros Hin.
  destruct (chunkFile_cases repoId filePath content) as [language [E|(language' & re & E)]];
    rewrite E in Hin.
  - eapply slidingWindowLoop_describes, Hin.
  - eapply chunkSymbols_describes, Hin. apply detectSymbolBoundaries_positive.
Qed.

(** X1.  Every chunk [chunkFile] returns is a range of lines of the file:
    [1 <= startLine <= endLine <= number of lines], its [content] is these
    lines joined by newlines, its [id] is [makeChunkId] of the repository,
    the path and the start line, and it carries the repository id and the
    path it was given. *)
Theorem chunkFile_chunks_describe_lines
        (repoId filePath content : string) (c : CodeChunk) :
  In c (chunks (chunkFile repoId filePath content)) ->
  1 <= startLine c /\ startLine c <= endLine c
  /\ endLine c <= length (Js.split "010"%char content)
  /\ AstChunker.content c
     = Js.join (String "010"%char "")
         (Js.slice (Js.split "010"%char content) (startLine c - 1) (endLine c))
  /\ id c = makeChunkId repoId filePath (startLine c)
  /\ AstChunker.repoId c = repoId
  /\ AstChunker.filePath c = filePath.
Proof. apply chunkFile_describes. Qed.

Lemma chunkFile_chunks_describe_lines_witness :
  In sampleReadmeChunk (chunks (chunkFile "o/r" "README.md" sampleReadme))
  /\ AstChunker.content sampleReadmeChunk
     = Js.join (String "010"%char "")
         (Js.slice (Js.split "010"%char sampleReadme)
            (startLine sampleReadmeChunk - 1) (endLine sampleReadmeChunk))
  /\ id sampleReadmeChunk = makeChunkId "o/r" "README.md" (startLine sampleReadmeChunk).
Proof.
  assert (H : In sampleReadmeChunk (chunks (chunkFile "o/r" "README.md" sampleReadme))).
  { vm_compute. left. reflexivity. }
  split; [exact H|].
  destruct (chunkFile_chunks_describe_lines "o/r" "README.md" sampleReadme
              sampleReadmeChunk H) as (_ & _ & _ & Hc & Hid & _).
  split; [exact Hc|exact Hid].
Defined.

(** *** Start lines increase, so ids differ within a file *)

Lemma slidingWindowLoop_increasing repoId filePath lines language :
  forall fuel i n,
    increasingFrom (i + 1)
      (map startLine (slidingWindowLoop fuel repoId filePath lines language i n)).
Proof.
  induction fuel as [|fuel IH]; intros i n; cbn [slidingWindowLoop]; [exact I|].
  unfold SLIDING_WINDOW_SIZE, SLIDING_WINDOW_OVERLAP.
  repeat case_match; cbn [map increasingFrom startLine]; try exact I.
  - eapply increasingFrom_weaken; [|apply IH]. lia.
  - split; [lia|exact I].
  - split; [lia|]. eapply increasingFrom_weaken; [|apply IH]. lia.
Qed.

Lemma splitLoop_increasing repoId filePath language chunkLines b name base :
  forall fuel i n,
    increasingFrom (b + i)
      (map startLine (splitLoop fuel repoId filePath language chunkLines b name base i n))
    /\ Forall (fun x => x < b + length chunkLines)
         (map startLine (splitLoop fuel repoId filePath language chunkLines b name base i n)).
Proof.
  induction fuel as [|fuel IH]; intros i n; cbn [splitLoop]; [split; [exact I|constructor]|].
  unfold MAX_CHUNK_LINES, SLIDING_WINDOW_OVERLAP.
  destruct (Nat.ltb_spec i (length chunkLines)); [|split; [exact I|constructor]].
  destruct (IH (i + (150 - 15)) (S n)) as [Hinc Hlt].
  repeat case_match; cbn [map increasingFrom startLine];
    try (split; [exact I|constructor]).
  - split; [split; [lia|exact I]|]. constructor; [lia|constructor].
  - split; [split; [lia|]|constructor; [lia|exact Hlt]].
    eapply increasingFrom_weaken; [|exact Hinc]. lia.
Qed.

Lemma splitIfTooLarge_increasing repoId filePath language chunkLines b name base :
  increasingFrom b
    (map startLine (splitIfTooLarge repoId filePath language chunkLines b name base))
  /\ Forall (fun x => x < b + length chunkLines)
       (map startLine (splitIfTooLarge repoId filePath language chunkLines b name base)).
Proof.
  unfold splitIfTooLarge, MIN_CHUNK_LINES, MAX_CHUNK_LINES.
  destruct (Nat.ltb_spec (length chunkLines) 3); [split; [exact I|constructor]|].
  destruct (Nat.leb_spec (length chunkLines) 150).
  - cbn [map increasingFrom startLine]. split; [split; [lia|exact I]|].
    constructor; [lia|constructor].
  - destruct (splitLoop_increasing repoId filePath language chunkLines b name base
                (length chunkLines) 0 0) as [Hinc Hlt].
    split; [|exact Hlt]. eapply increasingFrom_weaken; [|exact Hinc]. lia.
Qed.

Lemma chunkSymbols_increasing repoId filePath language lines :
  forall bs i lo,
    1 <= lo ->
    increasingFrom lo (map b_startLine bs) ->
    increasingFrom lo (map startLine (chunkSymbols repoId filePath language lines bs i)).
Proof.
  induction bs as [|b bs IH]; intros i lo Hlo Hinc; cbn [chunkSymbols]; [exact I|].
  cbn [map increasingFrom] in Hinc. destruct Hinc as [Hb Hinc].
  rewrite map_app.
  set (endLine := match bs with b' :: _ => b_startLine b' - 1 | [] => length lines end).
  destruct (splitIfTooLarge_increasing repoId filePath language
              (Js.slice lines (b_startLine b - 1) endLine) (b_startLine b)
              (b_symbolName b) i) as [H1 H2].
  destruct bs as [|b' bs'].
  - cbn [chunkSymbols map]. rewrite app_nil_r.
    eapply increasingFrom_weaken; [|exact H1]. lia.
  - assert (Hb' : S (b_startLine b) <= b_startLine b')
      by (cbn [map increasingFrom] in Hinc; tauto).
    apply (increasingFrom_app _ lo (b_startLine b')).
    + eapply increasingFrom_weaken; [|exact H1]. lia.
    + eapply Forall_impl; [exact H2|]. cbn beta. intros x Hx.
      rewrite slice_length in Hx. subst endLine. cbv beta iota in Hx. lia.
    + apply IH; [lia|].
      cbn [map increasingFrom] in Hinc |- *. split; [lia|tauto].
    + lia.
Qed.

Lemma chunkFile_startLines_increasing repoId filePath content :
  increasingFrom 1 (map startLine (chunks (chunkFile repoId filePath content))).
Proof.
  destruct (chunkFile_cases repoId filePath content) as [language [E|(language' & re & E)]];
    rewrite E.
  - apply (slidingWindowLoop_increasing repoId filePath (linesOf content) language _ 0 0).
  - apply chunkSymbols_increasing; [lia|].
    destruct (detectLoop_starts re (linesOf content) 0) as [Hinc _]. exact Hinc.
Qed.

(** X2.  The chunks of one file start at strictly increasing lines, and
    therefore have pairwise distinct ids. *)
Theorem chunkFile_ids_distinct (repoId filePath content : string) :
  increasingFrom 1 (map startLine (chunks (chunkFile repoId filePath content)))
  /\ List.NoDup (map id (chunks (chunkFile repoId filePath content))).
Proof.
  pose proof (chunkFile_startLines_increasing repoId filePath content) as Hinc.
  split; [exact Hinc|].
  assert (Hid : map id (chunks (chunkFile repoId filePath content))
                = map (makeChunkId repoId filePath)
                      (map startLine (chunks (chunkFile repoId filePath content)))).
  { rewrite map_map. apply List.map_ext_in. intros c Hc.
    apply chunkFile_describes in Hc. apply Hc. }
  rewrite Hid. apply Finite.Injective_map_NoDup.
  - intros l1 l2 H. exact (makeChunkId_startLine_inj _ _ _ _ H).
  - eapply increasingFrom_NoDup. exact Hinc.
Qed.

(** *** Windows leave no line out *)

Lemma slidingWindowLoop_covers repoId filePath lines language :
  forall fuel i n line,
    length lines <= fuel + i -> i + 3 <= length lines ->
    i < line -> line <= length lines ->
    exists c,
      In c (slidingWindowLoop fuel repoId filePath lines language i n) /\ covers c line.
Proof.
  induction fuel as [|fuel IH]; intros i n line Hf H3 Hlo Hhi; [lia|].
  cbn [slidingWindowLoop].
  destruct (Nat.ltb_spec i (length lines)); [|lia].
  unfold SLIDING_WINDOW_SIZE, SLIDING_WINDOW_OVERLAP, MIN_CHUNK_LINES.
  rewrite slice_length.
  destruct (Nat.ltb_spec (Nat.min (Nat.min (i + 60) (length lines) - i) (length lines - i)) 3);
    [lia|].
  destruct (Nat.leb_spec (length lines) (Nat.min (i + 60) (length lines))).
  - eexists. split; [left; reflexivity|]. unfold covers. cbn. lia.
  - destruct (Nat.le_gt_cases line (i + 60)).
    + eexists. split; [left; reflexivity|]. unfold covers. cbn. lia.
    + destruct (IH (i + (60 - 15)) (S n) line) as (c & Hc & Hcov); try lia.
      exists c. split; [right; exact Hc|exact Hcov].
Qed.

Lemma slidingWindowChunk_short repoId filePath lines language :
  length lines < 3 -> slidingWindowChunk repoId filePath lines language = [].
Proof.
  intros H. destruct (slidingWindowChunk repoId filePath lines language) as [|c l] eqn:E;
    [reflexivity|].
  assert (Hin : In c (slidingWindowChunk repoId filePath lines language))
    by (rewrite E; left; reflexivity).
  pose proof (slidingWindowLoop_bounds _ _ _ _ _ _ _ _ Hin) as Hb.
  pose proof (slidingWindowLoop_describes _ _ _ _ _ _ _ _ Hin) as Hd.
  unfold sizeInBounds in Hb. unfold describesLines in Hd. lia.
Qed.

(** The chunks of a result that reports the sliding-window strategy are the
    windows of the whole file. *)
Lemma chunkFile_sliding repoId filePath content :
  strategy (chunkFile repoId filePath content) = "sliding-window" ->
  exists language,
    chunks (chunkFile repoId filePath content)
    = slidingWindowChunk repoId filePath (linesOf content) language.
Proof.
  unfold chunkFile, linesOf.
  set (ext := Js.toLowerCase (NodePath.extname filePath)).
  set (lines := Js.split "010"%char content).
  destruct (isScriptExt ext); [|destruct (String.eqb ext ".py")].
  - destruct (chunkTypeScript repoId filePath lines); cbn [chunks strategy];
      [eauto|discriminate].
  - destruct (chunkPython repoId filePath lines); cbn [chunks strategy];
      [eauto|discriminate].
  - destruct (slidingWindowChunk repoId filePath lines "text") eqn:E; cbn [chunks strategy];
      intros _; [eauto|]. exists "text". symmetry. exact E.
Qed.

(** X3.  When [chunkFile] reports the sliding-window strategy for a file of
    at least three lines, every line of the file lies in the range of some
    chunk: the windows leave no line out. *)
Theorem chunkFile_sliding_window_covers
        (repoId filePath content : string) (line : nat) :
  strategy (chunkFile repoId filePath content) = "sliding-window" ->
  3 <= length (Js.split "010"%char content) ->
  1 <= line -> line <= length (Js.split "010"%char content) ->
  exists c,
    In c (chunks (chunkFile repoId filePath content))
    /\ startLine c <= line /\ line <= endLine c.
Proof.
  intros Hs H3 Hlo Hhi.
  destruct (chunkFile_sliding repoId filePath content Hs) as [language ->].
  apply (slidingWindowLoop_covers repoId filePath (linesOf content) language
           (length (linesOf content)) 0 0 line); unfold linesOf; lia.
Qed.

Lemma chunkFile_sliding_window_covers_witness :
  strategy (chunkFile "o/r" "README.md" sampleReadme) = "sliding-window"
  /\ 3 <= length (Js.split "010"%char sampleReadme)
  /\ exists c,
      In c (chunks (chunkFile "o/r" "README.md" sampleReadme))
      /\ startLine c <= 2 /\ 2 <= endLine c.
Proof.
  assert (H1 : strategy (chunkFile "o/r" "README.md" sampleReadme) = "sliding-window")
    by (vm_compute; reflexivity).
  assert (H2 : 3 <= length (Js.split "010"%char sampleReadme)) by (vm_compute; lia).
  split; [exact H1|]. split; [exact H2|].
  apply (chunkFile_sliding_window_covers "o/r" "README.md" sampleReadme 2 H1 H2);
    [lia|vm_compute; lia].
Defined.

Lemma chunkFile_sizeInBounds repoId filePath content c :
  In c (chunks (chunkFile repoId filePath content)) -> sizeInBounds c.
Proof.
  intros Hin.
  destruct (chunkFile_cases repoId filePath content) as [language [E|(language' & re & E)]];
    rewrite E in Hin.
  - eapply slidingWindowLoop_bounds, Hin.
  - eapply chunkSymbols_bounds, Hin.
Qed.

(** X4.  [chunkFile] returns no chunk exactly for the files of fewer than
    three lines: a longer file is never lost, whatever its extension and
    whether or not a symbol was detected in it. *)
Theorem chunkFile_empty_iff_short (repoId filePath content : string) :
  chunks (chunkFile repoId filePath content) = []
  <-> length (Js.split "010"%char content) < 3.
Proof.
  split.
  - intros Hnil.
    assert (Hsw : slidingWindowChunk repoId filePath (linesOf content)
                    (detectLanguage (extOf filePath)) = []).
    { revert Hnil. unfold chunkFile, linesOf, extOf.
      set (ext := Js.toLowerCase (NodePath.extname filePath)).
      set (lines := Js.split "010"%char content).
      destruct (isScriptExt ext); [|destruct (String.eqb ext ".py")].
      - destruct (chunkTypeScript repoId filePath lines); cbn [chunks];
          [tauto|discriminate].
      - destruct (chunkPython repoId filePath lines); cbn [chunks];
          [tauto|discriminate].
      - destruct (slidingWindowChunk repoId filePath lines "text"); cbn [chunks];
          [tauto|discriminate]. }
    destruct (Nat.lt_ge_cases (length (Js.split "010"%char content)) 3) as [|H3];
      [assumption|exfalso].
    destruct (slidingWindowLoop_covers repoId filePath (linesOf content)
                (detectLanguage (extOf filePath)) (length (linesOf content)) 0 0 1)
      as (c & Hc & _); unfold linesOf; try lia.
    unfold slidingWindowChunk in Hsw. rewrite Hsw in Hc. exact Hc.
  - intros Hshort.
    destruct (chunks (chunkFile repoId filePath content)) as [|c l] eqn:E; [reflexivity|].
    assert (Hin : In c (chunks (chunkFile repoId filePath content)))
      by (rewrite E; left; reflexivity).
    pose proof (chunkFile_sizeInBounds _ _ _ _ Hin) as Hb.
    pose proof (chunkFile_describes _ _ _ _ Hin) as Hd.
    unfold sizeInBounds in Hb. unfold describesLines, linesOf in Hd. lia.
Qed.

(** *** Tags by strategy *)

Lemma slidingWindowLoop_no_symbol repoId filePath lines language c :
  forall fuel i n,
    In c (slidingWindowLoop fuel repoId filePath lines language i n) ->
    symbolName c = None.
Proof.
  induction fuel as [|fuel IH]; intros i n Hin; cbn [slidingWindowLoop] in Hin;
    [contradiction|].
  repeat case_match; try contradiction.
  - eapply IH, Hin.
  - destruct Hin as [<-|[]]. reflexivity.
  - destruct Hin as [<-|Hin]; [reflexivity|]. eapply IH, Hin.
Qed.

Lemma splitLoop_tags repoId filePath language chunkLines b name base c :
  forall fuel i n,
    In c (splitLoop fuel repoId filePath language chunkLines b name base i n) ->
    AstChunker.language c = language /\ exists s, symbolName c = Some s.
Proof.
  induction fuel as [|fuel IH]; intros i n Hin; cbn [splitLoop] in Hin;
    [contradiction|].
  repeat case_match; try contradiction.
  - destruct Hin as [<-|[]]. cbn. eauto.
  - destruct Hin as [<-|Hin]; [cbn; eauto|]. eapply IH, Hin.
Qed.

Lemma splitIfTooLarge_tags repoId filePath language chunkLines b name base c :
  In c (splitIfTooLarge repoId filePath language chunkLines b name base) ->
  AstChunker.language c = language /\ exists s, symbolName c = Some s.
Proof.
  unfold splitIfTooLarge.
  destruct (length chunkLines <? MIN_CHUNK_LINES)%nat; [contradiction|].
  destruct (length chunkLines <=? MAX_CHUNK_LINES)%nat.
  - intros [<-|[]]. cbn. eauto.
  - apply splitLoop_tags.
Qed.

Lemma chunkSymbols_tags repoId filePath language lines c :
  forall bs i,
    In c (chunkSymbols repoId filePath language lines bs i) ->
    AstChunker.language c = language /\ exists s, symbolName c = Some s.
Proof.
  induction bs as [|b bs IH]; intros i Hin; cbn [chunkSymbols] in Hin; [contradiction|].
  apply in_app_or in Hin as [Hin|Hin]; [|eapply IH, Hin].
  eapply splitIfTooLarge_tags, Hin.
Qed.

(** X5.  The strategy a result reports tells how its chunks are tagged.
    Under ["ast"] every chunk carries a symbol name, and its language is
    ["python"] for [.py] and ["typescript"] for every script extension,
    [.js], [.jsx] and [.mjs] included.  Under ["sliding-window"] no chunk
    carries a symbol name, and the language is what [detectLanguage] gives
    for script and [.py] files and ["text"] for all others. *)
Theorem chunkFile_tags_by_strategy
        (repoId filePath content : string) (c : CodeChunk) :
  In c (chunks (chunkFile repoId filePath content)) ->
  let ext := Js.toLowerCase (NodePath.extname filePath) in
  (strategy (chunkFile repoId filePath content) = "ast"
   /\ (exists s, symbolName c = Some s)
   /\ language c = (if String.eqb ext ".py" then "python" else "typescript"))
  \/ (strategy (chunkFile repoId filePath content) = "sliding-window"
      /\ symbolName c = None
      /\ language c = (if isScriptExt ext || String.eqb ext ".py"
                       then detectLanguage ext else "text")).
Proof.
  cbn zeta. unfold chunkFile.
  set (ext := Js.toLowerCase (NodePath.extname filePath)).
  set (lines := Js.split "010"%char content).
  assert (Hsw : forall lang,
             In c (slidingWindowChunk repoId filePath lines lang) ->
             symbolName c = None /\ language c = lang).
  { intros lang H. split.
    - eapply slidingWindowLoop_no_symbol, H.
    - eapply slidingWindowLoop_language, H. }
  destruct (isScriptExt ext) eqn:Es; [|destruct (String.eqb ext ".py") eqn:Ep].
  - assert (Ep : String.eqb ext ".py" = false).
    { unfold isScriptExt in Es. destruct (String.eqb_spec ext ".py") as [->|]; [|reflexivity].
      discriminate Es. }
    rewrite Ep.
    destruct (chunkTypeScript repoId filePath lines) eqn:E; cbn [chunks strategy orb].
    + intros H. right. apply Hsw in H. tauto.
    + rewrite <- E. intros H. left. apply chunkSymbols_tags in H. tauto.
  - destruct (chunkPython repoId filePath lines) eqn:E; cbn [chunks strategy orb].
    + intros H. right. apply Hsw in H. tauto.
    + rewrite <- E. intros H. left. apply chunkSymbols_tags in H. tauto.
  - destruct (slidingWindowChunk repoId filePath lines "text") eqn:E;
      cbn [chunks strategy orb].
    + intros H. exfalso. unfold slidingWindowChunk in E, H.
      rewrite (slidingWindowLoop_nil _ _ _ "text" (detectLanguage ext) _ _ _ E) in H.
      exact H.
    + rewrite <- E. intros H. right. apply Hsw in H. tauto.
Qed.

(** A script with one three-line function, under the extension [.js]. *)
Lemma chunkFile_tags_by_strategy_witness :
  let content := "function b() {" ++ String "010"%char "  return 1;" ++ String "010"%char "}" in
  exists c,
    In c (chunks (chunkFile "o/r" "lib/b.js" content))
    /\ strategy (chunkFile "o/r" "lib/b.js" content) = "ast"
    /\ symbolName c = Some "b"
    /\ language c = "typescript"
    /\ detectLanguage ".js" = "javascript".
Proof.
  cbn zeta.
  set (content := "function b() {" ++ String "010"%char "  return 1;" ++ String "010"%char "}").
  destruct (chunks (chunkFile "o/r" "lib/b.js" content)) as [|c l] eqn:E;
    [vm_compute in E; discriminate E|].
  assert (Hin : In c (chunks (chunkFile "o/r" "lib/b.js" content)))
    by (rewrite E; left; reflexivity).
  exists c. rewrite <- E. split; [exact Hin|].
  destruct (chunkFile_tags_by_strategy "o/r" "lib/b.js" content c Hin)
    as [(Hs & _ & Hl)|(Hs & _)]; [|vm_compute in Hs; discriminate Hs].
  split; [exact Hs|]. split; [|split; [exact Hl|reflexivity]].
  vm_compute in E. injection E as <- _. reflexivity.
Defined.

(** *** The parts of an oversized block *)

Lemma splitLoop_parts repoId filePath language chunkLines b name base :
  forall fuel i n,
    length chunkLines <= fuel + i -> i + 15 < length chunkLines ->
    let parts := splitLoop fuel repoId filePath language chunkLines b name base i n in
    (forall k c, nth_error parts k = Some c ->
        startLine c = b + i + 135 * k
        /\ endLine c = Nat.min (b + i + 135 * k + 149) (b + length chunkLines - 1)
        /\ symbolName c = Some (name ++ " [part " ++ pretty (n + k + 1) ++ "]")
        /\ chunkIndex c = base + n + k)
    /\ (forall k c c', nth_error parts k = Some c -> nth_error parts (S k) = Some c' ->
          endLine c + 1 = startLine c' + 15)
    /\ (forall line, b + i <= line -> line <= b + length chunkLines - 1 ->
          exists c, In c parts /\ covers c line).
Proof.
  induction fuel as [|fuel IH]; intros i n Hf Hi; [lia|].
  cbn zeta. cbn [splitLoop].
  destruct (Nat.ltb_spec i (length chunkLines)); [|lia].
  unfold MAX_CHUNK_LINES, SLIDING_WINDOW_OVERLAP, MIN_CHUNK_LINES.
  rewrite slice_length. replace (i + 150 - i) with 150 by lia.
  destruct (Nat.ltb_spec (Nat.min 150 (length chunkLines - i)) 3); [lia|].
  remember (Nat.min 150 (length chunkLines - i)) as m eqn:Hm.
  destruct (Nat.leb_spec (length chunkLines) (i + 150)) as [Hlast|Hmore].
  - split; [|split].
    + intros [|k] c Hk; cbn [nth_error] in Hk; [|destruct k; discriminate].
      injection Hk as <-. cbn [startLine endLine symbolName chunkIndex].
      rewrite !Nat.mul_0_r, !Nat.add_0_r. repeat split; try reflexivity; lia.
    + intros [|k] c c' _ Hk'; cbn in Hk'; [discriminate|destruct k; discriminate].
    + intros line Hlo Hhi. eexists. split; [left; reflexivity|].
      unfold covers. cbn. lia.
  - destruct (IH (i + (150 - 15)) (S n)) as (Hnth & Hov & Hcov); try lia.
    cbn zeta in Hnth, Hov, Hcov.
    set (rest := splitLoop fuel repoId filePath language chunkLines b name base
                   (i + (150 - 15)) (S n)) in *.
    split; [|split].
    + intros [|k] c Hk; cbn [nth_error] in Hk.
      * injection Hk as <-. cbn [startLine endLine symbolName chunkIndex].
        rewrite !Nat.mul_0_r, !Nat.add_0_r. repeat split; try reflexivity; lia.
      * destruct (Hnth k c Hk) as (H1 & H2 & H3 & H4).
        rewrite H1, H2, H3, H4.
        replace (n + S k + 1) with (S n + k + 1) by lia.
        repeat split; try reflexivity; lia.
    + intros [|k] c c' Hk Hk'; cbn [nth_error] in Hk, Hk'.
      * injection Hk as <-. destruct (Hnth 0 c' Hk') as (H1 & _). rewrite H1. cbn. lia.
      * eapply Hov; eassumption.
    + intros line Hlo Hhi. destruct (Nat.le_gt_cases line (b + i + 149)).
      * eexists. split; [left; reflexivity|]. unfold covers. cbn. lia.
      * destruct (Hcov line) as (c & Hc & Hcv); try lia.
        exists c. split; [right; exact Hc|exact Hcv].
Qed.

(** X6.  A block of more than 150 lines is cut into parts that start 135
    lines apart, the k-th part (from 0) holding at most 150 lines from line
    [blockStartLine + 135 k], named ["<symbol> [part k+1]"] and indexed
    [baseIndex + k]; consecutive parts share 15 lines, and together the
    parts reach every line of the block. *)
Theorem splitIfTooLarge_parts
        (repoId filePath language : string) (chunkLines : list string)
        (blockStartLine : nat) (symbolName : string) (baseIndex : nat) :
  150 < length chunkLines ->
  let parts := splitIfTooLarge repoId filePath language chunkLines
                 blockStartLine symbolName baseIndex in
  (forall k c, nth_error parts k = Some c ->
      startLine c = blockStartLine + 135 * k
      /\ endLine c = Nat.min (blockStartLine + 135 * k + 149)
                             (blockStartLine + length chunkLines - 1)
      /\ AstChunker.symbolName c
         = Some (symbolName ++ " [part " ++ pretty (k + 1) ++ "]")
      /\ chunkIndex c = baseIndex + k)
  /\ (forall k c c', nth_error parts k = Some c -> nth_error parts (S k) = Some c' ->
        endLine c + 1 = startLine c' + 15)
  /\ (forall line, blockStartLine <= line ->
                   line <= blockStartLine + length chunkLines - 1 ->
        exists c, In c parts /\ startLine c <= line /\ line <= endLine c).
Proof.
  intros Hbig. cbn zeta. unfold splitIfTooLarge, MIN_CHUNK_LINES, MAX_CHUNK_LINES.
  destruct (Nat.ltb_spec (length chunkLines) 3); [lia|].
  destruct (Nat.leb_spec (length chunkLines) 150); [lia|].
  destruct (splitLoop_parts repoId filePath language chunkLines blockStartLine
              symbolName baseIndex (length chunkLines) 0 0) as (Hnth & Hov & Hcov);
    try lia.
  cbn zeta in Hnth, Hov, Hcov.
  split; [|split].
  - intros k c Hk. destruct (Hnth k c Hk) as (H1 & H2 & H3 & H4).
    rewrite H1, H2, H3, H4. cbn [Nat.add]. repeat split; try reflexivity; lia.
  - exact Hov.
  - intros line Hlo Hhi. apply Hcov; lia.
Qed.

Lemma splitIfTooLarge_parts_witness :
  let block := repeat "x" 151 in
  150 < length block
  /\ map (fun c => (startLine c, endLine c, AstChunker.symbolName c, chunkIndex c))
         (splitIfTooLarge "o/r" "a.ts" "typescript" block 10 "f" 4)
     = [ (10, 159, Some "f [part 1]", 4); (145, 160, Some "f [part 2]", 5) ]
  /\ (forall k c c',
         nth_error (splitIfTooLarge "o/r" "a.ts" "typescript" block 10 "f" 4) k = Some c ->
         nth_error (splitIfTooLarge "o/r" "a.ts" "typescript" block 10 "f" 4) (S k) = Some c' ->
         endLine c + 1 = startLine c' + 15).
Proof.
  cbn zeta.
  assert (H : 150 < length (repeat "x" 151)) by (vm_compute; lia).
  split; [exact H|]. split; [vm_compute; reflexivity|].
  exact (proj1 (proj2 (splitIfTooLarge_parts "o/r" "a.ts" "typescript"
                         (repeat "x" 151) 10 "f" 4 H))).
Defined.

(** *** The windows, one by one *)

Lemma slidingWindowLoop_windows repoId filePath lines language :
  forall fuel i n,
    length lines <= fuel + i -> i + 3 <= length lines ->
    let windows := slidingWindowLoop fuel repoId filePath lines language i n in
    (forall k c, nth_error windows k = Some c ->
        startLine c = i + 45 * k + 1
        /\ endLine c = Nat.min (i + 45 * k + 60) (length lines)
        /\ chunkIndex c = n + k)
    /\ (forall k c c', nth_error windows k = Some c -> nth_error windows (S k) = Some c' ->
          endLine c + 1 = startLine c' + 15)
    /\ length windows = S ((length lines - i - 16) / 45).
Proof.
  induction fuel as [|fuel IH]; intros i n Hf Hi; [lia|].
  cbn zeta. cbn [slidingWindowLoop].
  destruct (Nat.ltb_spec i (length lines)); [|lia].
  unfold SLIDING_WINDOW_SIZE, SLIDING_WINDOW_OVERLAP, MIN_CHUNK_LINES.
  rewrite slice_length.
  remember (Nat.min (i + 60) (length lines)) as e eqn:He.
  destruct (Nat.ltb_spec (Nat.min (e - i) (length lines - i)) 3); [lia|].
  destruct (Nat.leb_spec (length lines) e) as [Hlast|Hmore].
  - split; [|split].
    + intros [|k] c Hk; cbn [nth_error] in Hk; [|destruct k; discriminate].
      injection Hk as <-. cbn [startLine endLine chunkIndex].
      rewrite !Nat.mul_0_r, !Nat.add_0_r. repeat split; try reflexivity; lia.
    + intros [|k] c c' _ Hk'; cbn in Hk'; [discriminate|destruct k; discriminate].
    + cbn [length]. rewrite Nat.div_small by lia. reflexivity.
  - destruct (IH (i + (60 - 15)) (S n)) as (Hnth & Hov & Hlen); try lia.
    cbn zeta in Hnth, Hov, Hlen.
    set (rest := slidingWindowLoop fuel repoId filePath lines language
                   (i + (60 - 15)) (S n)) in *.
    split; [|split].
    + intros [|k] c Hk; cbn [nth_error] in Hk.
      * injection Hk as <-. cbn [startLine endLine chunkIndex].
        rewrite !Nat.mul_0_r, !Nat.add_0_r. repeat split; try reflexivity; lia.
      * destruct (Hnth k c Hk) as (H1 & H2 & H3). rewrite H1, H2, H3.
        repeat split; try reflexivity; lia.
    + intros [|k] c c' Hk Hk'; cbn [nth_error] in Hk, Hk'.
      * injection Hk as <-. destruct (Hnth 0 c' Hk') as (H1 & _). rewrite H1.
        cbn [endLine]. lia.
      * eapply Hov; eassumption.
    + cbn [length]. rewrite Hlen. f_equal.
      replace (length lines - i - 16) with (length lines - (i + (60 - 15)) - 16 + 1 * 45)
        by lia.
      rewrite Nat.div_add by lia. lia.
Qed.

(** X27.  The windows of the sliding-window strategy, for a file of at
    least three lines: window [k] (from 0) runs from line [45 k + 1] to
    line [45 k + 60] or to the last line of the file, and has
    [chunkIndex = k]; two windows that follow each other share 15 lines;
    and a file of [n] lines gives [1 + (n - 16) / 45] windows (one window
    up to 60 lines). *)
Theorem chunkFile_sliding_windows
        (repoId filePath content : string) :
  strategy (chunkFile repoId filePath content) = "sliding-window" ->
  3 <= length (Js.split "010"%char content) ->
  let windows := chunks (chunkFile repoId filePath content) in
  (forall k c, nth_error windows k = Some c ->
      startLine c = 45 * k + 1
      /\ endLine c = Nat.min (45 * k + 60) (length (Js.split "010"%char content))
      /\ chunkIndex c = k)
  /\ (forall k c c', nth_error windows k = Some c -> nth_error windows (S k) = Some c' ->
        endLine c + 1 = startLine c' + 15)
  /\ length windows = S ((length (Js.split "010"%char content) - 16) / 45).
Proof.
  intros Hs H3. cbn zeta.
  destruct (chunkFile_sliding repoId filePath content Hs) as [language ->].
  destruct (slidingWindowLoop_windows repoId filePath (linesOf content) language
              (length (linesOf content)) 0 0) as (Hnth & Hov & Hlen);
    unfold linesOf in *; try lia.
  cbn zeta in Hnth, Hov, Hlen. unfold slidingWindowChunk, linesOf.
  split; [|split; [exact Hov|]].
  - intros k c Hk. destruct (Hnth k c Hk) as (H1 & H2 & H3'). auto.
  - rewrite Hlen, Nat.sub_0_r. reflexivity.
Qed.

Lemma chunkFile_sliding_windows_witness :
  let content := String.concat (String "010"%char "") (repeat "line" 61) in
  strategy (chunkFile "o/r" "notes.md" content) = "sliding-window"
  /\ 3 <= length (Js.split "010"%char content)
  /\ map (fun c => (startLine c, endLine c, chunkIndex c))
         (chunks (chunkFile "o/r" "notes.md" content))
     = [(1, 60, 0); (46, 61, 1)]
  /\ length (chunks (chunkFile "o/r" "notes.md" content)) = 2.
Proof.
  cbn zeta.
  set (content := String.concat (String "010"%char "") (repeat "line" 61)).
  assert (Hs : strategy (chunkFile "o/r" "notes.md" content) = "sliding-window")
    by (vm_compute; reflexivity).
  assert (H3 : 3 <= length (Js.split "010"%char content)) by (vm_compute; lia).
  split; [exact Hs|]. split; [exact H3|]. split; [vm_compute; reflexivity|].
  destruct (chunkFile_sliding_windows "o/r" "notes.md" content Hs H3) as (_ & _ & Hlen).
  rewrite Hlen. vm_compute. reflexivity.
Defined.

(** *** Symbol blocks *)

Lemma detectLoop_matches re lines :
  forall i n,
    In n (map b_startLine (detectLoop re lines i))
    <-> i < n /\ exists line, nth_error lines (n - 1 - i) = Some line
                              /\ Regex.search re line <> None.
Proof.
  induction lines as [|l lines IH]; intros i n; cbn [detectLoop].
  { cbn [map In]. split; [intros []|]. intros (_ & line & H & _).
    destruct (n - 1 - i); discriminate H. }
  assert (Hrest : In n (map b_startLine (detectLoop re lines (S i)))
                  <-> S i < n /\ exists line, nth_error (l :: lines) (n - 1 - i) = Some line
                                              /\ Regex.search re line <> None).
  { rewrite IH. split; intros (Hn & line & Hnth & Hm); (split; [exact Hn|]); exists line;
      (split; [|exact Hm]).
    - replace (n - 1 - i) with (S (n - 1 - S i)) by lia. exact Hnth.
    - replace (n - 1 - i) with (S (n - 1 - S i)) in Hnth by lia. exact Hnth. }
  destruct (Regex.search re l) as [m|] eqn:E.
  - cbn [map In b_startLine]. rewrite Hrest. split.
    + intros [<-|(Hn & H)]; [|split; [lia|exact H]].
      split; [lia|]. exists l. replace (i + 1 - 1 - i) with 0 by lia.
      split; [reflexivity|]. rewrite E. discriminate.
    + intros (Hn & line & Hnth & Hm).
      destruct (Nat.eq_dec n (i + 1)) as [->|Hne]; [left; reflexivity|right].
      split; [lia|]. exists line. split; assumption.
  - rewrite Hrest. split.
    + intros (Hn & H). split; [lia|exact H].
    + intros (Hn & line & Hnth & Hm).
      destruct (Nat.eq_dec n (i + 1)) as [->|Hne].
      * replace (i + 1 - 1 - i) with 0 in Hnth by lia. cbn [nth_error] in Hnth.
        injection Hnth as <-. congruence.
      * split; [lia|]. exists line. split; assumption.
Qed.

Lemma splitLoop_range repoId filePath language chunkLines b name base c :
  forall fuel i n,
    In c (splitLoop fuel repoId filePath language chunkLines b name base i n) ->
    b <= startLine c /\ endLine c <= b + length chunkLines - 1
    /\ exists suffix, symbolName c = Some (name ++ suffix).
Proof.
  induction fuel as [|fuel IH]; intros i n Hin; cbn [splitLoop] in Hin; [contradiction|].
  destruct (Nat.ltb_spec i (length chunkLines)) as [Hi|Hi]; [|contradiction].
  rewrite !slice_length in Hin.
  unfold MAX_CHUNK_LINES, SLIDING_WINDOW_OVERLAP, MIN_CHUNK_LINES in Hin.
  remember (Nat.min (i + 150 - i) (length chunkLines - i)) as m eqn:Hm.
  destruct (Nat.ltb_spec m 3) as [Hs|Hs]; [contradiction|].
  assert (Hc : forall c', c' = c ->
            startLine c' = b + i -> endLine c' = b + i + m - 1 ->
            symbolName c' = Some (name ++ " [part " ++ pretty (n + 1) ++ "]") ->
            b <= startLine c /\ endLine c <= b + length chunkLines - 1
            /\ exists suffix, symbolName c = Some (name ++ suffix)).
  { intros c' <- Hst Hen Hname. rewrite Hst, Hen. split; [lia|]. split; [lia|eauto]. }
  destruct (Nat.leb_spec (length chunkLines) (i + 150)).
  - destruct Hin as [Hin|[]]. eapply Hc; [exact Hin|reflexivity..].
  - destruct Hin as [Hin|Hin]; [eapply Hc; [exact Hin|reflexivity..]|]. eapply IH, Hin.
Qed.

Lemma splitIfTooLarge_range repoId filePath language chunkLines b name base c :
  In c (splitIfTooLarge repoId filePath language chunkLines b name base) ->
  b <= startLine c /\ endLine c <= b + length chunkLines - 1
  /\ exists suffix, symbolName c = Some (name ++ suffix).
Proof.
  unfold splitIfTooLarge, MIN_CHUNK_LINES, MAX_CHUNK_LINES.
  destruct (Nat.ltb_spec (length chunkLines) 3); [contradiction|].
  destruct (Nat.leb_spec (length chunkLines) 150).
  - intros [<-|[]]. cbn [startLine endLine symbolName].
    split; [lia|]. split; [lia|]. exists "". rewrite string_app_nil_r. reflexivity.
  - apply splitLoop_range.
Qed.

(** A chunk of the symbol loop lies in the block of one symbol: from its
    start line to the line before the next symbol. *)
Lemma chunkSymbols_blocks repoId filePath language lines c :
  forall bs i lo,
    1 <= lo ->
    increasingFrom lo (map b_startLine bs) ->
    In c (chunkSymbols repoId filePath language lines bs i) ->
    exists b,
      In b bs
      /\ b_startLine b <= startLine c
      /\ (forall b', In b' bs -> b_startLine b < b_startLine b' ->
                     endLine c < b_startLine b')
      /\ exists suffix, symbolName c = Some (b_symbolName b ++ suffix).
Proof.
  induction bs as [|b bs IH]; intros i lo Hlo Hinc Hin; cbn [chunkSymbols] in Hin;
    [contradiction|].
  cbn [map increasingFrom] in Hinc. destruct Hinc as [Hb Hinc].
  pose proof (increasingFrom_lower _ _ Hinc) as Hlater.
  rewrite List.Forall_forall in Hlater.
  apply in_app_or in Hin as [Hin|Hin].
  - apply splitIfTooLarge_range in Hin as (Hs & He & Hname).
    exists b. split; [left; reflexivity|]. split; [exact Hs|]. split; [|exact Hname].
    intros b' [<-|Hb'] Hlt; [lia|].
    rewrite slice_length in He.
    destruct bs as [|b1 bs']; [contradiction|].
    cbn [map increasingFrom] in Hinc. destruct Hinc as [Hb1 Hinc'].
    assert (Hge : b_startLine b1 <= b_startLine b').
    { destruct Hb' as [<-|Hb']; [lia|].
      apply increasingFrom_lower in Hinc'. rewrite List.Forall_forall in Hinc'.
      specialize (Hinc' (b_startLine b') (in_map _ _ _ Hb')). lia. }
    lia.
  - assert (Hlo' : 1 <= S (b_startLine b)) by lia.
    destruct (IH (S i) (S (b_startLine b)) Hlo' Hinc Hin) as (b0 & Hb0 & Hs & Hnext & Hname).
    exists b0. split; [right; exact Hb0|]. split; [exact Hs|]. split; [|exact Hname].
    intros b' [<-|Hb'] Hlt; [|exact (Hnext b' Hb' Hlt)].
    specialize (Hlater (b_startLine b0) (in_map _ _ _ Hb0)). lia.
Qed.

Lemma chunkFile_ast repoId filePath content :
  strategy (chunkFile repoId filePath content) = "ast" ->
  exists language re,
    (re = TS_SYMBOL_START_RE \/ re = PY_SYMBOL_START_RE)
    /\ chunks (chunkFile repoId filePath content)
       = chunkSymbols repoId filePath language (linesOf content)
           (detectSymbolBoundaries (linesOf content) re) 0.
Proof.
  unfold chunkFile, linesOf.
  set (ext := Js.toLowerCase (NodePath.extname filePath)).
  set (lines := Js.split "010"%char content).
  destruct (isScriptExt ext); [|destruct (String.eqb ext ".py")].
  - destruct (chunkTypeScript repoId filePath lines) eqn:E; cbn [chunks strategy];
      [discriminate|]. intros _. exists "typescript", TS_SYMBOL_START_RE.
    split; [left; reflexivity|]. rewrite <- E. reflexivity.
  - destruct (chunkPython repoId filePath lines) eqn:E; cbn [chunks strategy];
      [discriminate|]. intros _. exists "python", PY_SYMBOL_START_RE.
    split; [right; reflexivity|]. rewrite <- E. reflexivity.
  - destruct (slidingWindowChunk repoId filePath lines "text"); cbn [strategy];
      discriminate.
Qed.

(** X26.  Under the ["ast"] strategy the symbols are the lines that match
    the pattern of the language, and every chunk lies in the block of one
    of them: it starts at or after that symbol's line, ends before the
    next symbol's line, and is named after that symbol.  So no chunk
    reaches over two symbols, and the lines before the first symbol are in
    no chunk. *)
Theorem chunkFile_ast_chunks_in_blocks
        (repoId filePath content : string) (c : CodeChunk) :
  strategy (chunkFile repoId filePath content) = "ast" ->
  In c (chunks (chunkFile repoId filePath content)) ->
  exists re,
    (re = TS_SYMBOL_START_RE \/ re = PY_SYMBOL_START_RE)
    /\ (forall n, In n (map b_startLine (detectSymbolBoundaries (linesOf content) re))
                  <-> symbolLine re (linesOf content) n)
    /\ exists b,
        In b (detectSymbolBoundaries (linesOf content) re)
        /\ b_startLine b <= startLine c
        /\ (forall b', In b' (detectSymbolBoundaries (linesOf content) re) ->
                       b_startLine b < b_startLine b' -> endLine c < b_startLine b')
        /\ exists suffix, symbolName c = Some (b_symbolName b ++ suffix).
Proof.
  intros Hs Hin. destruct (chunkFile_ast repoId filePath content Hs)
    as (language & re & Hre & Hchunks).
  rewrite Hchunks in Hin. exists re. split; [exact Hre|]. split.
  - intros n. unfold detectSymbolBoundaries, symbolLine. rewrite detectLoop_matches.
    rewrite Nat.sub_0_r. split; intros [Hn H]; (split; [lia|exact H]).
  - eapply (chunkSymbols_blocks _ _ _ _ _ _ 0 1); [lia| |exact Hin].
    apply (detectLoop_starts re (linesOf content) 0).
Qed.

Lemma chunkFile_ast_chunks_in_blocks_witness :
  let c := hd sampleReadmeChunk (chunks (chunkFile "o/r" "a.ts" shortThenLong)) in
  strategy (chunkFile "o/r" "a.ts" shortThenLong) = "ast"
  /\ In c (chunks (chunkFile "o/r" "a.ts" shortThenLong))
  /\ startLine c = 2
  /\ exists re b,
      In b (detectSymbolBoundaries (linesOf shortThenLong) re)
      /\ b_startLine b <= startLine c
      /\ exists suffix, symbolName c = Some (b_symbolName b ++ suffix).
Proof.
  cbn zeta.
  set (c := hd sampleReadmeChunk (chunks (chunkFile "o/r" "a.ts" shortThenLong))).
  assert (Hs : strategy (chunkFile "o/r" "a.ts" shortThenLong) = "ast")
    by (vm_compute; reflexivity).
  assert (Hin : In c (chunks (chunkFile "o/r" "a.ts" shortThenLong)))
    by (vm_compute; left; reflexivity).
  split; [exact Hs|]. split; [exact Hin|]. split; [vm_compute; reflexivity|].
  destruct (chunkFile_ast_chunks_in_blocks "o/r" "a.ts" shortThenLong c Hs Hin)
    as (re & _ & _ & b & Hb & Hstart & _ & Hname).
  exists re, b. split; [exact Hb|]. split; [exact Hstart|exact Hname].
Defined.

End ChunkerMore.

(** ** More on the vector store *)

Section VectorStoreMore.
Import AstChunker GithubFetcher VectorStoreWriter.

Lemma insertRow_slot upsert table e k :
  insertRow upsert table e !! k = slotStep upsert k (table !! k) e.
Proof.
  unfold slotStep. destruct (String.eqb_spec (id (chunk e)) k) as [<-|Hne].
  - unfold insertRow. cbn [rowOf c_id].
    destruct (table !! id (chunk e)) as [old|] eqn:E.
    + destruct upsert; [rewrite lookup_insert_eq; reflexivity|exact E].
    + rewrite lookup_insert_eq. reflexivity.
  - apply insertRow_other. congruence.
Qed.

Lemma insertRows_slot upsert embedded k :
  forall table,
    fold_left (insertRow upsert) embedded table !! k
    = fold_left (slotStep upsert k) embedded (table !! k).
Proof.
  induction embedded as [|e embedded IH]; intros table; cbn [fold_left]; [reflexivity|].
  rewrite IH, insertRow_slot. reflexivity.
Qed.

Lemma row_eta (r r' : StoredChunk) :
  keptColumns r = keptColumns r' -> writtenColumns r = writtenColumns r' -> r = r'.
Proof.
  destruct r, r'. unfold keptColumns, writtenColumns. cbn.
  intros [= -> -> -> -> -> -> -> ->] [= -> -> ->]. reflexivity.
Qed.

Lemma lastWritten_idem k embedded :
  forall w, lastWritten k embedded (lastWritten k embedded w) = lastWritten k embedded w.
Proof.
  unfold lastWritten.
  induction embedded as [|e embedded IH] using rev_ind; intros w; [reflexivity|].
  rewrite !fold_left_app. cbn [fold_left].
  destruct (String.eqb (id (chunk e)) k); [reflexivity|]. apply IH.
Qed.

(** A slot that holds a row still holds one after any proposals: with the
    same kept columns, and under [DO NOTHING] the same row. *)
Lemma slotSteps_some upsert k embedded :
  forall old,
  exists row,
    fold_left (slotStep upsert k) embedded (Some old) = Some row
    /\ keptColumns row = keptColumns old
    /\ (upsert = false -> row = old)
    /\ (upsert = true ->
        writtenColumns row = lastWritten k embedded (writtenColumns old)).
Proof.
  induction embedded as [|e embedded IH]; intros old; cbn [fold_left].
  { exists old. repeat split; auto. }
  assert (Hstep : slotStep upsert k (Some old) e
                  = if String.eqb (id (chunk e)) k
                    then Some (if upsert then overwritten old (rowOf e) else old)
                    else Some old) by reflexivity.
  rewrite Hstep. clear Hstep.
  unfold lastWritten. cbn [fold_left]. fold (lastWritten k embedded).
  destruct (String.eqb (id (chunk e)) k).
  - destruct upsert.
    + destruct (IH (overwritten old (rowOf e))) as (row & Hrow & Hkept & _ & Hw).
      exists row. split; [exact Hrow|]. split; [rewrite Hkept; reflexivity|].
      split; [discriminate|]. intros _. rewrite (Hw eq_refl). reflexivity.
    + destruct (IH old) as (row & Hrow & Hkept & Hsame & _).
      exists row. split; [exact Hrow|]. split; [exact Hkept|].
      split; [exact Hsame|discriminate].
  - destruct (IH old) as (row & Hrow & Hkept & Hsame & Hw).
    exists row. repeat split; auto.
Qed.

(** An empty slot stays empty, or is filled by the first matching
    proposal and then behaves as a slot that holds a row. *)
Lemma slotSteps_none upsert k embedded :
  (fold_left (slotStep upsert k) embedded None = None /\ ~ In k (idsOf embedded))
  \/ exists first row,
      In first embedded
      /\ id (chunk first) = k
      /\ fold_left (slotStep upsert k) embedded None = Some row
      /\ keptColumns row = keptColumns (rowOf first)
      /\ (upsert = false -> row = rowOf first)
      /\ (upsert = true -> forall w, writtenColumns row = lastWritten k embedded w).
Proof.
  induction embedded as [|e embedded IH]; cbn [fold_left]; [left; split; [reflexivity|tauto]|].
  assert (Hstep : slotStep upsert k None e
                  = if String.eqb (id (chunk e)) k then Some (rowOf e) else None)
    by reflexivity.
  rewrite Hstep. clear Hstep.
  unfold lastWritten. cbn [fold_left]. fold (lastWritten k embedded).
  destruct (String.eqb_spec (id (chunk e)) k) as [Hk|Hk].
  - right. destruct (slotSteps_some upsert k embedded (rowOf e))
      as (row & Hrow & Hkept & Hsame & Hw).
    exists e, row. split; [left; reflexivity|]. split; [exact Hk|].
    split; [exact Hrow|]. split; [exact Hkept|]. split; [exact Hsame|].
    intros Hu w. exact (Hw Hu).
  - destruct IH as [[IH Hout]|(first & row & Hin & Hid & Hrow & Hkept & Hsame & Hw)];
      [left; split; [exact IH|cbn; tauto]|right].
    exists first, row. split; [right; exact Hin|]. repeat split; auto.
Qed.

Lemma slotSteps_idem upsert k embedded slot :
  fold_left (slotStep upsert k) embedded (fold_left (slotStep upsert k) embedded slot)
  = fold_left (slotStep upsert k) embedded slot.
Proof.
  assert (Hsettled : forall row,
             (upsert = true ->
              writtenColumns row = lastWritten k embedded (writtenColumns row)) ->
             fold_left (slotStep upsert k) embedded (Some row) = Some row).
  { intros row Hw.
    destruct (slotSteps_some upsert k embedded row) as (row' & Hrow & Hkept & Hsame & Hw').
    rewrite Hrow. f_equal. destruct upsert; [|exact (Hsame eq_refl)].
    apply row_eta; [exact Hkept|]. rewrite (Hw' eq_refl), <- (Hw eq_refl). reflexivity. }
  destruct slot as [old|].
  - destruct (slotSteps_some upsert k embedded old) as (row & Hrow & _ & _ & Hw).
    rewrite Hrow. apply Hsettled. intros Hu.
    rewrite (Hw Hu), lastWritten_idem. reflexivity.
  - destruct (slotSteps_none upsert k embedded)
      as [[H _]|(first & row & _ & _ & Hrow & _ & _ & Hw)].
    + rewrite H. exact H.
    + rewrite Hrow. apply Hsettled. intros Hu. apply (Hw Hu).
Qed.

Lemma executeInsert_idem upsert embedded table :
  executeInsert upsert embedded (executeInsert upsert embedded table)
  = executeInsert upsert embedded table.
Proof.
  apply map_eq. intros k. unfold executeInsert.
  rewrite !insertRows_slot. apply slotSteps_idem.
Qed.

(** X7.  Writing the same chunks twice without a commit hash, the chunks
    going out in one statement with ids that differ: both writes return
    the same result, an upsert of as many chunks as were passed; the chunk
    table is as the first write left it, and the repository's [RepoIndex]
    row differs from the first write's only in [updatedAt]: a retried
    upsert is harmless. *)
Theorem writeToVectorStore_upsert_twice
        (now1 now2 : Z) (db : Db) (embedded : list EmbeddedChunk)
        (options : WriteOptions) :
  oneStatement embedded ->
  Js.truthy (commitHash options) = false ->
  let once := writeToVectorStore now1 db embedded options in
  let twice := writeToVectorStore now2 once.1 embedded options in
  code_chunks twice.1 = code_chunks once.1
  /\ twice.2 = once.2
  /\ once.2 = Done {| w_repoId := repoIdOf options; w_strategy := upsert;
                      chunksWritten := length embedded; chunksDeleted := 0 |}
  /\ exists row,
      repo_index once.1 !! repoIdOf options = Some row
      /\ repo_index twice.1 = <[repoIdOf options := touchedAt now2 row]> (repo_index once.1).
Proof.
  intros [Hlen Hnd] Hno. cbn zeta. rewrite !(writeToVectorStore_upserts _ _ _ _ Hno).
  unfold upsertChunks.
  rewrite !batchInsertChunks_one by first [exact Hlen | intros _; exact Hnd].
  cbn [fst snd code_chunks repo_index].
  split; [apply executeInsert_idem|]. split; [reflexivity|]. split; [reflexivity|].
  rewrite lookup_insert_eq. eexists. split; [reflexivity|].
  f_equal. destruct (repo_index db !! repoIdOf options); reflexivity.
Qed.

Lemma writeToVectorStore_upsert_twice_witness :
  oneStatement [sampleEmbedded]
  /\ Js.truthy (commitHash (sampleOptions None)) = false
  /\ (let once := writeToVectorStore 1 twoChunkDb [sampleEmbedded] (sampleOptions None) in
      let twice := writeToVectorStore 2 once.1 [sampleEmbedded] (sampleOptions None) in
      code_chunks twice.1 = code_chunks once.1 /\ twice.2 = once.2).
Proof.
  assert (H0 : oneStatement [sampleEmbedded]).
  { split; [vm_compute; lia|]. constructor; [intros []|constructor]. }
  assert (H : Js.truthy (commitHash (sampleOptions None)) = false) by reflexivity.
  split; [exact H0|]. split; [exact H|].
  destruct (writeToVectorStore_upsert_twice 1 2 twoChunkDb [sampleEmbedded]
              (sampleOptions None) H0 H) as (H1 & H2 & _).
  split; [exact H1|exact H2].
Defined.

(** *** What a write leaves of other rows *)

Lemma insertRows_keep embedded k row :
  forall table,
    table !! k = Some row ->
    fold_left (insertRow false) embedded table !! k = Some row.
Proof.
  intros table Hrow. rewrite insertRows_slot, Hrow.
  destruct (slotSteps_some false k embedded row) as (row' & -> & _ & Hsame & _).
  rewrite (Hsame eq_refl). reflexivity.
Qed.

(** X8.  A write for one repository, of chunks that go out in one
    statement with ids that differ, leaves the [RepoIndex] rows of every other repository
    as they were; and when it has a commit hash (skip or full reindex) it
    also leaves every chunk row of another repository as it was, the
    delete being scoped to the repository and the insert never touching a
    row that exists. *)
Theorem writeToVectorStore_other_repositories
        (now : Z) (db : Db) (embedded : list EmbeddedChunk) (options : WriteOptions) :
  oneStatement embedded ->
  let after := writeToVectorStore now db embedded options in
  (forall other, other <> repoIdOf options ->
      repo_index after.1 !! other = repo_index db !! other)
  /\ (Js.truthy (commitHash options) = true ->
      forall k row,
        code_chunks db !! k = Some row ->
        c_repo_id row <> repoIdOf options ->
        code_chunks after.1 !! k = Some row).
Proof.
  intros [Hlen Hnd]. cbn zeta. split.
  - intros other Hne.
    destruct (writeToVectorStore_cases now db embedded options) as [->|[->| ->]].
    + reflexivity.
    + unfold fullReindex.
      destruct (match repo_index db !! repoIdOf options with
                | Some _ => deleteMany (repoIdOf options) (code_chunks db)
                | None => (code_chunks db, 0)
                end) as [table1 deleted].
      rewrite batchInsertChunks_one by first [exact Hlen | discriminate].
      cbn [fst repo_index]. apply lookup_insert_ne. congruence.
    + unfold upsertChunks.
      rewrite batchInsertChunks_one by first [exact Hlen | intros _; exact Hnd].
      cbn [fst repo_index]. apply lookup_insert_ne. congruence.
  - intros Hh k row Hrow Hother. unfold writeToVectorStore.
    destruct (commitHash options) as [[|a h]|]; try discriminate Hh.
    destruct (sameCommit _ _); [exact Hrow|].
    unfold fullReindex.
    destruct (repo_index db !! repoIdOf options); unfold deleteMany;
      rewrite batchInsertChunks_one by first [exact Hlen | discriminate];
      cbn [fst code_chunks].
    + apply insertRows_keep. apply map_lookup_filter_Some. split; [exact Hrow|exact Hother].
    + apply insertRows_keep. exact Hrow.
Qed.

Lemma writeToVectorStore_other_repositories_witness :
  let after := writeToVectorStore 2 sharedDb [sampleEmbedded] (sampleOptions (Some "def")) in
  oneStatement [sampleEmbedded]
  /\ "p/q" <> repoIdOf (sampleOptions (Some "def"))
  /\ Js.truthy (commitHash (sampleOptions (Some "def"))) = true
  /\ code_chunks sharedDb !! "p_q__x_md__L1" = Some foreignChunkRow
  /\ c_repo_id foreignChunkRow <> repoIdOf (sampleOptions (Some "def"))
  /\ (w_strategy <$> outcome after.2) = Some full_reindex
  /\ repo_index after.1 !! "p/q" = repo_index sharedDb !! "p/q"
  /\ code_chunks after.1 !! "p_q__x_md__L1" = Some foreignChunkRow.
Proof.
  cbn zeta.
  assert (H1 : "p/q" <> repoIdOf (sampleOptions (Some "def"))) by (vm_compute; discriminate).
  assert (H2 : Js.truthy (commitHash (sampleOptions (Some "def"))) = true) by reflexivity.
  assert (H3 : code_chunks sharedDb !! "p_q__x_md__L1" = Some foreignChunkRow)
    by (vm_compute; reflexivity).
  assert (H4 : c_repo_id foreignChunkRow <> repoIdOf (sampleOptions (Some "def")))
    by (vm_compute; discriminate).
  assert (H0 : oneStatement [sampleEmbedded]).
  { split; [vm_compute; lia|]. constructor; [intros []|constructor]. }
  destruct (writeToVectorStore_other_repositories 2 sharedDb [sampleEmbedded]
              (sampleOptions (Some "def")) H0) as [Hidx Hrows].
  split; [exact H0|]. split; [exact H1|]. split; [exact H2|]. split; [exact H3|]. split; [exact H4|].
  split; [vm_compute; reflexivity|].
  split; [exact (Hidx "p/q" H1)|exact (Hrows H2 _ _ H3 H4)].
Defined.

(** *** A new commit replaces the chunks of the repository *)

Lemma fullReindex_existing now db embedded options old :
  length embedded <= INSERT_BATCH_SIZE ->
  repo_index db !! repoIdOf options = Some old ->
  exists db' r,
    fullReindex now db (repoIdOf options) embedded options = (db', Done r)
    /\ w_strategy r = full_reindex
    /\ chunksWritten r = length embedded
    /\ chunksDeleted r
       = size (filter (fun kv : string * StoredChunk => c_repo_id kv.2 = repoIdOf options)
                      (code_chunks db))
    /\ (forall k row, code_chunks db' !! k = Some row ->
          c_repo_id row = repoIdOf options -> In k (idsOf embedded))
    /\ exists row,
        repo_index db' !! repoIdOf options = Some row
        /\ r_commitHash row = commitHash options
        /\ r_chunkCount row = length embedded.
Proof.
  intros Hlen Hold.
  destruct (fullReindex_one now db (repoIdOf options) embedded options Hlen)
    as (db' & r & E).
  exists db', r. split; [exact E|].
  apply fullReindex_Done in E as (_ & -> & Htable & row & Hidx & Hc & Hn & _).
  rewrite Hold in Htable. rewrite Hold.
  cbn [w_strategy chunksWritten chunksDeleted deleteMany fst snd] in *.
  split; [reflexivity|]. split; [reflexivity|]. split; [reflexivity|]. split.
  - intros k row0 Hrow Hrepo. rewrite Htable in Hrow.
    destruct (in_dec string_dec k (idsOf embedded)) as [Hin|Hout]; [exact Hin|exfalso].
    unfold idsOf in Hout. rewrite insertRows_other in Hrow by exact Hout.
    apply map_lookup_filter_Some in Hrow as [_ Hne]. exact (Hne Hrepo).
  - exists row. rewrite Hidx, lookup_insert_eq. auto.
Qed.

(** X9.  After a write under commit hash [h1], a write for the same
    repository under a different hash [h2] (each of chunks few enough to
    go out in one statement) is a full reindex: it returns, it reports
    as deleted the rows the repository had, every chunk row the repository
    has afterwards carries an id of the second list, and the [RepoIndex]
    row records [h2] and the length of that list. *)
Theorem writeToVectorStore_new_commit_replaces
        (now1 now2 : Z) (db : Db) (embedded1 embedded2 : list EmbeddedChunk)
        (options1 options2 : WriteOptions) (h1 h2 : string) :
  length embedded1 <= INSERT_BATCH_SIZE -> length embedded2 <= INSERT_BATCH_SIZE ->
  commitHash options1 = Some h1 -> commitHash options2 = Some h2 ->
  h1 <> "" -> h2 <> "" -> h1 <> h2 ->
  repoIdOf options1 = repoIdOf options2 ->
  let first := writeToVectorStore now1 db embedded1 options1 in
  let second := writeToVectorStore now2 first.1 embedded2 options2 in
  exists r,
    second.2 = Done r
    /\ w_strategy r = full_reindex
    /\ chunksWritten r = length embedded2
    /\ chunksDeleted r = chunksOfRepo (repoIdOf options2) first.1
    /\ (forall k row, code_chunks second.1 !! k = Some row ->
          c_repo_id row = repoIdOf options2 -> In k (idsOf embedded2))
    /\ exists row,
        repo_index second.1 !! repoIdOf options2 = Some row
        /\ r_commitHash row = Some h2
        /\ r_chunkCount row = length embedded2.
Proof.
  intros Hl1 Hl2 Hh1 Hh2 Hn1 Hn2 Hne Hrepo. cbn zeta.
  destruct h1 as [|a1 t1]; [congruence|]. destruct h2 as [|a2 t2]; [congruence|].
  destruct (writeToVectorStore_one now1 db embedded1 options1 Hl1) as (db1 & r1 & E1).
  { rewrite Hh1. discriminate. }
  destruct (writeToVectorStore_records_commit now1 db embedded1 options1 a1 t1 db1 r1
              Hh1 E1) as (old & Hold & Hc).
  rewrite E1. cbn [fst]. rewrite Hrepo in Hold.
  assert (Hw : writeToVectorStore now2 db1 embedded2 options2
               = fullReindex now2 db1 (repoIdOf options2) embedded2 options2).
  { unfold writeToVectorStore. rewrite Hh2, Hold. unfold sameCommit.
    rewrite bool_decide_eq_false_2; [reflexivity|]. rewrite Hc. congruence. }
  rewrite Hw.
  destruct (fullReindex_existing now2 db1 embedded2 options2 old Hl2 Hold)
    as (db2 & r & -> & H1 & H2 & H3 & H4 & row & H5 & H6 & H7).
  exists r. cbn [fst snd].
  split; [reflexivity|]. split; [exact H1|]. split; [exact H2|]. split; [exact H3|].
  split; [exact H4|]. exists row. rewrite <- Hh2. auto.
Qed.

Lemma writeToVectorStore_new_commit_replaces_witness :
  let first := writeToVectorStore 1 emptyDb [sampleEmbedded] (sampleOptions (Some "abc")) in
  let second := writeToVectorStore 2 first.1 [otherEmbedded] (sampleOptions (Some "def")) in
  length [sampleEmbedded] <= INSERT_BATCH_SIZE
  /\ length [otherEmbedded] <= INSERT_BATCH_SIZE
  /\ commitHash (sampleOptions (Some "abc")) = Some "abc"
  /\ commitHash (sampleOptions (Some "def")) = Some "def"
  /\ "abc" <> "def"
  /\ code_chunks second.1 !! "o_r__README_md__L1" = None
  /\ exists r,
      second.2 = Done r
      /\ w_strategy r = full_reindex
      /\ chunksDeleted r = chunksOfRepo "o/r" first.1
      /\ chunksOfRepo "o/r" first.1 = 1
      /\ (forall k row, code_chunks second.1 !! k = Some row ->
            c_repo_id row = "o/r" -> In k (idsOf [otherEmbedded])).
Proof.
  cbn zeta.
  assert (H1 : commitHash (sampleOptions (Some "abc")) = Some "abc") by reflexivity.
  assert (H2 : commitHash (sampleOptions (Some "def")) = Some "def") by reflexivity.
  assert (H3 : "abc" <> "") by discriminate.
  assert (H4 : "def" <> "") by discriminate.
  assert (H5 : "abc" <> "def") by discriminate.
  assert (L1 : length [sampleEmbedded] <= INSERT_BATCH_SIZE) by (vm_compute; lia).
  assert (L2 : length [otherEmbedded] <= INSERT_BATCH_SIZE) by (vm_compute; lia).
  destruct (writeToVectorStore_new_commit_replaces 1 2 emptyDb [sampleEmbedded]
              [otherEmbedded] (sampleOptions (Some "abc")) (sampleOptions (Some "def"))
              "abc" "def" L1 L2 H1 H2 H3 H4 H5 eq_refl)
    as (r & Hr & Hs & _ & Hd & Hrows & _).
  split; [exact L1|]. split; [exact L2|]. split; [exact H1|]. split; [exact H2|].
  split; [exact H5|]. split; [vm_compute; reflexivity|].
  exists r. split; [exact Hr|]. split; [exact Hs|]. split; [exact Hd|].
  split; [vm_compute; reflexivity|exact Hrows].
Defined.

(** *** What an upsert writes and what it keeps *)

Lemma lastWritten_nomatch k embedded :
  forall w, ~ In k (idsOf embedded) -> lastWritten k embedded w = w.
Proof.
  unfold lastWritten, idsOf.
  induction embedded as [|e embedded IH]; intros w Hout; cbn [fold_left]; [reflexivity|].
  cbn [map In] in Hout.
  destruct (String.eqb_spec (id (chunk e)) k); [tauto|]. apply IH. tauto.
Qed.

Lemma lastWritten_NoDup embedded e w :
  List.NoDup (idsOf embedded) -> In e embedded ->
  lastWritten (id (chunk e)) embedded w = writtenColumns (rowOf e).
Proof.
  intros Hnd Hin. apply in_split in Hin as (l1 & l2 & ->).
  unfold idsOf in Hnd. rewrite map_app in Hnd. cbn [map] in Hnd.
  apply NoDup_remove_2 in Hnd.
  unfold lastWritten. rewrite fold_left_app. cbn [fold_left].
  rewrite String.eqb_refl. apply lastWritten_nomatch.
  unfold idsOf. intros H. apply Hnd. apply in_or_app. right. exact H.
Qed.

Lemma NoDup_ids_same embedded e e' :
  List.NoDup (idsOf embedded) -> In e embedded -> In e' embedded ->
  id (chunk e) = id (chunk e') -> e = e'.
Proof.
  unfold idsOf. induction embedded as [|x l IH]; intros Hnd Hin Hin' Hid; [contradiction|].
  cbn [map] in Hnd. apply List.NoDup_cons_iff in Hnd as [Hx Hnd].
  destruct Hin as [->|Hin], Hin' as [->|Hin'].
  - reflexivity.
  - exfalso. apply Hx. rewrite Hid. apply in_map with (f := fun e => id (chunk e)), Hin'.
  - exfalso. apply Hx. rewrite <- Hid. apply in_map with (f := fun e => id (chunk e)), Hin.
  - apply IH; assumption.
Qed.

(** X10.  After an upsert of chunks with pairwise distinct ids, few
    enough to go out in one statement, each of them has a row under its id whose content, embedding and timestamp are
    its own.  If the id was free the row is the chunk's own row; if a row
    was stored under the id, every other column of it (path, language, line
    range, symbol name, chunk index) is kept as it was. *)
Theorem writeToVectorStore_upsert_row
        (now : Z) (db : Db) (embedded : list EmbeddedChunk) (options : WriteOptions)
        (e : EmbeddedChunk) :
  length embedded <= INSERT_BATCH_SIZE ->
  Js.truthy (commitHash options) = false ->
  List.NoDup (idsOf embedded) ->
  In e embedded ->
  exists row,
    code_chunks (writeToVectorStore now db embedded options).1 !! id (chunk e) = Some row
    /\ c_content row = content (chunk e)
    /\ c_embedding row = embedding e
    /\ c_embedded_at row = embeddedAt e
    /\ match code_chunks db !! id (chunk e) with
       | Some old => keptColumns row = keptColumns old
       | None => row = rowOf e
       end.
Proof.
  intros Hlen Hno Hnd Hin. rewrite (writeToVectorStore_upserts _ _ _ _ Hno).
  unfold upsertChunks.
  rewrite batchInsertChunks_one by first [exact Hlen | intros _; exact Hnd].
  cbn [fst code_chunks].
  rewrite insertRows_slot.
  assert (Hcols : forall row,
             writtenColumns row = writtenColumns (rowOf e) ->
             c_content row = content (chunk e) /\ c_embedding row = embedding e
             /\ c_embedded_at row = embeddedAt e).
  { intros row H. unfold writtenColumns in H. cbn in H. injection H as -> -> ->. auto. }
  destruct (code_chunks db !! id (chunk e)) as [old|].
  - destruct (slotSteps_some true (id (chunk e)) embedded old)
      as (row & Hrow & Hkept & _ & Hw).
    exists row. split; [exact Hrow|].
    rewrite (lastWritten_NoDup embedded e _ Hnd Hin) in Hw.
    destruct (Hcols row (Hw eq_refl)) as (H1 & H2 & H3). auto.
  - destruct (slotSteps_none true (id (chunk e)) embedded)
      as [[_ Hout]|(first & row & Hfirst & Hid & Hrow & Hkept & _ & Hw)].
    + exfalso. apply Hout. unfold idsOf.
      apply in_map with (f := fun e => id (chunk e)), Hin.
    + assert (first = e) as -> by (apply (NoDup_ids_same embedded); assumption).
      specialize (Hw eq_refl (writtenColumns (rowOf e))).
      rewrite (lastWritten_NoDup embedded e _ Hnd Hin) in Hw.
      exists row. split; [exact Hrow|].
      destruct (Hcols row Hw) as (H1 & H2 & H3).
      split; [exact H1|]. split; [exact H2|]. split; [exact H3|].
      apply row_eta; assumption.
Qed.

(** The stored row of line 46 with an older text and another line range. *)
Lemma writeToVectorStore_upsert_row_witness :
  let stale :=
    {| c_id := "o_r__README_md__L46"; c_repo_id := "o/r"; c_file_path := "README.md";
       c_language := "markdown"; c_content := "old text"; c_start_line := 46;
       c_end_line := 99; c_symbol_name := Some "intro"; c_chunk_index := 7;
       c_embedding := "[0,1]"; c_embedded_at := 5 |} in
  let db := {| code_chunks := {[ "o_r__README_md__L46" := stale ]}; repo_index := ∅ |} in
  length [otherEmbedded] <= INSERT_BATCH_SIZE
  /\ Js.truthy (commitHash (sampleOptions None)) = false
  /\ List.NoDup (idsOf [otherEmbedded])
  /\ In otherEmbedded [otherEmbedded]
  /\ exists row,
      code_chunks (writeToVectorStore 9 db [otherEmbedded] (sampleOptions None)).1
        !! "o_r__README_md__L46" = Some row
      /\ c_content row = sampleReadme
      /\ c_end_line row = 99
      /\ endLine (chunk otherEmbedded) = 48.
Proof.
  cbn zeta.
  set (stale := {| c_id := "o_r__README_md__L46"; c_repo_id := "o/r";
                   c_file_path := "README.md"; c_language := "markdown";
                   c_content := "old text"; c_start_line := 46; c_end_line := 99;
                   c_symbol_name := Some "intro"; c_chunk_index := 7;
                   c_embedding := "[0,1]"; c_embedded_at := 5 |}).
  set (db := {| code_chunks := {[ "o_r__README_md__L46" := stale ]}; repo_index := ∅ |}).
  assert (H1 : Js.truthy (commitHash (sampleOptions None)) = false) by reflexivity.
  assert (H2 : List.NoDup (idsOf [otherEmbedded])).
  { constructor; [intros []|constructor]. }
  assert (H3 : In otherEmbedded [otherEmbedded]) by (left; reflexivity).
  assert (H0 : length [otherEmbedded] <= INSERT_BATCH_SIZE) by (vm_compute; lia).
  split; [exact H0|]. split; [exact H1|]. split; [exact H2|]. split; [exact H3|].
  destruct (writeToVectorStore_upsert_row 9 db [otherEmbedded] (sampleOptions None)
              otherEmbedded H0 H1 H2 H3) as (row & Hrow & Hc & _ & _ & Hold).
  exists row. split; [exact Hrow|]. split; [exact Hc|].
  split; [|reflexivity].
  change (code_chunks db !! id (chunk otherEmbedded)) with (Some stale) in Hold.
  unfold keptColumns in Hold. injection Hold as _ _ _ _ _ He _ _. exact He.
Defined.

(** *** The same commit again *)

(** X30.  A write whose commit hash [h] (a non-empty string: the writer
    takes the empty string for an absent hash) equals the hash stored in
    the repository's [RepoIndex] row changes nothing in the store and
    returns [skipped] with [chunksWritten = 0] and [chunksDeleted = 0].
    Hence writing the same chunks, few enough to go out in one statement,
    under the same hash twice in a row: the first write returns, the second
    returns [skipped], and the store is as the first write left it. *)
Theorem writeToVectorStore_same_commit_skipped
        (now1 now2 : Z) (db : Db) (embedded : list EmbeddedChunk)
        (options : WriteOptions) (h : string) :
  commitHash options = Some h ->
  h <> "" ->
  (forall row,
      repo_index db !! repoIdOf options = Some row ->
      r_commitHash row = Some h ->
      writeToVectorStore now1 db embedded options
      = (db, Done {| w_repoId := repoIdOf options; w_strategy := skipped;
                     chunksWritten := 0; chunksDeleted := 0 |}))
  /\ (length embedded <= INSERT_BATCH_SIZE ->
      let once := writeToVectorStore now1 db embedded options in
      let twice := writeToVectorStore now2 once.1 embedded options in
      (exists r, once.2 = Done r)
      /\ twice = (once.1, Done {| w_repoId := repoIdOf options; w_strategy := skipped;
                                  chunksWritten := 0; chunksDeleted := 0 |})).
Proof.
  intros Hh Hne. split.
  - intros row Hrow Hsame.
    exact (writeToVectorStore_skips now1 db embedded options h row Hh Hne Hrow Hsame).
  - intros Hlen. cbn zeta.
    destruct (writeToVectorStore_one now1 db embedded options Hlen) as (db1 & r1 & E).
    { rewrite Hh. destruct h; [congruence|discriminate]. }
    rewrite E. cbn [fst snd]. split; [eauto|].
    destruct h as [|a h]; [congruence|].
    destruct (writeToVectorStore_records_commit now1 db embedded options a h db1 r1 Hh E)
      as (row & Hrow & Hsame).
    exact (writeToVectorStore_skips now2 db1 embedded options _ row Hh Hne Hrow Hsame).
Qed.

Lemma writeToVectorStore_same_commit_skipped_witness :
  commitHash (sampleOptions (Some "abc")) = Some "abc"
  /\ "abc" <> ""
  /\ repo_index indexedDb !! repoIdOf (sampleOptions (Some "abc")) = Some sampleRow
  /\ r_commitHash sampleRow = Some "abc"
  /\ length [sampleEmbedded] <= INSERT_BATCH_SIZE
  /\ writeToVectorStore 2 indexedDb [sampleEmbedded] (sampleOptions (Some "abc"))
     = (indexedDb, Done {| w_repoId := repoIdOf (sampleOptions (Some "abc"));
                           w_strategy := skipped; chunksWritten := 0; chunksDeleted := 0 |})
  /\ (let once := writeToVectorStore 1 emptyDb [sampleEmbedded] (sampleOptions (Some "abc")) in
      let twice := writeToVectorStore 2 once.1 [sampleEmbedded] (sampleOptions (Some "abc")) in
      (exists r, once.2 = Done r)
      /\ twice = (once.1, Done {| w_repoId := repoIdOf (sampleOptions (Some "abc"));
                                  w_strategy := skipped;
                                  chunksWritten := 0; chunksDeleted := 0 |})).
Proof.
  assert (H1 : commitHash (sampleOptions (Some "abc")) = Some "abc") by reflexivity.
  assert (H2 : "abc" <> "") by discriminate.
  assert (H3 : repo_index indexedDb !! repoIdOf (sampleOptions (Some "abc")) = Some sampleRow)
    by (vm_compute; reflexivity).
  assert (H4 : r_commitHash sampleRow = Some "abc") by reflexivity.
  assert (H5 : length [sampleEmbedded] <= INSERT_BATCH_SIZE) by (vm_compute; lia).
  split; [exact H1|]. split; [exact H2|]. split; [exact H3|]. split; [exact H4|].
  split; [exact H5|]. split.
  - exact (proj1 (writeToVectorStore_same_commit_skipped 2 3 indexedDb [sampleEmbedded]
                    (sampleOptions (Some "abc")) "abc" H1 H2) sampleRow H3 H4).
  - exact (proj2 (writeToVectorStore_same_commit_skipped 1 2 emptyDb [sampleEmbedded]
                    (sampleOptions (Some "abc")) "abc" H1 H2) H5).
Defined.

(** *** The statements behind a write *)

Lemma statementsLoop_lookup embedded :
  forall fuel i n st,
    InsertStatement.statementsLoop fuel embedded i !! n = Some st ->
    let j := i + n * INSERT_BATCH_SIZE in
    j < length embedded
    /\ st = {| InsertStatement.placeholders :=
                 concat (InsertStatement.values j (Js.slice embedded j (j + INSERT_BATCH_SIZE)));
               InsertStatement.arguments :=
                 InsertStatement.params (Js.slice embedded j (j + INSERT_BATCH_SIZE)) |}.
Proof.
  induction fuel as [|fuel IH]; intros i n st; cbn [InsertStatement.statementsLoop];
    [discriminate|].
  destruct (Nat.ltb_spec i (length embedded)) as [Hi|Hi]; [|discriminate].
  destruct n as [|n]; cbn [lookup list_lookup].
  - intros [= <-]. cbn zeta. rewrite Nat.mul_0_l, Nat.add_0_r. split; [exact Hi|reflexivity].
  - intros H. apply IH in H. cbn zeta in H |- *.
    replace (i + S n * INSERT_BATCH_SIZE) with (i + INSERT_BATCH_SIZE + n * INSERT_BATCH_SIZE)
      by lia.
    exact H.
Qed.

(** X23.  The statements of [batchInsertChunks].  The statement of pass
    [n] (counted from 0) is sent with eleven parameters per chunk of its
    batch, and its placeholders are numbered on from [$(550 n + 1)]: the
    index of the chunk in the whole list is used where the index in the
    batch is meant.  A list of at most fifty chunks is written by
    statements whose placeholders are those of their parameters; with more
    than fifty chunks there is a second statement, and every placeholder
    in it is above the number of parameters passed with it. *)
Theorem batchInsertChunks_statements (embedded : list EmbeddedChunk) :
  (forall n st,
      InsertStatement.statements embedded !! n = Some st ->
      InsertStatement.arguments st <> []
      /\ InsertStatement.placeholders st
         = seq (n * (INSERT_BATCH_SIZE * 11) + 1) (length (InsertStatement.arguments st)))
  /\ (length embedded <= INSERT_BATCH_SIZE ->
      Forall wellNumbered (InsertStatement.statements embedded))
  /\ (INSERT_BATCH_SIZE < length embedded ->
      exists st,
        InsertStatement.statements embedded !! 1 = Some st
        /\ Forall (fun p => length (InsertStatement.arguments st) < p)
                  (InsertStatement.placeholders st)
        /\ ~ wellNumbered st).
Proof.
  assert (Hshape : forall n st,
             InsertStatement.statements embedded !! n = Some st ->
             n * INSERT_BATCH_SIZE < length embedded
             /\ 0 < length (InsertStatement.arguments st)
             /\ length (InsertStatement.arguments st) <= INSERT_BATCH_SIZE * 11
             /\ InsertStatement.placeholders st
                = seq (n * (INSERT_BATCH_SIZE * 11) + 1)
                      (length (InsertStatement.arguments st))).
  { intros n st H. apply statementsLoop_lookup in H. cbn zeta in H.
    rewrite Nat.add_0_l in H. destruct H as [Hn ->].
    cbn [InsertStatement.arguments InsertStatement.placeholders].
    rewrite length_params, concat_values, slice_length.
    unfold INSERT_BATCH_SIZE in *.
    split; [exact Hn|]. split; [lia|]. split; [lia|]. f_equal. lia. }
  split; [|split].
  - intros n st H. destruct (Hshape n st H) as (_ & Hpos & _ & Hp).
    split; [|exact Hp]. intros Hnil. rewrite Hnil in Hpos. cbn [length] in Hpos. lia.
  - intros Hlen. apply List.Forall_forall. intros st Hin.
    apply list_elem_of_In, list_elem_of_lookup in Hin as [n Hn].
    destruct (Hshape n st Hn) as (Hlt & _ & _ & Hp).
    assert (n = 0) as -> by (unfold INSERT_BATCH_SIZE in *; lia).
    exact Hp.
  - intros Hlen.
    assert (Hsecond : exists st, InsertStatement.statements embedded !! 1 = Some st).
    { unfold InsertStatement.statements.
      destruct (length embedded) as [|[|fuel]] eqn:E;
        [unfold INSERT_BATCH_SIZE in Hlen; lia|unfold INSERT_BATCH_SIZE in Hlen; lia|].
      cbn [InsertStatement.statementsLoop]. rewrite E.
      destruct (Nat.ltb_spec 0 (S (S fuel))) as [_|]; [|lia].
      destruct (Nat.ltb_spec (0 + INSERT_BATCH_SIZE) (S (S fuel))) as [_|H];
        [|cbn [Nat.add] in H; lia].
      eexists. reflexivity. }
    destruct Hsecond as [st Hst]. exists st. split; [exact Hst|].
    destruct (Hshape 1 st Hst) as (_ & Hpos & Hmax & Hp).
    split.
    + rewrite Hp. apply List.Forall_forall. intros p Hin. apply in_seq in Hin. lia.
    + unfold wellNumbered. rewrite Hp. intros Heq.
      destruct (length (InsertStatement.arguments st)) as [|k]; [lia|].
      cbn [seq] in Heq. injection Heq as Heq _. unfold INSERT_BATCH_SIZE in Heq. lia.
Qed.

Example batchInsertChunks_second_statement :
  (InsertStatement.placeholders <$> InsertStatement.statements (repeat sampleEmbedded 51) !! 1)
  = Some [551; 552; 553; 554; 555; 556; 557; 558; 559; 560; 561]
  /\ (length ∘ InsertStatement.arguments
        <$> InsertStatement.statements (repeat sampleEmbedded 51) !! 1) = Some 11.
Proof. vm_compute. split; reflexivity. Qed.
End VectorStoreMore.

(** ** More on the context assembler *)

Section AssemblerMore.
Import ContextAssembler.
Variable jsLength : string -> nat.

Lemma chunkLoop_trace fileChunks :
  forall acc fileBlock,
    chunkLoop jsLength fileChunks acc fileBlock
    = (let cited := takeWithin jsLength fileChunks (a_citationIndex acc) (a_totalChars acc) in
       ({| a_citationMap := recordAll cited (a_citationMap acc);
           a_citationIndex := a_citationIndex acc + length cited;
           a_totalChars := a_totalChars acc + sizeOf jsLength cited |},
        (fileBlock ++ map renderChunk cited)%list)).
Proof.
  induction fileChunks as [|chunk rest IH]; intros [m idx total] fileBlock;
    cbn [chunkLoop takeWithin a_citationMap a_citationIndex a_totalChars].
  { cbn. rewrite app_nil_r, !Nat.add_0_r. reflexivity. }
  destruct (MAX_CONTEXT_CHARS <? total)%nat.
  { cbn. rewrite app_nil_r, !Nat.add_0_r. reflexivity. }
  rewrite IH. cbn zeta. cbn [a_citationMap a_citationIndex a_totalChars].
  change (renderChunk (idx, chunk)) with (chunkBlock (citationKey idx) chunk).
  set (block := chunkBlock (citationKey idx) chunk).
  set (cited := takeWithin jsLength rest (idx + 1) (total + jsLength block)).
  change (sizeOf jsLength ((idx, chunk) :: cited))
    with (jsLength block + sizeOf jsLength cited).
  cbn [length map recordAll fold_left fst snd].
  change (renderChunk (idx, chunk)) with block.
  f_equal; [|rewrite <- app_assoc; reflexivity].
  f_equal; lia.
Qed.

Lemma fileLoop_trace groups :
  forall acc contextBlocks,
    fileLoop jsLength groups acc contextBlocks
    = (let blocks := traceFiles jsLength groups (a_citationIndex acc) (a_totalChars acc) in
       ({| a_citationMap := recordAll (flatBlocks blocks) (a_citationMap acc);
           a_citationIndex := a_citationIndex acc + length (flatBlocks blocks);
           a_totalChars := a_totalChars acc + sizeOf jsLength (flatBlocks blocks) |},
        (contextBlocks ++ map renderFile blocks)%list)).
Proof.
  induction groups as [|[filePath fileChunks] rest IH]; intros [m idx total] contextBlocks;
    cbn [fileLoop traceFiles a_citationMap a_citationIndex a_totalChars].
  { cbn. rewrite app_nil_r, !Nat.add_0_r. reflexivity. }
  rewrite chunkLoop_trace. cbv beta iota zeta. rewrite IH. cbv beta iota zeta.
  cbn [a_citationMap a_citationIndex a_totalChars].
  unfold flatBlocks. cbn [map snd concat].
  set (cited := takeWithin jsLength fileChunks idx total).
  set (blocks := traceFiles jsLength rest (idx + length cited) (total + sizeOf jsLength cited)).
  assert (Hsize : forall l1 l2 : list Numbered,
             sizeOf jsLength (l1 ++ l2) = sizeOf jsLength l1 + sizeOf jsLength l2).
  { induction l1 as [|x l1 IHl]; intros l2; cbn [app]; [reflexivity|].
    change (sizeOf jsLength (x :: l1 ++ l2))
      with (jsLength (renderChunk x) + sizeOf jsLength (l1 ++ l2)).
    change (sizeOf jsLength (x :: l1))
      with (jsLength (renderChunk x) + sizeOf jsLength l1).
    rewrite IHl. lia. }
  f_equal.
  - unfold recordAll. rewrite fold_left_app, length_app, Hsize. f_equal; lia.
  - rewrite <- app_assoc. reflexivity.
Qed.

(** What [assembleContext] returns, read off the trace of its loops. *)
Lemma assembleContext_trace query chunks repoId ctx :
  assembleContext jsLength query chunks repoId = Some ctx ->
  exists grouped,
    groupByFile chunks = Some grouped
    /\ userPrompt ctx
       = buildUserPrompt query (renderContext (traceFiles jsLength (entries grouped) 1 0))
    /\ citationMap ctx
       = recordAll (flatBlocks (traceFiles jsLength (entries grouped) 1 0)) ∅.
Proof.
  unfold assembleContext. destruct (groupByFile chunks) as [grouped|]; [|discriminate].
  rewrite fileLoop_trace. cbn zeta. cbn [a_citationMap a_citationIndex a_totalChars app].
  intros [= <-]. exists grouped. cbn [userPrompt citationMap]. repeat split; reflexivity.
Qed.


Lemma sizeOf_app (l1 l2 : list Numbered) :
  sizeOf jsLength (l1 ++ l2) = sizeOf jsLength l1 + sizeOf jsLength l2.
Proof.
  induction l1 as [|x l1 IHl]; cbn [app]; [reflexivity|].
  change (sizeOf jsLength (x :: l1 ++ l2))
    with (jsLength (renderChunk x) + sizeOf jsLength (l1 ++ l2)).
  change (sizeOf jsLength (x :: l1))
    with (jsLength (renderChunk x) + sizeOf jsLength l1).
  rewrite IHl. lia.
Qed.

(** *** Grouping *)

(** All chunks held by the groups. *)
Lemma pushTo_keys k chunk g :
  map fst (pushTo k chunk g)
  = if existsb (String.eqb k) (map fst g) then map fst g else (map fst g ++ [k])%list.
Proof.
  induction g as [|[k' l] g IH]; cbn [pushTo map fst existsb app]; [reflexivity|].
  rewrite (String.eqb_sym k k').
  destruct (String.eqb k' k); cbn [map fst orb]; [reflexivity|].
  rewrite IH. destruct (existsb (String.eqb k) (map fst g)); reflexivity.
Qed.

Lemma pushTo_members k chunk g :
  Permutation (members (pushTo k chunk g)) (chunk :: members g).
Proof.
  unfold members.
  induction g as [|[k' l] g IH]; cbn [pushTo map snd concat]; [reflexivity|].
  destruct (String.eqb k' k); cbn [map snd concat].
  - rewrite <- app_assoc. cbn [app].
    rewrite Permutation_app_comm. cbn [app].
    apply perm_skip. rewrite Permutation_app_comm. reflexivity.
  - rewrite IH. apply Permutation_sym, Permutation_middle.
Qed.

Lemma pushTo_wellGrouped chunk g :
  wellGrouped g -> wellGrouped (pushTo (filePath chunk) chunk g).
Proof.
  intros [Hnd Hall]. split.
  - rewrite pushTo_keys.
    destruct (existsb (String.eqb (filePath chunk)) (map fst g)) eqn:E; [exact Hnd|].
    apply List.NoDup_app; [exact Hnd|constructor; [intros []|constructor]|].
    intros x Hx [<-|[]].
    assert (Ht : existsb (String.eqb (filePath chunk)) (map fst g) = true).
    { apply existsb_exists. exists (filePath chunk). split; [exact Hx|apply String.eqb_refl]. }
    congruence.
  - clear Hnd. induction g as [|[k' l] g IH]; cbn [pushTo].
    + constructor; [|constructor]. cbn. constructor; [reflexivity|constructor].
    + apply Forall_cons_1 in Hall as [Hl Hall].
      destruct (String.eqb_spec k' (filePath chunk)) as [->|].
      * constructor; [|exact Hall]. cbn [fst snd] in *.
        apply Forall_app. split; [exact Hl|]. constructor; [reflexivity|constructor].
      * constructor; [exact Hl|]. apply IH, Hall.
Qed.

Lemma groupLoop_spec chunks :
  forall g g',
    groupLoop chunks g = Some g' ->
    wellGrouped g ->
    wellGrouped g' /\ Permutation (members g') (members g ++ chunks).
Proof.
  induction chunks as [|chunk chunks IH]; intros g g' Hloop Hwg; cbn [groupLoop] in Hloop.
  - injection Hloop as <-. rewrite app_nil_r. split; [exact Hwg|reflexivity].
  - destruct (inherited (filePath chunk)); [discriminate|].
    destruct (IH _ _ Hloop (pushTo_wellGrouped chunk g Hwg)) as [Hwg' Hperm].
    split; [exact Hwg'|]. rewrite Hperm, pushTo_members.
    cbn [app]. apply Permutation_middle.
Qed.

(** *** Sorting *)

Lemma insertByLine_perm c l : Permutation (insertByLine c l) (c :: l).
Proof.
  induction l as [|c' l IH]; cbn [insertByLine]; [reflexivity|].
  destruct (startLine c <=? startLine c')%nat; [reflexivity|].
  rewrite IH. apply perm_swap.
Qed.

Lemma sortByLine_perm l : Permutation (sortByLine l) l.
Proof.
  unfold sortByLine. induction l as [|c l IH]; cbn [fold_right]; [reflexivity|].
  rewrite insertByLine_perm. apply perm_skip, IH.
Qed.

Lemma insertByLine_ascending c l :
  ascending (map startLine l) -> ascending (map startLine (insertByLine c l)).
Proof.
  induction l as [|c' l IH]; intros Hl; cbn [insertByLine]; [exact I|].
  destruct (Nat.leb_spec (startLine c) (startLine c')).
  - cbn [map ascending]. split; [assumption|exact Hl].
  - cbn [map] in *. destruct l as [|c'' l].
    + cbn [insertByLine map ascending]. split; [lia|exact I].
    + cbn [ascending] in Hl. destruct Hl as [Hle Hl].
      specialize (IH Hl). cbn [insertByLine] in IH |- *.
      destruct (Nat.leb_spec (startLine c) (startLine c'')).
      * cbn [map ascending] in IH |- *. split; [lia|exact IH].
      * cbn [map ascending] in IH |- *. split; [exact Hle|exact IH].
Qed.

Lemma sortByLine_ascending l : ascending (map startLine (sortByLine l)).
Proof.
  unfold sortByLine. induction l as [|c l IH]; cbn [fold_right]; [exact I|].
  apply insertByLine_ascending, IH.
Qed.

(** *** [Object.entries] reorders, nothing more *)

Lemma insertIndexed_perm {V} (e : N * (string * V)) l :
  Permutation (insertIndexed e l) (e :: l).
Proof.
  induction l as [|e' l IH]; cbn [insertIndexed]; [reflexivity|].
  destruct (e.1 <=? e'.1)%N; [reflexivity|]. rewrite IH. apply perm_swap.
Qed.

Lemma entries_perm {V} (o : list (string * V)) : Permutation (entries o) o.
Proof.
  unfold entries.
  induction o as [|kv o IH]; cbn [entriesSplit]; [reflexivity|].
  destruct (entriesSplit o) as [ix named].
  destruct (arrayIndex kv.1).
  - rewrite insertIndexed_perm. cbn [map snd app]. apply perm_skip, IH.
  - rewrite <- IH. apply Permutation_sym, Permutation_middle.
Qed.

(** What [groupByFile] hands to the loop: one entry per file path, holding
    the chunks of that path in ascending line order, and together the
    chunks that were retrieved. *)
Lemma groupByFile_entries chunks grouped :
  groupByFile chunks = Some grouped ->
  List.NoDup (map fst (entries grouped))
  /\ Forall (fun kv : string * list RetrievedChunk =>
               Forall (fun c => filePath c = kv.1) kv.2
               /\ ascending (map startLine kv.2)) (entries grouped)
  /\ Permutation (members (entries grouped)) chunks.
Proof.
  unfold groupByFile. destruct (groupLoop chunks []) as [g|] eqn:E; [|discriminate].
  intros [= <-].
  destruct (groupLoop_spec chunks [] g E) as [[Hnd Hall] Hperm].
  { split; [constructor|constructor]. }
  set (sorted := map (fun kv : string * list RetrievedChunk => (kv.1, sortByLine kv.2)) g).
  assert (Hkeys : map fst sorted = map fst g).
  { subst sorted. rewrite map_map. reflexivity. }
  assert (Hsorted : Forall (fun kv : string * list RetrievedChunk =>
                              Forall (fun c => filePath c = kv.1) kv.2
                              /\ ascending (map startLine kv.2)) sorted).
  { subst sorted. apply List.Forall_forall. intros kv Hkv.
    apply in_map_iff in Hkv as ([k l] & <- & Hin). cbn [fst snd].
    rewrite List.Forall_forall in Hall. specialize (Hall _ Hin). cbn [fst snd] in Hall.
    split; [|apply sortByLine_ascending].
    rewrite List.Forall_forall in Hall |- *. intros c Hc. apply Hall.
    eapply Permutation_in; [apply sortByLine_perm|exact Hc]. }
  assert (Hmem : Permutation (members sorted) (members g)).
  { subst sorted. unfold members. clear.
    induction g as [|[k l] g IH]; cbn [map snd concat]; [reflexivity|].
    apply Permutation_app; [apply sortByLine_perm|exact IH]. }
  pose proof (entries_perm sorted) as Hent.
  split; [|split].
  - eapply Permutation_NoDup; [apply Permutation_sym, Permutation_map, Hent|].
    rewrite Hkeys. exact Hnd.
  - eapply Permutation_Forall; [apply Permutation_sym, Hent|exact Hsorted].
  - transitivity (members sorted).
    + unfold members. clear -Hent. induction Hent; cbn [map snd concat].
      * reflexivity.
      * apply Permutation_app_head. assumption.
      * rewrite !app_assoc. apply Permutation_app_tail, Permutation_app_comm.
      * etransitivity; eassumption.
    + rewrite Hmem, Hperm. reflexivity.
Qed.

(** *** The blocks under a budget *)

Lemma takeWithin_spec fileChunks :
  forall idx total,
    let cited := takeWithin jsLength fileChunks idx total in
    map fst cited = seq idx (length cited)
    /\ map snd cited = take (length cited) fileChunks
    /\ (forall pre nc post, cited = (pre ++ nc :: post)%list ->
          total + sizeOf jsLength pre <= MAX_CONTEXT_CHARS)
    /\ (length cited < length fileChunks ->
          MAX_CONTEXT_CHARS < total + sizeOf jsLength cited).
Proof.
  induction fileChunks as [|chunk rest IH]; intros idx total; cbn zeta;
    cbn [takeWithin].
  { repeat split; try reflexivity; [intros [|] ? ?; discriminate|].
    cbn [length]. lia. }
  destruct (Nat.ltb_spec MAX_CONTEXT_CHARS total) as [Hover|Hin].
  { repeat split; try reflexivity; [intros [|] ? ?; discriminate|].
    intros _. change (sizeOf jsLength []) with 0. lia. }
  destruct (IH (idx + 1) (total + jsLength (renderChunk (idx, chunk))))
    as (Hnum & Hpre & Hbud & Hstop).
  cbn zeta in Hnum, Hpre, Hbud, Hstop.
  set (cited := takeWithin jsLength rest (idx + 1)
                  (total + jsLength (renderChunk (idx, chunk)))) in *.
  split; [|split; [|split]].
  - cbn [map fst length seq]. rewrite Hnum.
    replace (idx + 1) with (S idx) by lia. reflexivity.
  - cbn [map snd length take]. rewrite Hpre. reflexivity.
  - intros [|x pre] nc post Heq; cbn [app] in Heq.
    + change (sizeOf jsLength []) with 0. lia.
    + injection Heq as <- Heq.
      change (sizeOf jsLength ((idx, chunk) :: pre))
        with (jsLength (renderChunk (idx, chunk)) + sizeOf jsLength pre).
      specialize (Hbud pre nc post Heq). lia.
  - cbn [length]. intros Hlt.
    change (sizeOf jsLength ((idx, chunk) :: cited))
      with (jsLength (renderChunk (idx, chunk)) + sizeOf jsLength cited).
    assert (Hlt' : length cited < length rest) by lia.
    specialize (Hstop Hlt'). lia.
Qed.

Lemma takeWithin_over fileChunks idx total :
  MAX_CONTEXT_CHARS < total -> takeWithin jsLength fileChunks idx total = [].
Proof.
  intros H. destruct fileChunks; cbn [takeWithin]; [reflexivity|].
  destruct (Nat.ltb_spec MAX_CONTEXT_CHARS total); [reflexivity|lia].
Qed.

Lemma traceFiles_spec groups :
  forall idx total,
    let blocks := traceFiles jsLength groups idx total in
    map fst blocks = map fst groups
    /\ Forall2 (fun (fb : string * list Numbered) (kv : string * list RetrievedChunk) =>
                  map snd fb.2 = take (length fb.2) kv.2) blocks groups
    /\ map fst (flatBlocks blocks) = seq idx (length (flatBlocks blocks))
    /\ (forall pre nc post, flatBlocks blocks = (pre ++ nc :: post)%list ->
          total + sizeOf jsLength pre <= MAX_CONTEXT_CHARS)
    /\ (length (flatBlocks blocks) < length (members groups) ->
          MAX_CONTEXT_CHARS < total + sizeOf jsLength (flatBlocks blocks)).
Proof.
  induction groups as [|[filePath fileChunks] rest IH]; intros idx total; cbn zeta;
    cbn [traceFiles].
  { unfold flatBlocks, members. cbn [map snd fst concat length seq].
    split; [reflexivity|]. split; [constructor|]. split; [reflexivity|].
    split; [intros [|] ? ?; discriminate|lia]. }
  destruct (takeWithin_spec fileChunks idx total) as (Hnum & Hpre & Hbud & Hstop).
  cbn zeta in Hnum, Hpre, Hbud, Hstop.
  set (cited := takeWithin jsLength fileChunks idx total) in *.
  destruct (IH (idx + length cited) (total + sizeOf jsLength cited))
    as (Hkeys & Hpres & Hnums & Hbuds & Hstops).
  cbn zeta in Hkeys, Hpres, Hnums, Hbuds, Hstops.
  set (blocks := traceFiles jsLength rest (idx + length cited)
                   (total + sizeOf jsLength cited)) in *.
  assert (Hflat : flatBlocks ((filePath, cited) :: blocks) = (cited ++ flatBlocks blocks)%list)
    by reflexivity.
  assert (Hmem : members ((filePath, fileChunks) :: rest) = (fileChunks ++ members rest)%list)
    by reflexivity.
  split; [|split; [|split; [|split]]].
  - cbn [map fst]. rewrite Hkeys. reflexivity.
  - constructor; [exact Hpre|exact Hpres].
  - rewrite Hflat, map_app, length_app, seq_app, Hnum, Hnums. reflexivity.
  - rewrite Hflat. intros pre nc post Heq.
    destruct (Nat.lt_ge_cases (length pre) (length cited)) as [Hlt|Hge].
    + assert (Hcut : exists post', cited = (pre ++ nc :: post')%list).
      { exists (drop (S (length pre)) cited).
        assert (Ht : take (S (length pre)) (cited ++ flatBlocks blocks)
                     = take (S (length pre)) (pre ++ nc :: post)) by (rewrite Heq; reflexivity).
        rewrite take_app_le in Ht by lia.
        rewrite (take_app_ge pre) in Ht by lia.
        replace (S (length pre) - length pre) with 1 in Ht by lia.
        cbn [take] in Ht.
        rewrite <- (take_drop (S (length pre)) cited) at 1. rewrite Ht.
        rewrite <- app_assoc. reflexivity. }
      destruct Hcut as [post' Hcut]. exact (Hbud pre nc post' Hcut).
    + assert (Hsplit : exists pre', pre = (cited ++ pre')%list
                                    /\ flatBlocks blocks = (pre' ++ nc :: post)%list).
      { exists (drop (length cited) pre). split.
        - assert (Ht : take (length cited) (cited ++ flatBlocks blocks)
                       = take (length cited) (pre ++ nc :: post)) by (rewrite Heq; reflexivity).
          rewrite take_app_length in Ht. rewrite take_app_le in Ht by lia.
          rewrite Ht at 1. apply eq_sym, take_drop.
        - assert (Hd : drop (length cited) (cited ++ flatBlocks blocks)
                       = drop (length cited) (pre ++ nc :: post)) by (rewrite Heq; reflexivity).
          rewrite drop_app_length in Hd. rewrite drop_app_le in Hd by lia. exact Hd. }
      destruct Hsplit as (pre' & -> & Hrest).
      rewrite sizeOf_app. specialize (Hbuds pre' nc post Hrest). lia.
  - rewrite Hflat, Hmem, !length_app, sizeOf_app. intros Hlt.
    destruct (Nat.lt_ge_cases (length cited) (length fileChunks)) as [Hc|Hc].
    + specialize (Hstop Hc). lia.
    + assert (Hr : length (flatBlocks blocks) < length (members rest)).
      { assert (length cited <= length fileChunks).
        { rewrite <- (length_map snd cited), Hpre, length_take. lia. }
        lia. }
      specialize (Hstops Hr). lia.
Qed.

Lemma ascending_tail x l : ascending (x :: l) -> ascending l.
Proof. destruct l as [|y l]; cbn [ascending]; [trivial|tauto]. Qed.

Lemma ascending_take n : forall l, ascending l -> ascending (take n l).
Proof.
  induction n as [|n IH]; intros [|x l] H; cbn [take]; try exact I.
  specialize (IH l (ascending_tail x l H)).
  destruct l as [|y l]; [destruct n; exact I|].
  destruct n as [|n]; [exact I|].
  cbn [take] in IH |- *. cbn [ascending] in H |- *. split; [tauto|exact IH].
Qed.

(** The blocks of a well-grouped list keep its keys, cite chunks of the
    file they stand under, in the order of the group, and leave out a rest
    of the chunks. *)
Lemma traceFiles_grouped groups idx total :
  Forall (fun kv : string * list RetrievedChunk =>
            Forall (fun c => filePath c = kv.1) kv.2
            /\ ascending (map startLine kv.2)) groups ->
  let blocks := traceFiles jsLength groups idx total in
  Forall (fun fb : string * list Numbered =>
            Forall (fun nc : Numbered => filePath nc.2 = fb.1) fb.2
            /\ ascending (map (fun nc : Numbered => startLine nc.2) fb.2)) blocks
  /\ exists rest, Permutation (map snd (flatBlocks blocks) ++ rest) (members groups).
Proof.
  cbn zeta. destruct (traceFiles_spec groups idx total) as (Hkeys & Hpre & _).
  cbn zeta in Hkeys, Hpre. revert Hkeys Hpre.
  generalize (traceFiles jsLength groups idx total) as blocks.
  induction groups as [|[k l] groups IH]; intros blocks Hkeys Hpre Hg.
  { inversion Hpre; subst. split; [constructor|]. exists []. reflexivity. }
  inversion Hpre as [|[k' cited] kv blocks' groups' Hhead Htail]; subst.
  cbn [map fst] in Hkeys. injection Hkeys as -> Hkeys.
  inversion Hg as [|? ? [Hpath Hasc] Hg']; subst. cbn [fst snd] in *.
  destruct (IH blocks' Hkeys Htail Hg') as (Hall & rest & Hperm).
  split.
  - constructor; [|exact Hall]. cbn [fst snd]. split.
    + apply List.Forall_forall. intros nc Hnc.
      rewrite List.Forall_forall in Hpath. apply Hpath.
      assert (Hin : In nc.2 (map snd cited)) by (apply in_map; exact Hnc).
      rewrite Hhead in Hin. apply list_elem_of_In.
      apply (subseteq_take (length cited) l). apply list_elem_of_In. exact Hin.
    + replace (map (fun nc : Numbered => startLine nc.2) cited)
        with (map startLine (map snd cited)) by (rewrite map_map; reflexivity).
      rewrite Hhead. rewrite <- (List.firstn_map startLine). apply ascending_take, Hasc.
  - exists (drop (length cited) l ++ rest)%list.
    change (flatBlocks ((k, cited) :: blocks')) with (cited ++ flatBlocks blocks')%list.
    change (members ((k, l) :: groups)) with (l ++ members groups)%list.
    rewrite map_app, Hhead.
    rewrite <- (take_drop (length cited) l) at 3.
    rewrite <- Hperm. rewrite <- !app_assoc. apply Permutation_app_head.
    rewrite !app_assoc. apply Permutation_app_tail, Permutation_app_comm.
Qed.

(** What an accepted list of chunks turns into. *)
Lemma blocksOf_spec chunks grouped :
  groupByFile chunks = Some grouped ->
  let blocks := blocksOf jsLength chunks in
  blocks = traceFiles jsLength (entries grouped) 1 0
  /\ List.NoDup (map fst blocks)
  /\ Forall (fun fb : string * list Numbered =>
               Forall (fun nc : Numbered => filePath nc.2 = fb.1) fb.2
               /\ ascending (map (fun nc : Numbered => startLine nc.2) fb.2)) blocks
  /\ (exists rest, Permutation (map snd (flatBlocks blocks) ++ rest) chunks)
  /\ map fst (flatBlocks blocks) = seq 1 (length (flatBlocks blocks))
  /\ (forall pre nc post, flatBlocks blocks = (pre ++ nc :: post)%list ->
        sizeOf jsLength pre <= MAX_CONTEXT_CHARS)
  /\ (length (flatBlocks blocks) < length chunks ->
        MAX_CONTEXT_CHARS < sizeOf jsLength (flatBlocks blocks)).
Proof.
  intros Hg. cbn zeta. unfold blocksOf. rewrite Hg.
  destruct (groupByFile_entries chunks grouped Hg) as (Hnd & Hall & Hperm).
  destruct (traceFiles_spec (entries grouped) 1 0) as (Hkeys & _ & Hnum & Hbud & Hstop).
  cbn zeta in Hkeys, Hnum, Hbud, Hstop.
  destruct (traceFiles_grouped (entries grouped) 1 0 Hall) as (Hin & rest & Hrest).
  split; [reflexivity|]. split; [rewrite Hkeys; exact Hnd|]. split; [exact Hin|].
  split; [exists rest; rewrite Hrest; exact Hperm|]. split; [exact Hnum|].
  split; [exact Hbud|].
  intros Hlt. apply Hstop. rewrite (Permutation_length Hperm). exact Hlt.
Qed.

(** *** The citation map *)

Lemma recordAll_lookup cited :
  forall m k v,
    List.NoDup (map fst cited) ->
    recordAll cited m !! k = Some v
    <-> (exists n c, In (n, c) cited /\ k = citationKey n /\ v = citationOf c)
        \/ (m !! k = Some v /\ forall n, In n (map fst cited) -> k <> citationKey n).
Proof.
  induction cited as [|[n c] cited IH]; intros m k v Hnd.
  { cbn [recordAll fold_left map]. split.
    - intros H. right. split; [exact H|intros ? []].
    - intros [(? & ? & [] & _)|[H _]]. exact H. }
  inversion Hnd as [|? ? Hfresh Hnd']; subst.
  change (recordAll ((n, c) :: cited) m)
    with (recordAll cited (<[citationKey n := citationOf c]> m)).
  rewrite (IH _ k v Hnd'). split.
  - intros [(n0 & c0 & Hin & -> & ->)|[Hm Hk]].
    + left. exists n0, c0. split; [right; exact Hin|split; reflexivity].
    + destruct (decide (k = citationKey n)) as [->|Hne].
      * rewrite lookup_insert_eq in Hm. injection Hm as <-.
        left. exists n, c. split; [left; reflexivity|split; reflexivity].
      * rewrite lookup_insert_ne in Hm by congruence.
        right. split; [exact Hm|]. intros n0 [<-|Hin]; [exact Hne|exact (Hk n0 Hin)].
  - intros [(n0 & c0 & [Heq|Hin] & -> & ->)|[Hm Hk]].
    + injection Heq as <- <-. right. split; [apply lookup_insert_eq|].
      intros n0 Hin Heq. apply citationKey_inj in Heq as ->. exact (Hfresh Hin).
    + left. exists n0, c0. split; [exact Hin|split; reflexivity].
    + right. split.
      * rewrite lookup_insert_ne; [exact Hm|]. intros Heq. apply (Hk n); [left; reflexivity|].
        symmetry. exact Heq.
      * intros n0 Hin. apply Hk. right. exact Hin.
Qed.

Lemma recordAll_size cited :
  forall m,
    List.NoDup (map fst cited) ->
    (forall n, In n (map fst cited) -> m !! citationKey n = None) ->
    size (recordAll cited m) = size m + length cited.
Proof.
  induction cited as [|[n c] cited IH]; intros m Hnd Hfresh.
  { cbn [recordAll fold_left length]. lia. }
  inversion Hnd as [|? ? Hn Hnd']; subst.
  change (recordAll ((n, c) :: cited) m)
    with (recordAll cited (<[citationKey n := citationOf c]> m)).
  rewrite IH; [|exact Hnd'|].
  - rewrite map_size_insert_None by (apply Hfresh; left; reflexivity).
    cbn [length]. lia.
  - intros n0 Hin. rewrite lookup_insert_ne.
    + apply Hfresh. right. exact Hin.
    + intros Heq. apply citationKey_inj in Heq as ->. exact (Hn Hin).
Qed.

Lemma groupLoop_none chunks :
  forall g, groupLoop chunks g = None <-> Exists (fun c => inherited (filePath c) = true) chunks.
Proof.
  induction chunks as [|chunk chunks IH]; intros g; cbn [groupLoop].
  { split; [discriminate|intros H; inversion H]. }
  destruct (inherited (filePath chunk)) eqn:E.
  - split; [intros _; left; exact E|reflexivity].
  - rewrite IH. split; [intros H; right; exact H|].
    intros H. inversion H as [? ? Hh|? ? Ht]; subst; [congruence|exact Ht].
Qed.

(** X11.  The context section stays within its budget up to the last
    block: the blocks written before any block of the prompt hold at most
    [MAX_CONTEXT_CHARS] characters together, and a retrieved chunk is left
    without a block only when the blocks written hold more than that. *)
Theorem assembleContext_budget
        (query : string) (chunks : list RetrievedChunk) (repoId : string)
        (ctx : AssembledContext) :
  assembleContext jsLength query chunks repoId = Some ctx ->
  let blocks := blocksOf jsLength chunks in
  userPrompt ctx = buildUserPrompt query (renderContext blocks)
  /\ (forall pre nc post, flatBlocks blocks = (pre ++ nc :: post)%list ->
        sizeOf jsLength pre <= MAX_CONTEXT_CHARS)
  /\ (length (flatBlocks blocks) < length chunks ->
        MAX_CONTEXT_CHARS < sizeOf jsLength (flatBlocks blocks)).
Proof.
  intros Hctx. cbn zeta.
  destruct (assembleContext_trace _ _ _ _ Hctx) as (grouped & Hg & Hup & _).
  destruct (blocksOf_spec chunks grouped Hg) as (Hb & _ & _ & _ & _ & Hbud & Hstop).
  cbn zeta in Hb, Hbud, Hstop. rewrite <- Hb in Hup.
  split; [exact Hup|]. split; [exact Hbud|exact Hstop].
Qed.

(** X12.  The context section names each file once; the blocks under a
    file header are chunks of that file, in ascending order of start line;
    the blocks are numbered 1, 2, ... in the order of the prompt; and the
    chunks with a block are retrieved chunks, none of them used twice. *)
Theorem assembleContext_blocks_grouped
        (query : string) (chunks : list RetrievedChunk) (repoId : string)
        (ctx : AssembledContext) :
  assembleContext jsLength query chunks repoId = Some ctx ->
  let blocks := blocksOf jsLength chunks in
  userPrompt ctx = buildUserPrompt query (renderContext blocks)
  /\ List.NoDup (map fst blocks)
  /\ Forall (fun fb : string * list Numbered =>
               Forall (fun nc : Numbered => filePath nc.2 = fb.1) fb.2
               /\ ascending (map (fun nc : Numbered => startLine nc.2) fb.2)) blocks
  /\ map fst (flatBlocks blocks) = seq 1 (length (flatBlocks blocks))
  /\ exists rest, Permutation (map snd (flatBlocks blocks) ++ rest) chunks.
Proof.
  intros Hctx. cbn zeta.
  destruct (assembleContext_trace _ _ _ _ Hctx) as (grouped & Hg & Hup & _).
  destruct (blocksOf_spec chunks grouped Hg) as (Hb & Hnd & Hall & Hrest & Hnum & _).
  cbn zeta in Hb, Hnd, Hall, Hrest, Hnum. rewrite <- Hb in Hup.
  split; [exact Hup|]. split; [exact Hnd|]. split; [exact Hall|].
  split; [exact Hnum|exact Hrest].
Qed.

(** X13.  The citation map holds the markers of the prompt and nothing
    else: it has one entry per numbered block, and a key maps to a
    citation exactly when it is the marker of a block and the citation is
    that of the block's chunk. *)
Theorem assembleContext_citationMap_exact
        (query : string) (chunks : list RetrievedChunk) (repoId : string)
        (ctx : AssembledContext) :
  assembleContext jsLength query chunks repoId = Some ctx ->
  let cited := flatBlocks (blocksOf jsLength chunks) in
  userPrompt ctx = buildUserPrompt query (renderContext (blocksOf jsLength chunks))
  /\ size (citationMap ctx) = length cited
  /\ length cited <= length chunks
  /\ forall k v,
       citationMap ctx !! k = Some v
       <-> exists n c, In (n, c) cited /\ k = citationKey n /\ v = citationOf c.
Proof.
  intros Hctx. cbn zeta.
  destruct (assembleContext_trace _ _ _ _ Hctx) as (grouped & Hg & Hup & Hmap).
  destruct (blocksOf_spec chunks grouped Hg) as (Hb & _ & _ & [rest Hrest] & Hnum & _).
  cbn zeta in Hb, Hrest, Hnum. rewrite <- Hb in Hup, Hmap.
  assert (Hnd : List.NoDup (map fst (flatBlocks (blocksOf jsLength chunks)))).
  { rewrite Hnum. apply List.seq_NoDup. }
  split; [exact Hup|]. split; [|split].
  - rewrite Hmap, recordAll_size; [rewrite map_size_empty; lia|exact Hnd|].
    intros n _. apply lookup_empty.
  - rewrite <- (Permutation_length Hrest), length_app, length_map. lia.
  - intros k v. rewrite Hmap, (recordAll_lookup _ ∅ k v Hnd). split.
    + intros [H|[H _]]; [exact H|]. rewrite lookup_empty in H. discriminate.
    + intros H. left. exact H.
Qed.

(** X14.  Assembling fails exactly when a retrieved chunk has a file path
    that names a property every object inherits ([constructor],
    [toString], [__proto__], ...): [grouped[chunk.filePath]] is then
    truthy without being an array, and [push] is not a function. *)
Theorem assembleContext_throws_iff
        (query : string) (chunks : list RetrievedChunk) (repoId : string) :
  assembleContext jsLength query chunks repoId = None
  <-> Exists (fun c => In (filePath c) inheritedKeys) chunks.
Proof.
  assert (Hi : forall k, inherited k = true <-> In k inheritedKeys).
  { intros k. unfold inherited. rewrite existsb_exists. split.
    - intros (x & Hin & Heq). apply String.eqb_eq in Heq as ->. exact Hin.
    - intros Hin. exists k. split; [exact Hin|apply String.eqb_refl]. }
  transitivity (groupLoop chunks [] = None).
  - unfold assembleContext, groupByFile.
    destruct (groupLoop chunks []) as [g|]; [|split; reflexivity].
    destruct (fileLoop jsLength _ _ _). split; discriminate.
  - rewrite groupLoop_none. split; intros H; eapply List.Exists_impl; try exact H;
      intros c Hc; apply Hi; exact Hc.
Qed.

(** *** The order of the files *)

Lemma groupLoop_keys chunks :
  forall g g',
    groupLoop chunks g = Some g' ->
    map fst g' = firstSeen (map fst g) (map filePath chunks).
Proof.
  induction chunks as [|chunk chunks IH]; intros g g' H; cbn [groupLoop] in H.
  - injection H as <-. reflexivity.
  - destruct (inherited (filePath chunk)); [discriminate|].
    rewrite (IH _ _ H), pushTo_keys. reflexivity.
Qed.

Lemma firstSeen_In l :
  forall seen x, In x (firstSeen seen l) -> In x seen \/ In x l.
Proof.
  induction l as [|y l IH]; intros seen x H; cbn [firstSeen] in H; [left; exact H|].
  apply IH in H as [H|H]; [|right; right; exact H].
  destruct (existsb (String.eqb y) seen); [left; exact H|].
  apply in_app_or in H as [H|[<-|[]]]; [left; exact H|right; left; reflexivity].
Qed.

Lemma entries_named {V} (o : list (string * V)) :
  Forall (fun kv : string * V => arrayIndex kv.1 = None) o -> entries o = o.
Proof.
  intros H. assert (Hsplit : entriesSplit o = ([], o)).
  { induction H as [|kv o Hkv _ IH]; [reflexivity|].
    cbn [entriesSplit]. rewrite IH, Hkv. reflexivity. }
  unfold entries. rewrite Hsplit. reflexivity.
Qed.

(** X29.  The files of the context section stand in the order in which
    their first chunk was retrieved, whenever no file path is an array
    index (a canonical numeral, which [Object.entries] would move to the
    front). *)
Theorem assembleContext_files_in_retrieval_order
        (query : string) (chunks : list RetrievedChunk) (repoId : string)
        (ctx : AssembledContext) :
  assembleContext jsLength query chunks repoId = Some ctx ->
  Forall (fun c => arrayIndex (filePath c) = None) chunks ->
  userPrompt ctx = buildUserPrompt query (renderContext (blocksOf jsLength chunks))
  /\ map fst (blocksOf jsLength chunks) = firstSeen [] (map filePath chunks).
Proof.
  intros Hctx Hpaths.
  destruct (assembleContext_trace _ _ _ _ Hctx) as (grouped & Hg & Hup & _).
  unfold blocksOf. rewrite Hg. split; [exact Hup|].
  destruct (traceFiles_spec (entries grouped) 1 0) as (Hkeys & _).
  cbn zeta in Hkeys. rewrite Hkeys.
  unfold groupByFile in Hg. destruct (groupLoop chunks []) as [g|] eqn:E; [|discriminate].
  injection Hg as <-. apply groupLoop_keys in E. cbn [map] in E.
  assert (Hsorted : map fst (map (fun kv : string * list RetrievedChunk =>
                                    (kv.1, sortByLine kv.2)) g) = map fst g).
  { rewrite map_map. reflexivity. }
  rewrite entries_named; [rewrite Hsorted; exact E|].
  apply List.Forall_forall. intros kv Hkv.
  assert (Hk : In kv.1 (map fst g)).
  { rewrite <- Hsorted. apply in_map, Hkv. }
  rewrite E in Hk. apply firstSeen_In in Hk as [[]|Hk].
  apply in_map_iff in Hk as (c & <- & Hc).
  rewrite List.Forall_forall in Hpaths. exact (Hpaths c Hc).
Qed.
End AssemblerMore.

Lemma assembleContext_budget_witness :
  exists ctx,
    sampleContext = Some ctx
    /\ let blocks := blocksOf String.length sampleRetrieved in
       ContextAssembler.userPrompt ctx
       = ContextAssembler.buildUserPrompt "where is auth?" (renderContext blocks)
       /\ (forall pre nc post, flatBlocks blocks = (pre ++ nc :: post)%list ->
             sizeOf String.length pre <= ContextAssembler.MAX_CONTEXT_CHARS)
       /\ (length (flatBlocks blocks) < length sampleRetrieved ->
             ContextAssembler.MAX_CONTEXT_CHARS < sizeOf String.length (flatBlocks blocks)).
Proof.
  destruct sampleContext as [ctx|] eqn:E; [|vm_compute in E; discriminate E].
  exists ctx. split; [reflexivity|].
  exact (assembleContext_budget String.length "where is auth?" sampleRetrieved "o/r" ctx E).
Defined.

Lemma assembleContext_blocks_grouped_witness :
  exists ctx,
    sampleContext = Some ctx
    /\ let blocks := blocksOf String.length sampleRetrieved in
       ContextAssembler.userPrompt ctx
       = ContextAssembler.buildUserPrompt "where is auth?" (renderContext blocks)
       /\ List.NoDup (map fst blocks)
       /\ Forall (fun fb : string * list Numbered =>
                    Forall (fun nc : Numbered => ContextAssembler.filePath nc.2 = fb.1) fb.2
                    /\ ascending (map (fun nc : Numbered => ContextAssembler.startLine nc.2)
                                      fb.2)) blocks
       /\ map fst (flatBlocks blocks) = seq 1 (length (flatBlocks blocks))
       /\ exists rest, Permutation (map snd (flatBlocks blocks) ++ rest) sampleRetrieved.
Proof.
  destruct sampleContext as [ctx|] eqn:E; [|vm_compute in E; discriminate E].
  exists ctx. split; [reflexivity|].
  exact (assembleContext_blocks_grouped String.length "where is auth?"
           sampleRetrieved "o/r" ctx E).
Defined.

Lemma assembleContext_citationMap_exact_witness :
  exists ctx,
    sampleContext = Some ctx
    /\ let cited := flatBlocks (blocksOf String.length sampleRetrieved) in
       ContextAssembler.userPrompt ctx
       = ContextAssembler.buildUserPrompt "where is auth?"
           (renderContext (blocksOf String.length sampleRetrieved))
       /\ size (ContextAssembler.citationMap ctx) = length cited
       /\ length cited <= length sampleRetrieved
       /\ forall k v,
            ContextAssembler.citationMap ctx !! k = Some v
            <-> exists n c, In (n, c) cited /\ k = ContextAssembler.citationKey n
                            /\ v = ContextAssembler.citationOf c.
Proof.
  destruct sampleContext as [ctx|] eqn:E; [|vm_compute in E; discriminate E].
  exists ctx. split; [reflexivity|].
  exact (assembleContext_citationMap_exact String.length "where is auth?"
           sampleRetrieved "o/r" ctx E).
Defined.

(** ** Citations of the prompt *)

Section CitationsTotal.
Import ContextAssembler.
Variable jsLength : string -> nat.

(** C7.  The user prompt is the rendering of the files and numbered blocks
    the assembler writes for the retrieved chunks, and it has a block as
    soon as a chunk was retrieved.  Every block opens with its marker
    ["[N]"], and for every marker of the prompt [citationMap["[N]"]] is
    there and records the file path, start line, end line and symbol name
    of the chunk shown under it. *)
Theorem assembleContext_citations_total
        (query : string) (chunks : list RetrievedChunk) (repoId : string)
        (ctx : AssembledContext) :
  assembleContext jsLength query chunks repoId = Some ctx ->
  let blocks := blocksOf jsLength chunks in
  userPrompt ctx = buildUserPrompt query (renderContext blocks)
  /\ (chunks <> [] -> flatBlocks blocks <> [])
  /\ Forall (fun fb : string * list Numbered =>
               Forall (fun nc : Numbered =>
                         (exists rest,
                             renderChunk nc = "[" ++ pretty nc.1 ++ "]" ++ rest)
                         /\ citationMap ctx !! ("[" ++ pretty nc.1 ++ "]")
                            = Some {| c_filePath := filePath nc.2;
                                      c_startLine := startLine nc.2;
                                      c_endLine := endLine nc.2;
                                      c_symbolName := symbolName nc.2 |})
                      fb.2)
            blocks.
Proof.
  intros Hctx. cbn zeta.
  destruct (assembleContext_trace jsLength _ _ _ _ Hctx) as (grouped & Hg & Hup & Hmap).
  destruct (blocksOf_spec jsLength chunks grouped Hg)
    as (Hb & _ & _ & _ & Hnum & _ & Hstop).
  cbn zeta in Hb, Hnum, Hstop. rewrite <- Hb in Hup, Hmap.
  split; [exact Hup|]. split.
  - intros Hne Hnil. rewrite Hnil in Hstop.
    destruct chunks as [|c rest]; [congruence|].
    cbn [length] in Hstop. specialize (Hstop ltac:(lia)).
    change (sizeOf jsLength []) with 0 in Hstop. lia.
  - assert (Hnd : List.NoDup (map fst (flatBlocks (blocksOf jsLength chunks)))).
    { rewrite Hnum. apply List.seq_NoDup. }
    apply List.Forall_forall. intros fb Hfb.
    apply List.Forall_forall. intros [n c] Hnc. cbn [fst snd]. split.
    + unfold renderChunk, chunkBlock, chunkHeader, citationKey. cbn [fst snd].
      destruct (Js.truthy (symbolName c)); rewrite !string_app_assoc; eexists; reflexivity.
    + change ("[" ++ pretty n ++ "]") with (citationKey n).
      change {| c_filePath := filePath c; c_startLine := startLine c;
                c_endLine := endLine c; c_symbolName := symbolName c |}
        with (citationOf c).
      rewrite Hmap. apply (recordAll_lookup _ ∅ _ _ Hnd). left.
      exists n, c. split; [|split; reflexivity].
      unfold flatBlocks. apply in_concat. exists fb.2.
      split; [apply in_map, Hfb|exact Hnc].
Qed.

End CitationsTotal.

Lemma assembleContext_citations_total_witness :
  exists ctx,
    sampleContext = Some ctx
    /\ map fst (flatBlocks (blocksOf String.length sampleRetrieved)) = [1; 2]
    /\ Forall (fun fb : string * list Numbered =>
                 Forall (fun nc : Numbered =>
                           ContextAssembler.citationMap ctx !! ("[" ++ pretty nc.1 ++ "]")
                           = Some {| ContextAssembler.c_filePath :=
                                       ContextAssembler.filePath nc.2;
                                     ContextAssembler.c_startLine :=
                                       ContextAssembler.startLine nc.2;
                                     ContextAssembler.c_endLine :=
                                       ContextAssembler.endLine nc.2;
                                     ContextAssembler.c_symbolName :=
                                       ContextAssembler.symbolName nc.2 |})
                        fb.2)
              (blocksOf String.length sampleRetrieved).
Proof.
  destruct sampleContext as [ctx|] eqn:E; [|vm_compute in E; discriminate E].
  exists ctx. split; [reflexivity|]. split; [vm_compute; reflexivity|].
  destruct (assembleContext_citations_total String.length "where is auth?"
              sampleRetrieved "o/r" ctx E) as (_ & _ & Hall).
  eapply Forall_impl; [exact Hall|]. intros fb Hfb.
  eapply Forall_impl; [exact Hfb|]. intros nc [_ Hnc]. exact Hnc.
Defined.

(** ** More on the job *)

Section JobMore.
Import AstChunker FileFilter GithubFetcher VectorStoreWriter IndexRepoJob.

Example readme_run :
  String.length readmeText = 36
  /\ (processIndexRepoJob readmeServices lockOnlyJob freshWorld).1
     = Ok {| j_repoId := "o/r"; j_strategy := full_reindex; j_chunksWritten := 1 |}.
Proof. vm_compute. split; reflexivity. Qed.

(** The job, step by step. *)
Lemma processIndexRepoJob_steps svc data w :
  processIndexRepoJob svc data w
  = match parseGitHubUrl (githubUrl data) with
    | Throw e => (Throw e, logged w [UpdateProgress 5])
    | Ok (owner, repo) =>
        match repos_get svc owner repo (githubToken data) with
        | Throw e => (Throw e, logged w [UpdateProgress 5; ReposGet owner repo])
        | Ok repoData =>
            let pre := preamble data owner repo repoData in
            match runIngestionPipeline svc (githubUrl data) (githubToken data) with
            | Throw e => (Throw e, logged w pre)
            | Ok out =>
                match o_chunks out with
                | [] =>
                    (Ok {| j_repoId := o_repoId out; j_strategy := skipped;
                           j_chunksWritten := 0 |},
                     logged w (pre ++ [UpdateProgress 40]))
                | _ :: _ =>
                    match embedChunks svc (o_chunks out) with
                    | Throw e =>
                        (Throw e,
                         logged w (pre ++ [UpdateProgress 40;
                                           EmbedChunks (length (o_chunks out))]))
                    | Ok er =>
                        let res := writeToVectorStore (clock svc) (db w) (embedded er)
                                     (jobOptions svc data owner repo repoData out er) in
                        let events :=
                          (pre ++ [UpdateProgress 40;
                                   EmbedChunks (length (o_chunks out));
                                   UpdateProgress 80;
                                   WriteToVectorStore (length (embedded er))])%list in
                        match res.2 with
                        | Done result =>
                            (Ok {| j_repoId := o_repoId out;
                                   j_strategy := w_strategy result;
                                   j_chunksWritten := chunksWritten result |},
                             {| db := res.1;
                                log := (log w ++ events ++ [UpdateProgress 100])%list |})
                        | Refused why =>
                            (Throw (clientError svc why),
                             {| db := res.1; log := (log w ++ events)%list |})
                        end
                    end
                end
            end
        end
    end.
Proof.
  unfold processIndexRepoJob, mbind, M_bind, mret, M_ret, emit, lift, logged, preamble.
  cbn [db log].
  destruct (parseGitHubUrl (githubUrl data)) as [[owner repo]|e]; [|reflexivity].
  cbn [db log].
  destruct (repos_get svc owner repo (githubToken data)) as [repoData|e]; [|
    rewrite <- !app_assoc; reflexivity].
  cbn [db log].
  destruct (runIngestionPipeline svc (githubUrl data) (githubToken data)) as [out|e]; [|
    rewrite <- !app_assoc; reflexivity].
  cbn [db log].
  destruct (o_chunks out) as [|c cs] eqn:Hc.
  { rewrite <- !app_assoc. reflexivity. }
  cbn [db log].
  destruct (embedChunks svc (c :: cs)) as [er|e]; [|rewrite <- !app_assoc; reflexivity].
  cbn [db log]. unfold writePhase, jobOptions. cbn [db log].
  destruct (writeToVectorStore _ _ _ _) as [db' [result|why]]; cbn [fst snd db log];
    rewrite <- !app_assoc; reflexivity.
Qed.

Lemma no_write_preamble data owner repo repoData :
  forallb (fun ev => negb (isWrite ev)) (preamble data owner repo repoData) = true
  /\ ~ In (UpdateProgress 100) (preamble data owner repo repoData).
Proof.
  split; [reflexivity|]. unfold preamble. cbn [In].
  intros [H|[H|[H|[H|[H|[]]]]]]; discriminate H.
Qed.

(** X15.  An error of the URL parser, of the repository lookup, of the
    ingestion pipeline or of the embedder ends the run with that error: the
    job catches nothing.  The database is then as it was, the vector store
    writer has not been called, and progress 100 has not been reported. *)
Theorem processIndexRepoJob_failure_writes_nothing
        (svc : Services) (data : IndexRepoJobData) (w : World) (e : string) :
  failsBeforeWrite svc data e ->
  exists events,
    processIndexRepoJob svc data w = (Throw e, logged w events)
    /\ forallb (fun ev => negb (isWrite ev)) events = true
    /\ ~ In (UpdateProgress 100) events.
Proof.
  rewrite processIndexRepoJob_steps.
  intros [Hurl|(owner & repo & Hurl & [Hget|(repoData & Hget & [Hrun|(out & Hrun & Hc & Hem)])])];
    rewrite Hurl; try rewrite Hget; cbn zeta; try rewrite Hrun.
  - eexists. split; [reflexivity|]. split; [reflexivity|]. cbn [In]. intuition discriminate.
  - eexists. split; [reflexivity|]. split; [reflexivity|]. cbn [In]. intuition discriminate.
  - eexists. split; [reflexivity|]. apply no_write_preamble.
  - destruct (o_chunks out) as [|c cs]; [congruence|]. rewrite Hem.
    eexists. split; [reflexivity|]. split; [reflexivity|].
    unfold preamble. cbn [In app]. intuition discriminate.
Qed.

(** X16.  What a run that returns says about the store, when the
    embedded chunks go out in one statement with ids that differ: with
    strategy
    [skipped] the database is as it was and no chunk is reported written;
    otherwise the writer was called once, with as many chunks as the run
    reports, and the [RepoIndex] row of [owner/repo] (owner and repository
    as parsed from the URL) counts these chunks and is stamped with the
    clock. *)
Theorem processIndexRepoJob_result_matches_store
        (svc : Services) (data : IndexRepoJobData) (w w' : World)
        (r : IndexRepoJobResult) :
  processIndexRepoJob svc data w = (Ok r, w') ->
  (forall out er,
      runIngestionPipeline svc (githubUrl data) (githubToken data) = Ok out ->
      embedChunks svc (o_chunks out) = Ok er ->
      oneStatement (embedded er)) ->
  exists owner repo events,
    parseGitHubUrl (githubUrl data) = Ok (owner, repo)
    /\ log w' = (log w ++ events)%list
    /\ match j_strategy r with
       | skipped => db w' = db w /\ j_chunksWritten r = 0
       | _ =>
           List.filter isWrite events = [WriteToVectorStore (j_chunksWritten r)]
           /\ exists row,
               repo_index (db w') !! storeKey owner repo = Some row
               /\ r_chunkCount row = j_chunksWritten r
               /\ r_updatedAt row = clock svc
       end.
Proof.
  rewrite processIndexRepoJob_steps.
  destruct (parseGitHubUrl (githubUrl data)) as [[owner repo]|e0] eqn:Hurl; [|discriminate].
  destruct (repos_get svc owner repo (githubToken data)) as [repoData|e0]; [|discriminate].
  cbn zeta.
  destruct (runIngestionPipeline svc (githubUrl data) (githubToken data))
    as [out|e0]; [|discriminate].
  destruct (o_chunks out) as [|c cs] eqn:Hc.
  { intros [= <- <-] _. exists owner, repo. eexists. split; [reflexivity|].
    split; [reflexivity|]. cbn [j_strategy j_chunksWritten]. split; reflexivity. }
  destruct (embedChunks svc (c :: cs)) as [er|e0]; [|discriminate].
  set (options := jobOptions svc data owner repo repoData out er).
  destruct (writeToVectorStore (clock svc) (db w) (embedded er) options)
    as [db' [result|why]] eqn:E; cbn [fst snd]; [|discriminate].
  intros [= <- <-] _. exists owner, repo. eexists. split; [reflexivity|].
  split; [reflexivity|]. cbn [j_strategy j_chunksWritten db].
  assert (Hkey : storeKey owner repo = repoIdOf options) by reflexivity.
  assert (Hlog : forall n,
             List.filter isWrite
               ((preamble data owner repo repoData
                 ++ [UpdateProgress 40; EmbedChunks (length (c :: cs)); UpdateProgress 80;
                     WriteToVectorStore n]) ++ [UpdateProgress 100])
             = [WriteToVectorStore n]) by reflexivity.
  destruct (writeToVectorStore_cases (clock svc) (db w) (embedded er) options)
    as [E'|[E'|E']]; rewrite E' in E.
  - injection E as <- <-. cbn [skippedResult w_strategy chunksWritten]. split; reflexivity.
  - apply fullReindex_Done in E as (_ & -> & _ & row & Hidx & _ & Hn & Hnow).
    cbn [w_strategy chunksWritten]. split; [apply Hlog|].
    exists row. rewrite Hkey, Hidx, lookup_insert_eq. auto.
  - apply upsertChunks_Done in E as (_ & _ & -> & _ & row & Hidx & Hn & Hnow).
    cbn [w_strategy chunksWritten]. split; [apply Hlog|].
    exists row. rewrite Hkey, Hidx, lookup_insert_eq. auto.
Qed.

(** X17.  Running the job again at the same head commit: when the commit
    hash is known and the first run returned (its chunks few enough to go
    out in one statement), the second run returns
    strategy [skipped] with no chunk written and leaves the database as
    the first run left it.  It still runs the pipeline, and wherever the
    first run wrote, the second calls the embedder before it finds out. *)
Theorem processIndexRepoJob_rerun_skipped
        (svc : Services) (data : IndexRepoJobData) (w w1 : World)
        (r1 : IndexRepoJobResult) (owner repo : string) (repoData : RepoData)
        (h : string) :
  parseGitHubUrl (githubUrl data) = Ok (owner, repo) ->
  repos_get svc owner repo (githubToken data) = Ok repoData ->
  fetchLatestCommitHash svc owner repo (default_branch repoData) (githubToken data)
  = Some h ->
  h <> "" ->
  processIndexRepoJob svc data w = (Ok r1, w1) ->
  j_chunksWritten r1 <= INSERT_BATCH_SIZE ->
  exists events,
    processIndexRepoJob svc data w1
    = (Ok {| j_repoId := j_repoId r1; j_strategy := skipped; j_chunksWritten := 0 |},
       logged w1 events)
    /\ In (RunIngestionPipeline (githubUrl data)) events
    /\ (j_strategy r1 <> skipped -> exists n, In (EmbedChunks n) events).
Proof.
  intros Hurl Hget Hhash Hne.
  rewrite !processIndexRepoJob_steps, Hurl, Hget. cbn zeta.
  assert (Hrun : In (RunIngestionPipeline (githubUrl data))
                    (preamble data owner repo repoData))
    by (unfold preamble; cbn [In]; tauto).
  destruct (runIngestionPipeline svc (githubUrl data) (githubToken data))
    as [out|e0]; [|discriminate].
  destruct (o_chunks out) as [|c cs] eqn:Hc.
  { intros [= <- <-] _. eexists. split; [reflexivity|]. split.
    - apply in_or_app. left. exact Hrun.
    - cbn [j_strategy]. congruence. }
  destruct (embedChunks svc (c :: cs)) as [er|e0]; [|discriminate].
  set (options := jobOptions svc data owner repo repoData out er).
  destruct (writeToVectorStore (clock svc) (db w) (embedded er) options)
    as [db1 [result|why]] eqn:E; cbn [fst snd]; [|discriminate].
  intros [= <- <-] _. cbn [db j_repoId j_strategy].
  assert (Hopt : commitHash options = Some h) by exact Hhash.
  destruct h as [|a h']; [congruence|].
  destruct (writeToVectorStore_records_commit (clock svc) (db w) (embedded er) options
              a h' db1 result Hopt E) as (row & Hrow & Hcommit).
  rewrite (writeToVectorStore_skips (clock svc) _ (embedded er) options (String a h') row
             Hopt Hne Hrow Hcommit).
  cbn [fst snd skippedResult w_strategy chunksWritten].
  eexists. split; [unfold logged; cbn [db log]; reflexivity|]. split.
  - apply in_or_app. left. apply in_or_app. left. exact Hrun.
  - intros _. exists (length (c :: cs)). apply in_or_app. left.
    apply in_or_app. right. cbn [In]. tauto.
Qed.

(** *** The ingestion pipeline *)

Lemma chunkFiles_In repoId files c :
  In c (chunkFiles repoId files) ->
  exists file, In file files /\ In c (chunks (chunkFile repoId file.1 file.2)).
Proof.
  induction files as [|[p content] files IH]; cbn [chunkFiles]; [intros []|].
  intros Hin. apply in_app_or in Hin as [Hin|Hin].
  - exists (p, content). split; [left; reflexivity|exact Hin].
  - destruct (IH Hin) as (file & Hfile & Hc). exists file. split; [right|]; assumption.
Qed.

Lemma filter_partition_length {A} (p : A -> bool) (l : list A) :
  length (List.filter p l) + length (List.filter (fun x => negb (p x)) l) = length l.
Proof.
  induction l as [|x l IH]; cbn [List.filter length]; [reflexivity|].
  destruct (p x); cbn [negb length]; lia.
Qed.

Lemma filterFiles_lists files :
  accepted (filterFiles files) = List.filter allRulesHold files
  /\ rejected (filterFiles files)
     = map (fun f => (path f, reasonOf f))
           (List.filter (fun f => negb (allRulesHold f)) files).
Proof.
  unfold filterFiles.
  destruct (filterLoop_lists files {| accepted := []; rejected := [] |}) as [-> ->].
  split; reflexivity.
Qed.

(** X18.  The statistics of a pipeline run agree with its chunks: every
    fetched file is counted as accepted or as rejected, [totalChunks] is
    the number of chunks returned, and every chunk returned is a range of
    lines of a fetched file that the filter accepts, carries that file's
    path and the repository id the pipeline returns; without an accepted
    file there is no chunk. *)
Theorem runIngestionPipeline_stats
        (svc : Services) (url : string) (token : option string)
        (out : IngestionOutput) :
  runIngestionPipeline svc url token = Ok out ->
  exists fetched,
    fetchRepository svc url token = Ok fetched
    /\ o_repoId out = owner (meta fetched) ++ "/" ++ repo (meta fetched)
    /\ totalFilesFound (stats out) = length (files fetched)
    /\ filesAccepted (stats out) + filesRejected (stats out)
       = totalFilesFound (stats out)
    /\ s_totalChunks (stats out) = length (o_chunks out)
    /\ Forall (fun c =>
                 exists f, In f (files fetched)
                           /\ shouldIndex f = Index
                           /\ describesLines (o_repoId out) (path f)
                                (linesOf (FileFilter.content f)) c)
              (o_chunks out)
    /\ (filesAccepted (stats out) = 0 -> o_chunks out = []).
Proof.
  unfold runIngestionPipeline.
  destruct (fetchRepository svc url token) as [fetched|e]; [|discriminate].
  intros [= <-]. exists fetched. cbn [o_repoId o_chunks stats totalFilesFound
    filesAccepted filesRejected s_totalChunks].
  destruct (filterFiles_lists (files fetched)) as [Hacc Hrej]. rewrite Hacc, Hrej.
  split; [reflexivity|]. split; [reflexivity|]. split; [reflexivity|]. split.
  { rewrite length_map. apply filter_partition_length. }
  split; [reflexivity|]. split.
  - apply List.Forall_forall. intros c Hc.
    apply chunkFiles_In in Hc as ([p content] & Hfile & Hc). cbn [fst snd] in Hc.
    apply in_map_iff in Hfile as (f & [= <- <-] & Hf).
    apply filter_In in Hf as [Hf Hrules].
    exists f. split; [exact Hf|]. split; [apply shouldIndex_accepts, Hrules|].
    apply chunkFile_describes, Hc.
  - intros H0. destruct (List.filter allRulesHold (files fetched)); [reflexivity|].
    discriminate H0.
Qed.

End JobMore.

Lemma processIndexRepoJob_failure_writes_nothing_witness :
  failsBeforeWrite lockOnlyServices badUrlJob "Invalid GitHub URL: not-a-url"
  /\ exists events,
      IndexRepoJob.processIndexRepoJob lockOnlyServices badUrlJob freshWorld
      = (GithubFetcher.Throw "Invalid GitHub URL: not-a-url", logged freshWorld events)
      /\ forallb (fun ev => negb (isWrite ev)) events = true.
Proof.
  assert (H : failsBeforeWrite lockOnlyServices badUrlJob "Invalid GitHub URL: not-a-url")
    by (left; vm_compute; reflexivity).
  split; [exact H|].
  destruct (processIndexRepoJob_failure_writes_nothing lockOnlyServices badUrlJob
              freshWorld _ H) as (events & Hrun & Hnow & _).
  exists events. split; assumption.
Defined.

Lemma processIndexRepoJob_result_matches_store_witness :
  exists r w',
    IndexRepoJob.processIndexRepoJob readmeServices lockOnlyJob freshWorld = (GithubFetcher.Ok r, w')
    /\ IndexRepoJob.j_strategy r = VectorStoreWriter.full_reindex
    /\ exists row,
        VectorStoreWriter.repo_index (IndexRepoJob.db w') !! "o/r" = Some row
        /\ VectorStoreWriter.r_chunkCount row = IndexRepoJob.j_chunksWritten r
        /\ VectorStoreWriter.r_updatedAt row = 2000%Z.
Proof.
  destruct (IndexRepoJob.processIndexRepoJob readmeServices lockOnlyJob freshWorld)
    as [res w'] eqn:E.
  assert (Hres : res = GithubFetcher.Ok
                         {| IndexRepoJob.j_repoId := "o/r";
                            IndexRepoJob.j_strategy := VectorStoreWriter.full_reindex;
                            IndexRepoJob.j_chunksWritten := 1 |}).
  { apply (f_equal fst) in E. vm_compute in E. symmetry. exact E. }
  subst res. eexists. exists w'. split; [reflexivity|]. split; [reflexivity|].
  assert (Hone : forall out er,
             IndexRepoJob.runIngestionPipeline readmeServices
               (IndexRepoJob.githubUrl lockOnlyJob) (IndexRepoJob.githubToken lockOnlyJob)
             = GithubFetcher.Ok out ->
             IndexRepoJob.embedChunks readmeServices (IndexRepoJob.o_chunks out)
             = GithubFetcher.Ok er ->
             oneStatement (IndexRepoJob.embedded er)).
  { intros out er Hout Her. vm_compute in Hout. injection Hout as <-.
    vm_compute in Her. injection Her as <-.
    split; [vm_compute; lia|]. constructor; [intros []|constructor]. }
  destruct (processIndexRepoJob_result_matches_store readmeServices lockOnlyJob
              freshWorld w' _ E Hone) as (owner & repo & events & Hurl & _ & Hmatch).
  vm_compute in Hurl. injection Hurl as <- <-.
  cbn [IndexRepoJob.j_strategy IndexRepoJob.j_chunksWritten] in Hmatch.
  destruct Hmatch as [_ Hrow]. exact Hrow.
Defined.

Lemma processIndexRepoJob_rerun_skipped_witness :
  exists r1 w1 events,
    IndexRepoJob.processIndexRepoJob readmeServices lockOnlyJob freshWorld
    = (GithubFetcher.Ok r1, w1)
    /\ IndexRepoJob.j_strategy r1 = VectorStoreWriter.full_reindex
    /\ IndexRepoJob.processIndexRepoJob readmeServices lockOnlyJob w1
       = (GithubFetcher.Ok {| IndexRepoJob.j_repoId := IndexRepoJob.j_repoId r1;
                              IndexRepoJob.j_strategy := VectorStoreWriter.skipped;
                              IndexRepoJob.j_chunksWritten := 0 |},
          logged w1 events)
    /\ exists n, In (IndexRepoJob.EmbedChunks n) events.
Proof.
  destruct (IndexRepoJob.processIndexRepoJob readmeServices lockOnlyJob freshWorld)
    as [res w1] eqn:E.
  assert (Hres : res = GithubFetcher.Ok
                         {| IndexRepoJob.j_repoId := "o/r";
                            IndexRepoJob.j_strategy := VectorStoreWriter.full_reindex;
                            IndexRepoJob.j_chunksWritten := 1 |}).
  { apply (f_equal fst) in E. vm_compute in E. symmetry. exact E. }
  subst res.
  destruct (fun H1 H2 H3 H4 H5 =>
              processIndexRepoJob_rerun_skipped readmeServices lockOnlyJob freshWorld w1 _
                "o" "r" {| IndexRepoJob.default_branch := "main"; IndexRepoJob.size := 1 |}
                "abc" H1 H2 H3 H4 E H5)
    as (events & Hrun & _ & Hembed);
    [vm_compute; reflexivity|reflexivity|reflexivity|discriminate|vm_compute; lia|].
  eexists. exists w1, events. split; [reflexivity|]. split; [reflexivity|].
  split; [exact Hrun|]. apply Hembed. discriminate.
Defined.

Lemma runIngestionPipeline_stats_witness :
  exists out,
    IndexRepoJob.runIngestionPipeline readmeServices "https://github.com/o/r" None
    = GithubFetcher.Ok out
    /\ IndexRepoJob.filesAccepted (IndexRepoJob.stats out) = 1
    /\ IndexRepoJob.filesRejected (IndexRepoJob.stats out) = 1
    /\ IndexRepoJob.s_totalChunks (IndexRepoJob.stats out)
       = length (IndexRepoJob.o_chunks out)
    /\ Forall (fun c => AstChunker.repoId c = IndexRepoJob.o_repoId out)
              (IndexRepoJob.o_chunks out).
Proof.
  destruct (IndexRepoJob.runIngestionPipeline readmeServices "https://github.com/o/r" None)
    as [out|e] eqn:E; [|vm_compute in E; discriminate E].
  exists out. split; [reflexivity|].
  destruct (runIngestionPipeline_stats readmeServices _ _ out E)
    as (fetched & _ & _ & _ & _ & Hn & Hall & _).
  split; [injection E as <-; reflexivity|]. split; [injection E as <-; reflexivity|].
  split; [exact Hn|].
  eapply Forall_impl; [exact Hall|].
  intros c (f & _ & _ & Hd). apply Hd.
Defined.

(** ** More on the file filter *)

Section FilterMore.
Import FileFilter.

Lemma filter_filter_same {A} (p : A -> bool) (l : list A) :
  List.filter p (List.filter p l) = List.filter p l
  /\ List.filter (fun x => negb (p x)) (List.filter p l) = [].
Proof.
  induction l as [|x l [IH1 IH2]]; cbn [List.filter]; [split; reflexivity|].
  destruct (p x) eqn:E; cbn [List.filter]; [|split; assumption].
  rewrite E. cbn [negb]. rewrite IH1, IH2. split; reflexivity.
Qed.

(** X19.  The filter decides file by file: the result for two lists one
    after the other is the two results one after the other; every file
    ends in exactly one of the two lists; and filtering the accepted files
    again accepts them all and rejects nothing. *)
Theorem filterFiles_per_file (files more : list RawFile) :
  accepted (filterFiles (files ++ more))
  = (accepted (filterFiles files) ++ accepted (filterFiles more))%list
  /\ rejected (filterFiles (files ++ more))
     = (rejected (filterFiles files) ++ rejected (filterFiles more))%list
  /\ length (accepted (filterFiles files)) + length (rejected (filterFiles files))
     = length files
  /\ filterFiles (accepted (filterFiles files))
     = {| accepted := accepted (filterFiles files); rejected := [] |}.
Proof.
  destruct (filterFiles_lists (files ++ more)) as [-> ->].
  destruct (filterFiles_lists more) as [-> ->].
  destruct (filterFiles_lists files) as [Ha Hr]. rewrite Ha, Hr.
  rewrite !List.filter_app, map_app, length_map.
  split; [reflexivity|]. split; [reflexivity|].
  split; [apply filter_partition_length|].
  destruct (filterFiles_lists (List.filter allRulesHold files)) as [Ha' Hr'].
  destruct (filter_filter_same allRulesHold files) as [H1 H2].
  rewrite H1 in Ha'. rewrite H2 in Hr'. cbn [map] in Hr'.
  destruct (filterFiles (List.filter allRulesHold files)) as [acc rej].
  cbn [accepted rejected] in Ha', Hr'. subst. reflexivity.
Qed.

End FilterMore.

(** ** More on the URL parser *)

Section MatcherMore.
Import Regex.
Context {R : Type}.

Local Abbreviation cont := (nat -> string -> caps -> option R).

Lemma exec_Seq r1 r2 pos s cs (k : cont) :
  exec (Seq r1 r2) pos s cs k
  = exec r1 pos s cs (fun pos' s' cs' => exec r2 pos' s' cs' k).
Proof. reflexivity. Qed.

Lemma exec_Group n r1 pos s cs (k : cont) :
  exec (Group n r1) pos s cs k
  = exec r1 pos s cs
      (fun pos' s' cs' => k pos' s' ((n, substring 0 (pos' - pos) s) :: cs')).
Proof. reflexivity. Qed.

Lemma exec_Star r1 pos s cs (k : cont) :
  exec (Star r1) pos s cs k = star_loop (exec r1) k (String.length s) pos s cs.
Proof. reflexivity. Qed.

Lemma exec_Chr p pos s cs (k : cont) :
  exec (Chr p) pos s cs k
  = match s with
    | String a s' => if p a then k (S pos) s' cs else None
    | EmptyString => None
    end.
Proof. reflexivity. Qed.

(** A literal matches itself. *)
Lemma exec_Lit (l : string) (k : cont) :
  forall pos s cs x,
    exec (Lit l) pos s cs k = Some x ->
    exists t, s = l ++ t /\ k (pos + String.length l) t cs = Some x.
Proof.
  induction l as [|a l IH]; intros pos s cs x; cbn [Lit].
  { cbn [exec String.length]. rewrite Nat.add_0_r. intros H. exists s. split; [reflexivity|exact H]. }
  rewrite exec_Seq, exec_Chr. destruct s as [|b s']; [discriminate|].
  destruct (Ascii.eqb a b) eqn:E; [|discriminate].
  apply Ascii.eqb_eq in E as <-. intros H.
  destruct (IH _ _ _ _ H) as (t & -> & Hk). exists t. split; [reflexivity|].
  cbn [String.length]. rewrite <- Hk. f_equal. lia.
Qed.

(** The iterations of a character class take a run of its characters. *)
Lemma star_loop_Chr p (k : cont) :
  forall fuel pos s cs x,
    star_loop (exec (Chr p)) k fuel pos s cs = Some x ->
    exists pre t,
      s = pre ++ t /\ everyChar p pre = true
      /\ k (pos + String.length pre) t cs = Some x.
Proof.
  assert (Hstop : forall pos s cs x, k pos s cs = Some x ->
            exists pre t, s = pre ++ t /\ everyChar p pre = true
                          /\ k (pos + String.length pre) t cs = Some x).
  { intros pos s cs x H. exists "", s. cbn [String.length]. rewrite Nat.add_0_r.
    repeat split. exact H. }
  induction fuel as [|fuel IH]; intros pos s cs x; cbn [star_loop]; [apply Hstop|].
  rewrite exec_Chr. destruct s as [|a s']; [apply Hstop|].
  destruct (p a) eqn:Ea; [|apply Hstop].
  destruct (Nat.ltb_spec pos (S pos)) as [_|]; [|lia].
  destruct (star_loop (exec (Chr p)) k fuel (S pos) s' cs) as [y|] eqn:E; [|apply Hstop].
  intros [= <-]. destruct (IH _ _ _ _ E) as (pre & t & -> & Hall & Hk).
  exists (String a pre), t. cbn [everyChar String.length]. rewrite Ea, Hall.
  split; [reflexivity|]. split; [reflexivity|]. rewrite <- Hk. f_equal. lia.
Qed.

(** With a continuation that always answers, the run is the longest. *)
Lemma star_loop_Chr_longest p (k : cont) :
  (forall pos t cs, k pos t cs <> None) ->
  forall fuel pos s cs x,
    String.length s <= fuel ->
    star_loop (exec (Chr p)) k fuel pos s cs = Some x ->
    exists pre t,
      s = pre ++ t /\ everyChar p pre = true
      /\ (t = "" \/ exists a t', t = String a t' /\ p a = false)
      /\ k (pos + String.length pre) t cs = Some x.
Proof.
  intros Htotal.
  assert (Hsome : forall fuel pos s cs,
             star_loop (exec (Chr p)) k fuel pos s cs <> None).
  { intros [|fuel] pos s cs; cbn [star_loop]; [apply Htotal|].
    destruct (exec (Chr p) pos s cs _); [discriminate|apply Htotal]. }
  induction fuel as [|fuel IH]; intros pos s cs x Hlen; cbn [star_loop].
  { destruct s; [|cbn [String.length] in Hlen; lia]. intros H.
    exists "", "". cbn [String.length]. rewrite Nat.add_0_r.
    split; [reflexivity|]. split; [reflexivity|]. split; [left; reflexivity|exact H]. }
  rewrite exec_Chr. destruct s as [|a s'].
  { intros H. exists "", "". cbn [String.length]. rewrite Nat.add_0_r.
    split; [reflexivity|]. split; [reflexivity|]. split; [left; reflexivity|exact H]. }
  destruct (p a) eqn:Ea.
  - destruct (Nat.ltb_spec pos (S pos)) as [_|]; [|lia].
    destruct (star_loop (exec (Chr p)) k fuel (S pos) s' cs) as [y|] eqn:E;
      [|exfalso; exact (Hsome _ _ _ _ E)].
    intros [= <-]. cbn [String.length] in Hlen.
    assert (Hlen' : String.length s' <= fuel) by lia.
    destruct (IH _ _ _ _ Hlen' E) as (pre & t & -> & Hall & Hmax & Hk).
    exists (String a pre), t. cbn [everyChar String.length]. rewrite Ea, Hall.
    split; [reflexivity|]. split; [reflexivity|]. split; [exact Hmax|].
    rewrite <- Hk. f_equal. lia.
  - intros H. exists "", (String a s'). cbn [String.length]. rewrite Nat.add_0_r.
    split; [reflexivity|]. split; [reflexivity|]. split; [right; eauto|exact H].
Qed.

Lemma substring_prefix (u v : string) :
  substring 0 (String.length u) (u ++ v) = u.
Proof.
  induction u as [|a u IH].
  - destruct v; reflexivity.
  - change (String a u ++ v) with (String a (u ++ v)).
    cbn [String.length substring]. rewrite IH. reflexivity.
Qed.

(** A capture group around [[class]+]. *)
Lemma exec_Group_Plus_Chr n p (k : cont) pos s cs x :
  exec (Group n (Plus (Chr p))) pos s cs k = Some x ->
  exists pre t,
    s = pre ++ t /\ pre <> "" /\ everyChar p pre = true
    /\ k (pos + String.length pre) t ((n, pre) :: cs) = Some x.
Proof.
  unfold Plus. rewrite exec_Group, exec_Seq, exec_Chr.
  destruct s as [|a s']; [discriminate|]. destruct (p a) eqn:Ea; [|discriminate].
  rewrite exec_Star. intros H. apply star_loop_Chr in H as (pre & t & -> & Hall & Hk).
  exists (String a pre), t. cbn [everyChar]. rewrite Ea, Hall.
  split; [reflexivity|]. split; [discriminate|]. split; [reflexivity|].
  replace (S pos + String.length pre - pos) with (String.length (String a pre)) in Hk
    by (cbn [String.length]; lia).
  change (String a (pre ++ t)) with (String a pre ++ t) in Hk.
  rewrite substring_prefix in Hk. rewrite <- Hk. f_equal. cbn [String.length]. lia.
Qed.

Lemma exec_Group_Plus_Chr_longest n p (k : cont) pos s cs x :
  (forall pos t cs, k pos t cs <> None) ->
  exec (Group n (Plus (Chr p))) pos s cs k = Some x ->
  exists pre t,
    s = pre ++ t /\ pre <> "" /\ everyChar p pre = true
    /\ (t = "" \/ exists a t', t = String a t' /\ p a = false)
    /\ k (pos + String.length pre) t ((n, pre) :: cs) = Some x.
Proof.
  intros Htotal. unfold Plus. rewrite exec_Group, exec_Seq, exec_Chr.
  destruct s as [|a s']; [discriminate|]. destruct (p a) eqn:Ea; [|discriminate].
  rewrite exec_Star. intros H.
  apply star_loop_Chr_longest in H as (pre & t & -> & Hall & Hmax & Hk);
    [|intros; apply Htotal|lia].
  exists (String a pre), t. cbn [everyChar]. rewrite Ea, Hall.
  split; [reflexivity|]. split; [discriminate|]. split; [reflexivity|].
  split; [exact Hmax|].
  replace (S pos + String.length pre - pos) with (String.length (String a pre)) in Hk
    by (cbn [String.length]; lia).
  change (String a (pre ++ t)) with (String a pre ++ t) in Hk.
  rewrite substring_prefix in Hk. rewrite <- Hk. f_equal. cbn [String.length]. lia.
Qed.

End MatcherMore.

Section UrlsMore.
Import Regex GithubFetcher.

Lemma everyChar_notSlash s :
  everyChar (fun a => negb (Ascii.eqb a "/"%char)) s = true ->
  Js.includes "/"%char s = false.
Proof.
  induction s as [|a s IH]; cbn [everyChar Js.includes]; [reflexivity|].
  intros H. apply andb_true_iff in H as [Ha Hs].
  rewrite (IH Hs). apply negb_true_iff in Ha. rewrite Ha. reflexivity.
Qed.

(** A match of the pattern of [parseGitHubUrl]. *)
Lemma match_at_GITHUB_RE pos s m :
  match_at GITHUB_RE pos s = Some m ->
  exists owner repo post,
    s = "github.com/" ++ owner ++ "/" ++ repo ++ post
    /\ isSegment owner /\ isSegment repo
    /\ (post = "" \/ exists post', post = String "/"%char post')
    /\ cap 1 (m_caps m) = Some owner /\ cap 2 (m_caps m) = Some repo.
Proof.
  unfold match_at, GITHUB_RE, notSlash. rewrite exec_Seq. intros H.
  apply exec_Lit in H as (t0 & -> & H).
  rewrite exec_Seq in H.
  apply exec_Group_Plus_Chr in H as (owner & t1 & -> & Ho & Hoall & H).
  rewrite exec_Seq in H. apply exec_Lit in H as (t2 & -> & H).
  apply exec_Group_Plus_Chr_longest in H as (repo & post & -> & Hr & Hrall & Hmax & H);
    [|discriminate].
  injection H as <-. exists owner, repo, post. cbn [m_caps cap Nat.eqb].
  split; [reflexivity|].
  split; [split; [exact Ho|apply everyChar_notSlash, Hoall]|].
  split; [split; [exact Hr|apply everyChar_notSlash, Hrall]|].
  split; [|split; reflexivity].
  destruct Hmax as [->|(a & post' & -> & Ha)]; [left; reflexivity|right].
  apply negb_false_iff, Ascii.eqb_eq in Ha as ->. eauto.
Qed.

Lemma search_from_match r :
  forall s pos m,
    search_from r pos s = Some m ->
    exists pre t, s = pre ++ t /\ match_at r (pos + String.length pre) t = Some m.
Proof.
  induction s as [|a s IH]; intros pos m; cbn [search_from].
  - destruct (match_at r pos "") as [m'|] eqn:E; [|discriminate].
    intros [= <-]. exists "", "". cbn [String.length]. rewrite Nat.add_0_r.
    split; [reflexivity|exact E].
  - destruct (match_at r pos (String a s)) as [m'|] eqn:E.
    + intros [= <-]. exists "", (String a s). cbn [String.length]. rewrite Nat.add_0_r.
      split; [reflexivity|exact E].
    + intros H. destruct (IH _ _ H) as (pre & t & -> & Hm).
      exists (String a pre), t. split; [reflexivity|].
      cbn [String.length]. rewrite <- Hm. f_equal. lia.
Qed.

(** X20.  Whatever [parseGitHubUrl] returns was read off the cleaned URL:
    the owner and the repository are not empty and hold no slash, the
    cleaned URL reads [...github.com/<owner>/<repo>...], and the
    repository runs to the next slash or to the end of the cleaned URL. *)
Theorem parseGitHubUrl_segments (url owner repo : string) :
  parseGitHubUrl url = Ok (owner, repo) ->
  isSegment owner /\ isSegment repo
  /\ exists pre post,
      cleanedUrl url = pre ++ "github.com/" ++ owner ++ "/" ++ repo ++ post
      /\ (post = "" \/ exists post', post = String "/"%char post').
Proof.
  unfold parseGitHubUrl. fold (cleanedUrl url).
  destruct (search GITHUB_RE (cleanedUrl url)) as [m|] eqn:E; [|discriminate].
  unfold search in E. apply search_from_match in E as (pre & t & Hcut & Hm).
  apply match_at_GITHUB_RE in Hm
    as (owner' & repo' & post & -> & Ho & Hr & Hmax & -> & ->).
  cbn [default]. intros [= <- <-].
  split; [exact Ho|]. split; [exact Hr|].
  exists pre, post. split; [exact Hcut|exact Hmax].
Qed.

End UrlsMore.

Lemma parseGitHubUrl_segments_witness :
  GithubFetcher.parseGitHubUrl "https://github.com/octocat/Hello-World.git"
  = GithubFetcher.Ok ("octocat", "Hello-World")
  /\ isSegment "octocat" /\ isSegment "Hello-World"
  /\ exists pre post,
      cleanedUrl "https://github.com/octocat/Hello-World.git"
      = pre ++ "github.com/" ++ "octocat" ++ "/" ++ "Hello-World" ++ post
      /\ (post = "" \/ exists post', post = String "/"%char post').
Proof.
  assert (H : GithubFetcher.parseGitHubUrl "https://github.com/octocat/Hello-World.git"
              = GithubFetcher.Ok ("octocat", "Hello-World")) by (vm_compute; reflexivity).
  split; [exact H|].
  exact (parseGitHubUrl_segments _ _ _ H).
Defined.

(** ** The URL forms that parse *)

Section MatcherComplete.
Import Regex.
Context {R : Type}.

Local Abbreviation cont := (nat -> string -> caps -> option R).

Lemma exec_Lit_app (l : string) (k : cont) :
  forall pos t cs, exec (Lit l) pos (l ++ t) cs k = k (pos + String.length l) t cs.
Proof.
  induction l as [|a l IH]; intros pos t cs; cbn [Lit].
  { cbn [exec String.length]. rewrite Nat.add_0_r. reflexivity. }
  change (String a l ++ t) with (String a (l ++ t)).
  rewrite exec_Seq, exec_Chr, Ascii.eqb_refl, IH. cbn [String.length]. f_equal. lia.
Qed.

(** The first attempt of a greedy class is the whole run. *)
Lemma star_loop_Chr_greedy p (k : cont) (t : string) cs x :
  (t = "" \/ exists a t', t = String a t' /\ p a = false) ->
  forall pre fuel pos,
    everyChar p pre = true ->
    String.length (pre ++ t) <= fuel ->
    k (pos + String.length pre) t cs = Some x ->
    star_loop (exec (Chr p)) k fuel pos (pre ++ t) cs = Some x.
Proof.
  intros Ht. induction pre as [|a pre IH]; intros fuel pos Hall Hfuel Hk.
  - cbn [String.length] in Hk. rewrite Nat.add_0_r in Hk.
    change ("" ++ t) with t. destruct fuel as [|fuel]; cbn [star_loop]; [exact Hk|].
    rewrite exec_Chr. destruct Ht as [->|(a & t' & -> & Ha)]; [exact Hk|].
    rewrite Ha. exact Hk.
  - change (String a pre ++ t) with (String a (pre ++ t)) in *.
    cbn [everyChar] in Hall. apply andb_true_iff in Hall as [Ha Hall].
    cbn [String.length] in Hfuel, Hk.
    destruct fuel as [|fuel]; [lia|]. cbn [star_loop]. rewrite exec_Chr, Ha.
    destruct (Nat.ltb_spec pos (S pos)) as [_|]; [|lia].
    rewrite (IH fuel (S pos) Hall); [reflexivity|lia|].
    rewrite <- Hk. f_equal. lia.
Qed.

Lemma exec_Group_Plus_Chr_greedy n p (k : cont) pos pre t cs x :
  pre <> "" -> everyChar p pre = true ->
  (t = "" \/ exists a t', t = String a t' /\ p a = false) ->
  k (pos + String.length pre) t ((n, pre) :: cs) = Some x ->
  exec (Group n (Plus (Chr p))) pos (pre ++ t) cs k = Some x.
Proof.
  intros Hne Hall Ht Hk. destruct pre as [|a pre]; [congruence|].
  cbn [everyChar] in Hall. apply andb_true_iff in Hall as [Ha Hall].
  unfold Plus. rewrite exec_Group, exec_Seq.
  change (String a pre ++ t) with (String a (pre ++ t)).
  rewrite exec_Chr, Ha, exec_Star.
  apply star_loop_Chr_greedy; [exact Ht|exact Hall|lia|].
  replace (S pos + String.length pre - pos) with (String.length (String a pre))
    by (cbn [String.length]; lia).
  change (String a (pre ++ t)) with (String a pre ++ t).
  rewrite substring_prefix. rewrite <- Hk. f_equal. cbn [String.length]. lia.
Qed.

End MatcherComplete.

Section UrlForms.
Import Regex GithubFetcher.

Lemma split_not_nil c s : Js.split c s <> [].
Proof.
  destruct s as [|a s]; cbn [Js.split]; [discriminate|].
  destruct (Ascii.eqb a c); [discriminate|]. destruct (Js.split c s); discriminate.
Qed.

Lemma split_app_sep c u v :
  Js.split c (u ++ String c v) = (Js.split c u ++ Js.split c v)%list.
Proof.
  induction u as [|a u IH].
  - change ("" ++ String c v) with (String c v). cbn [Js.split].
    rewrite Ascii.eqb_refl. reflexivity.
  - change (String a u ++ String c v) with (String a (u ++ String c v)).
    cbn [Js.split]. rewrite IH. destruct (Ascii.eqb a c); [reflexivity|].
    pose proof (split_not_nil c u) as Hu.
    destruct (Js.split c u); [congruence|reflexivity].
Qed.

Lemma split_segment c s : Js.includes c s = false -> Js.split c s = [s].
Proof.
  induction s as [|a s IH]; cbn [Js.includes Js.split]; [reflexivity|].
  intros H. apply orb_false_iff in H as [Ha Hs]. rewrite Ha, (IH Hs). reflexivity.
Qed.

Lemma includes_app_sep c u v : Js.includes c (u ++ String c v) = true.
Proof.
  induction u as [|a u IH].
  - change ("" ++ String c v) with (String c v). cbn [Js.includes].
    rewrite Ascii.eqb_refl. reflexivity.
  - change (String a u ++ String c v) with (String a (u ++ String c v)).
    cbn [Js.includes]. rewrite IH. apply orb_true_r.
Qed.

Lemma everyChar_of_segment s :
  Js.includes "/"%char s = false ->
  everyChar (fun a => negb (Ascii.eqb a "/"%char)) s = true.
Proof.
  induction s as [|a s IH]; cbn [everyChar Js.includes]; [reflexivity|].
  intros H. apply orb_false_iff in H as [Ha Hs]. rewrite Ha, (IH Hs). reflexivity.
Qed.

Lemma substring_all (l : string) : substring 0 (String.length l) l = l.
Proof.
  rewrite <- (string_app_nil_r l) at 2. apply substring_prefix.
Qed.

Lemma substring_skip (u l : string) :
  substring (String.length u) (String.length l) (u ++ l) = l.
Proof.
  induction u as [|a u IH]; [apply substring_all|].
  change (String a u ++ l) with (String a (u ++ l)). cbn [String.length substring].
  exact IH.
Qed.

Lemma substring_none n : forall s, substring n 0 s = "".
Proof.
  induction n as [|n IH]; intros [|a s]; cbn [substring]; try reflexivity. apply IH.
Qed.

Lemma endsWith_app u l : endsWith l (u ++ l) = true.
Proof.
  unfold endsWith. rewrite string_length_app.
  replace (String.length u + String.length l - String.length l) with (String.length u)
    by lia.
  rewrite substring_skip, String.eqb_refl.
  destruct (Nat.leb_spec (String.length l) (String.length u + String.length l));
    [reflexivity|lia].
Qed.

(** A match of [/\.git$/] is the end of the string. *)
Lemma match_at_DOT_GIT_RE pos s m :
  match_at DOT_GIT_RE pos s = Some m ->
  s = ".git" /\ m = {| m_start := pos; m_end := pos + 4; m_caps := [] |}.
Proof.
  unfold match_at, DOT_GIT_RE. rewrite exec_Seq. intros H.
  apply exec_Lit in H as (t & -> & H). cbn [exec] in H.
  destruct t; [|discriminate]. injection H as <-. split; reflexivity.
Qed.

Lemma search_DOT_GIT_RE_found u :
  forall pos,
    search_from DOT_GIT_RE pos (u ++ ".git")
    = Some {| m_start := pos + String.length u;
              m_end := pos + String.length u + 4; m_caps := [] |}.
Proof.
  induction u as [|a u IH]; intros pos.
  - cbn [String.length]. rewrite Nat.add_0_r.
    replace (pos + 4) with (S (S (S (S pos)))) by lia. reflexivity.
  - change (String a u ++ ".git") with (String a (u ++ ".git")). cbn [search_from].
    destruct (match_at DOT_GIT_RE pos (String a (u ++ ".git"))) as [m|] eqn:E.
    + apply match_at_DOT_GIT_RE in E as [E _].
      apply (f_equal String.length) in E. cbn [String.length] in E.
      rewrite string_length_app in E. cbn [String.length] in E. exfalso. lia.
    + rewrite IH. cbn [String.length].
      replace (pos + S (String.length u)) with (S pos + String.length u) by lia.
      reflexivity.
Qed.

(** [url.replace(/\.git$/, "")] takes a final [.git] away, and only
    that. *)
Lemma remove_first_DOT_GIT_RE_suffix u : remove_first DOT_GIT_RE (u ++ ".git") = u.
Proof.
  unfold remove_first, search. rewrite search_DOT_GIT_RE_found. cbn [m_start m_end].
  rewrite string_length_app. cbn [String.length Nat.add].
  replace (String.length u + 4 - (String.length u + 4)) with 0 by lia.
  rewrite substring_none, string_app_nil_r. apply substring_prefix.
Qed.

Lemma remove_first_DOT_GIT_RE_other s :
  endsWith ".git" s = false -> remove_first DOT_GIT_RE s = s.
Proof.
  intros Hend. unfold remove_first, search.
  destruct (search_from DOT_GIT_RE 0 s) as [m|] eqn:E; [|reflexivity].
  apply search_from_match in E as (pre & t & -> & Hm).
  apply match_at_DOT_GIT_RE in Hm as [-> _].
  rewrite endsWith_app in Hend. discriminate.
Qed.

(** The segment after the last slash carries a suffix without a slash. *)
Lemma suffix_of_last_segment (l repo : string) :
  Js.includes "/"%char l = false ->
  forall u pre,
    u ++ String "/"%char repo = pre ++ l ->
    l <> "" ->
    exists pre', repo = pre' ++ l.
Proof.
  intros Hl. induction u as [|a u IH]; intros pre H Hne.
  - change ("" ++ String "/"%char repo) with (String "/"%char repo) in H.
    destruct pre as [|c pre].
    + change ("" ++ l) with l in H. subst l. cbn [Js.includes] in Hl.
      rewrite Ascii.eqb_refl in Hl. discriminate.
    + change (String c pre ++ l) with (String c (pre ++ l)) in H.
      injection H as _ H. eauto.
  - change (String a u ++ String "/"%char repo)
      with (String a (u ++ String "/"%char repo)) in H.
    destruct pre as [|c pre].
    + change ("" ++ l) with l in H. subst l. cbn [Js.includes] in Hl.
      rewrite includes_app_sep in Hl. rewrite orb_true_r in Hl. discriminate.
    + change (String c pre ++ l) with (String c (pre ++ l)) in H.
      injection H as _ H. exact (IH pre H Hne).
Qed.

Lemma substring_split n :
  forall m s,
    n + m = String.length s -> s = substring 0 n s ++ substring n m s.
Proof.
  induction n as [|n IH]; intros m s Hs.
  - cbn [Nat.add] in Hs. subst m. rewrite substring_all. destruct s; reflexivity.
  - destruct s as [|a s]; [cbn [String.length] in Hs; lia|].
    cbn [String.length] in Hs. cbn [substring].
    change (String a (substring 0 n s) ++ substring n m s)
      with (String a (substring 0 n s ++ substring n m s)).
    rewrite <- IH by lia. reflexivity.
Qed.

Lemma endsWith_cut l s : endsWith l s = true -> exists pre, s = pre ++ l.
Proof.
  unfold endsWith. intros H. apply andb_true_iff in H as [Hlen E].
  apply String.eqb_eq in E. apply Nat.leb_le in Hlen.
  exists (substring 0 (String.length s - String.length l) s).
  rewrite <- E at 2. apply substring_split. lia.
Qed.

Lemma plainUrl_not_dot_git owner repo :
  endsWith ".git" repo = false -> endsWith ".git" (plainUrl owner repo) = false.
Proof.
  intros Hrepo. destruct (endsWith ".git" (plainUrl owner repo)) eqn:E; [|reflexivity].
  exfalso. apply endsWith_cut in E as [pre Hcut]. unfold plainUrl in Hcut.
  rewrite <- string_app_assoc in Hcut.
  apply suffix_of_last_segment in Hcut as [pre' ->]; [|reflexivity|discriminate].
  rewrite endsWith_app in Hrepo. discriminate.
Qed.

(** The segments of the address of a repository page. *)
Lemma split_plainUrl owner repo :
  Js.includes "/"%char owner = false -> Js.includes "/"%char repo = false ->
  Js.split "/"%char (plainUrl owner repo) = ["https:"; ""; "github.com"; owner; repo].
Proof.
  intros Ho Hr. unfold plainUrl.
  change ("https://github.com/" ++ owner ++ "/" ++ repo)
    with ("https:" ++ String "/"%char
            ("" ++ String "/"%char
               ("github.com" ++ String "/"%char (owner ++ String "/"%char repo)))).
  rewrite !split_app_sep, (split_segment _ owner Ho), (split_segment _ repo Hr).
  reflexivity.
Qed.

(** Without an owner called [tree] the address holds no [/tree/]. *)
Lemma remove_first_TREE_RE_plainUrl owner repo :
  isSegment owner -> isSegment repo -> owner <> "tree" ->
  remove_first TREE_RE (plainUrl owner repo) = plainUrl owner repo.
Proof.
  intros [_ Ho] [_ Hr] Htree. unfold remove_first, search.
  destruct (search_from TREE_RE 0 (plainUrl owner repo)) as [m|] eqn:E; [|reflexivity].
  exfalso. apply search_from_match in E as (pre & t & Hcut & Hm).
  unfold match_at, TREE_RE in Hm. rewrite exec_Seq in Hm.
  apply exec_Lit in Hm as (t' & -> & _).
  apply (f_equal (Js.split "/"%char)) in Hcut.
  rewrite (split_plainUrl owner repo Ho Hr) in Hcut.
  change (pre ++ "/tree/" ++ t')
    with (pre ++ String "/"%char ("tree" ++ String "/"%char t')) in Hcut.
  rewrite !split_app_sep in Hcut.
  change (Js.split "/"%char "tree") with ["tree"] in Hcut.
  pose proof (split_not_nil "/"%char pre) as Hp.
  pose proof (split_not_nil "/"%char t') as Ht.
  destruct (Js.split "/"%char pre) as [|p1 [|p2 [|p3 [|p4 [|p5 ps]]]]];
    destruct (Js.split "/"%char t') as [|t1 ts];
    try congruence; cbn [app] in Hcut; try discriminate Hcut.
  - injection Hcut as _ _ _ Ho' _. congruence.
  - injection Hcut as _ _ _ _ _ Hnil. destruct ps; discriminate Hnil.
Qed.

Lemma match_at_GITHUB_RE_other a s pos :
  a <> "g"%char -> match_at GITHUB_RE pos (String a s) = None.
Proof.
  intros Ha. unfold match_at, GITHUB_RE. rewrite exec_Seq.
  change (Lit "github.com/") with (Seq (Chr (Ascii.eqb "g"%char)) (Lit "ithub.com/")).
  rewrite exec_Seq, exec_Chr.
  destruct (Ascii.eqb_spec "g"%char a) as [<-|_]; [congruence|reflexivity].
Qed.

Lemma search_from_hit r pos s m :
  match_at r pos s = Some m -> search_from r pos s = Some m.
Proof. intros H. destruct s; cbn [search_from]; rewrite H; reflexivity. Qed.

(** The pattern of [parseGitHubUrl] on the address of a repository page. *)
Lemma search_GITHUB_RE_plainUrl owner repo :
  isSegment owner -> isSegment repo ->
  exists m,
    search GITHUB_RE (plainUrl owner repo) = Some m
    /\ cap 1 (m_caps m) = Some owner /\ cap 2 (m_caps m) = Some repo.
Proof.
  intros [Ho Hoall] [Hr Hrall].
  apply everyChar_of_segment in Hoall. apply everyChar_of_segment in Hrall.
  unfold search, plainUrl.
  change ("https://github.com/" ++ owner ++ "/" ++ repo)
    with (String "h" (String "t" (String "t" (String "p" (String "s" (String ":"
            (String "/" (String "/" ("github.com/" ++ owner ++ "/" ++ repo))))))))).
  do 8 (cbn [search_from]; rewrite match_at_GITHUB_RE_other by discriminate).
  assert (Hm : match_at GITHUB_RE 8 ("github.com/" ++ owner ++ "/" ++ repo)
               = Some {| m_start := 8;
                         m_end := 8 + String.length "github.com/" + String.length owner
                                  + String.length "/" + String.length repo;
                         m_caps := [(2, repo); (1, owner)] |}).
  { unfold match_at, GITHUB_RE, notSlash. rewrite exec_Seq, exec_Lit_app, exec_Seq.
    apply exec_Group_Plus_Chr_greedy; [exact Ho|exact Hoall|right; eauto|].
    rewrite exec_Seq, exec_Lit_app.
    rewrite <- (string_app_nil_r repo) at 1.
    apply exec_Group_Plus_Chr_greedy; [exact Hr|exact Hrall|left; reflexivity|].
    reflexivity. }
  rewrite (search_from_hit _ _ _ _ Hm).
  eexists. split; [reflexivity|split; reflexivity].
Qed.

Lemma parseGitHubUrl_of_cleaned url owner repo :
  isSegment owner -> isSegment repo ->
  cleanedUrl url = plainUrl owner repo ->
  parseGitHubUrl url = Ok (owner, repo).
Proof.
  intros Ho Hr Hclean. unfold parseGitHubUrl. fold (cleanedUrl url). rewrite Hclean.
  destruct (search_GITHUB_RE_plainUrl owner repo Ho Hr) as (m & -> & -> & ->).
  reflexivity.
Qed.

(** X21.  The address of a repository page parses to its owner and
    repository, with or without a final [.git], for every owner and
    repository that are not empty and hold no slash, provided the owner is
    not called [tree]; without the final [.git] the repository must not
    itself end in [.git]. *)
Theorem parseGitHubUrl_round_trip (owner repo : string) :
  isSegment owner -> isSegment repo -> owner <> "tree" ->
  parseGitHubUrl (plainUrl owner repo ++ ".git") = Ok (owner, repo)
  /\ (endsWith ".git" repo = false ->
      parseGitHubUrl (plainUrl owner repo) = Ok (owner, repo)).
Proof.
  intros Ho Hr Htree. split; [|intros Hend];
    apply parseGitHubUrl_of_cleaned; try assumption; unfold cleanedUrl.
  - rewrite remove_first_DOT_GIT_RE_suffix.
    apply remove_first_TREE_RE_plainUrl; assumption.
  - rewrite remove_first_DOT_GIT_RE_other by (apply plainUrl_not_dot_git, Hend).
    apply remove_first_TREE_RE_plainUrl; assumption.
Qed.

(** *** The form with a [/tree/<ref>] suffix *)

Lemma match_at_TREE_RE_other a s pos :
  a <> "/"%char -> match_at TREE_RE pos (String a s) = None.
Proof.
  intros Ha. unfold match_at, TREE_RE. rewrite exec_Seq.
  change (Lit "/tree/") with (Seq (Chr (Ascii.eqb "/"%char)) (Lit "tree/")).
  rewrite exec_Seq, exec_Chr.
  destruct (Ascii.eqb_spec "/"%char a) as [<-|_]; [congruence|reflexivity].
Qed.

Lemma match_at_TREE_RE_segment seg rest pos :
  Js.includes "/"%char seg = false -> seg <> "tree" ->
  match_at TREE_RE pos (String "/"%char (seg ++ String "/"%char rest)) = None.
Proof.
  intros Hseg Hne.
  destruct (match_at TREE_RE pos (String "/"%char (seg ++ String "/"%char rest)))
    as [m|] eqn:E; [|reflexivity].
  exfalso. unfold match_at, TREE_RE in E. rewrite exec_Seq in E.
  apply exec_Lit in E as (t & Hcut & _).
  change ("/tree/" ++ t) with (String "/"%char ("tree" ++ String "/"%char t)) in Hcut.
  injection Hcut as Hcut. apply (f_equal (Js.split "/"%char)) in Hcut.
  rewrite !split_app_sep, (split_segment _ seg Hseg) in Hcut.
  change (Js.split "/"%char "tree") with ["tree"] in Hcut.
  cbn [app] in Hcut. injection Hcut as Hcut _. exact (Hne Hcut).
Qed.

Lemma search_from_miss r pos a s :
  match_at r pos (String a s) = None ->
  search_from r pos (String a s) = search_from r (S pos) s.
Proof. intros H. cbn [search_from]. rewrite H. reflexivity. Qed.

Lemma search_from_TREE_RE_skip u v :
  Js.includes "/"%char u = false ->
  forall pos,
    search_from TREE_RE pos (u ++ v) = search_from TREE_RE (pos + String.length u) v.
Proof.
  induction u as [|a u IH]; intros Hu pos.
  - cbn [String.length]. rewrite Nat.add_0_r. reflexivity.
  - cbn [Js.includes] in Hu. apply orb_false_iff in Hu as [Ha Hu].
    change (String a u ++ v) with (String a (u ++ v)). cbn [search_from].
    rewrite match_at_TREE_RE_other by (intros ->; discriminate Ha).
    rewrite (IH Hu). cbn [String.length]. f_equal. lia.
Qed.

Lemma search_from_TREE_RE_segment seg rest pos :
  Js.includes "/"%char seg = false -> seg <> "tree" ->
  search_from TREE_RE pos (String "/"%char (seg ++ String "/"%char rest))
  = search_from TREE_RE (pos + 1 + String.length seg) (String "/"%char rest).
Proof.
  intros Hseg Hne.
  rewrite search_from_miss by (apply match_at_TREE_RE_segment; assumption).
  rewrite (search_from_TREE_RE_skip seg _ Hseg). f_equal. lia.
Qed.

Lemma match_at_TREE_RE_hit ref pos :
  everyChar dot ref = true ->
  match_at TREE_RE pos ("/tree/" ++ ref)
  = Some {| m_start := pos; m_end := pos + 6 + String.length ref; m_caps := [] |}.
Proof.
  intros Href. unfold match_at, TREE_RE. rewrite exec_Seq, exec_Lit_app, exec_Seq, exec_Star.
  set (fuel := String.length ref).
  rewrite <- (string_app_nil_r ref) at 1.
  apply star_loop_Chr_greedy; [left; reflexivity|exact Href| |reflexivity].
  subst fuel. rewrite string_app_nil_r. lia.
Qed.

(** [.replace(/\/tree\/.*$/, "")] on the third form gives the address of
    the repository page. *)
Lemma remove_first_TREE_RE_tree owner repo ref :
  isSegment owner -> isSegment repo -> owner <> "tree" -> repo <> "tree" ->
  everyChar dot ref = true ->
  remove_first TREE_RE (plainUrl owner repo ++ "/tree/" ++ ref) = plainUrl owner repo.
Proof.
  intros [_ Ho] [_ Hr] Hotree Hrtree Href.
  assert (Hfound : search TREE_RE (plainUrl owner repo ++ "/tree/" ++ ref)
                   = Some {| m_start := String.length (plainUrl owner repo);
                             m_end := String.length (plainUrl owner repo) + 6
                                      + String.length ref;
                             m_caps := [] |}).
  { unfold search.
    assert (Hlen : String.length (plainUrl owner repo)
                   = 0 + 6 + 1 + 0 + 1 + 10 + 1 + String.length owner + 1
                     + String.length repo).
    { unfold plainUrl. rewrite !string_length_app. cbn [String.length]. lia. }
    rewrite Hlen. unfold plainUrl. rewrite !string_app_assoc.
    change ("https://github.com/" ++ owner ++ "/" ++ repo ++ "/tree/" ++ ref)
      with ("https:" ++ String "/"%char
              ("" ++ String "/"%char
                 ("github.com" ++ String "/"%char
                    (owner ++ String "/"%char (repo ++ String "/"%char ("tree/" ++ ref)))))).
    rewrite search_from_TREE_RE_skip by reflexivity.
    rewrite search_from_TREE_RE_segment by (reflexivity || discriminate).
    rewrite search_from_TREE_RE_segment by (reflexivity || discriminate).
    rewrite (search_from_TREE_RE_segment owner _ _ Ho Hotree).
    rewrite (search_from_TREE_RE_segment repo _ _ Hr Hrtree).
    apply search_from_hit.
    change (String "/"%char ("tree/" ++ ref)) with ("/tree/" ++ ref).
    rewrite (match_at_TREE_RE_hit ref _ Href). reflexivity. }
  unfold remove_first. rewrite Hfound. cbn [m_start m_end].
  rewrite substring_prefix, !string_length_app.
  change (String.length "/tree/") with 6.
  replace (String.length (plainUrl owner repo) + (6 + String.length ref)
           - (String.length (plainUrl owner repo) + 6 + String.length ref)) with 0 by lia.
  rewrite substring_none. apply string_app_nil_r.
Qed.

Lemma everyChar_app p u v :
  everyChar p (u ++ v) = everyChar p u && everyChar p v.
Proof.
  induction u as [|a u IH]; [reflexivity|].
  change (String a u ++ v) with (String a (u ++ v)). cbn [everyChar].
  rewrite IH. apply andb_assoc.
Qed.

(** [.replace(/\.git$/, "")] on the third form leaves a third form. *)
Lemma remove_first_DOT_GIT_RE_tree plain ref :
  everyChar dot ref = true ->
  exists ref',
    everyChar dot ref' = true
    /\ remove_first DOT_GIT_RE (plain ++ "/tree/" ++ ref) = plain ++ "/tree/" ++ ref'.
Proof.
  intros Href. destruct (endsWith ".git" ref) eqn:E.
  - apply endsWith_cut in E as [ref' ->]. exists ref'.
    rewrite everyChar_app in Href. apply andb_true_iff in Href as [Href' _].
    split; [exact Href'|].
    rewrite <- (string_app_assoc "/tree/"), <- (string_app_assoc plain).
    rewrite remove_first_DOT_GIT_RE_suffix. reflexivity.
  - exists ref. split; [exact Href|]. apply remove_first_DOT_GIT_RE_other.
    destruct (endsWith ".git" (plain ++ "/tree/" ++ ref)) eqn:E'; [|reflexivity].
    exfalso. apply endsWith_cut in E' as [pre Hcut].
    change (plain ++ "/tree/" ++ ref)
      with (plain ++ "/tree" ++ String "/"%char ref) in Hcut.
    rewrite <- string_app_assoc in Hcut.
    apply suffix_of_last_segment in Hcut as [pre' ->]; [|reflexivity|discriminate].
    rewrite endsWith_app in E. discriminate.
Qed.

Lemma everyChar_refChar ref : everyChar refChar ref = true -> everyChar dot ref = true.
Proof.
  induction ref as [|a ref IH]; cbn [everyChar]; [reflexivity|].
  unfold refChar at 1. intros H. apply andb_true_iff in H as [Ha Hrest].
  apply andb_true_iff in Ha as [Ha _]. rewrite Ha, (IH Hrest). reflexivity.
Qed.

(** X22.  The address of a repository page followed by [/tree/<ref>]
    parses to the owner and the repository, for every ref of ASCII
    characters on one line (slashes and a final [.git] included), provided
    neither the owner nor the repository is called [tree]. *)
Theorem parseGitHubUrl_tree_form (owner repo ref : string) :
  isSegment owner -> isSegment repo -> owner <> "tree" -> repo <> "tree" ->
  everyChar refChar ref = true ->
  parseGitHubUrl (plainUrl owner repo ++ "/tree/" ++ ref) = Ok (owner, repo).
Proof.
  intros Ho Hr Hotree Hrtree Href. apply everyChar_refChar in Href.
  apply parseGitHubUrl_of_cleaned; try assumption. unfold cleanedUrl.
  destruct (remove_first_DOT_GIT_RE_tree (plainUrl owner repo) ref Href)
    as (ref' & Href' & ->).
  apply remove_first_TREE_RE_tree; assumption.
Qed.

End UrlForms.

Lemma parseGitHubUrl_round_trip_witness :
  isSegment "vercel" /\ isSegment "next.js" /\ "vercel" <> "tree"
  /\ endsWith ".git" "next.js" = false
  /\ GithubFetcher.parseGitHubUrl (plainUrl "vercel" "next.js" ++ ".git")
     = GithubFetcher.Ok ("vercel", "next.js")
  /\ GithubFetcher.parseGitHubUrl (plainUrl "vercel" "next.js")
     = GithubFetcher.Ok ("vercel", "next.js").
Proof.
  assert (Ho : isSegment "vercel") by (split; [discriminate|reflexivity]).
  assert (Hr : isSegment "next.js") by (split; [discriminate|reflexivity]).
  assert (Ht : "vercel" <> "tree") by discriminate.
  assert (He : endsWith ".git" "next.js" = false) by reflexivity.
  destruct (parseGitHubUrl_round_trip "vercel" "next.js" Ho Hr Ht) as [Hgit Hplain].
  split; [exact Ho|]. split; [exact Hr|]. split; [exact Ht|]. split; [exact He|].
  split; [exact Hgit|exact (Hplain He)].
Defined.

Lemma parseGitHubUrl_tree_form_witness :
  isSegment "vercel" /\ isSegment "next.js"
  /\ everyChar refChar "feature/x.git" = true
  /\ GithubFetcher.parseGitHubUrl (plainUrl "vercel" "next.js" ++ "/tree/" ++ "feature/x.git")
     = GithubFetcher.Ok ("vercel", "next.js").
Proof.
  assert (Ho : isSegment "vercel") by (split; [discriminate|reflexivity]).
  assert (Hr : isSegment "next.js") by (split; [discriminate|reflexivity]).
  assert (Hf : everyChar refChar "feature/x.git" = true) by reflexivity.
  split; [exact Ho|]. split; [exact Hr|]. split; [exact Hf|].
  apply (parseGitHubUrl_tree_form "vercel" "next.js" "feature/x.git" Ho Hr);
    [discriminate|discriminate|exact Hf].
Defined.

(** ** The fetch strategies *)

Section FetchMore.
Import FileFilter GithubFetcher IndexRepoJob RepoFetch.

Lemma pushFulfilled_omap settled :
  forall results, pushFulfilled settled results = (results ++ omap id settled)%list.
Proof.
  induction settled as [|[value|] settled IH]; intros results; cbn [pushFulfilled omap list_omap].
  - rewrite app_nil_r. reflexivity.
  - rewrite IH, <- app_assoc. reflexivity.
  - apply IH.
Qed.

Lemma omap_map_id {A B} (f : A -> option B) (l : list A) : omap id (map f l) = omap f l.
Proof.
  induction l as [|x l IH]; [reflexivity|].
  cbn [map omap list_omap]. cbn [omap list_omap] in IH. rewrite IH.
  destruct (f x); reflexivity.
Qed.

Lemma omap_app' {A B} (f : A -> option B) (l1 l2 : list A) :
  omap f (l1 ++ l2)%list = (omap f l1 ++ omap f l2)%list.
Proof.
  induction l1 as [|x l1 IH]; [reflexivity|].
  cbn [app omap list_omap]. cbn [omap list_omap] in IH. rewrite IH.
  destruct (f x); reflexivity.
Qed.

(** The batches of twenty together ask for every wanted blob once, in
    order. *)
Lemma restLoop_all platform auth owner repo relevant :
  forall fuel i results,
    length relevant <= fuel + i ->
    restLoop platform auth owner repo fuel relevant i results
    = (results ++ omap (fetchBlob platform auth owner repo) (skipn i relevant))%list.
Proof.
  induction fuel as [|fuel IH]; intros i results Hf; cbn [restLoop].
  - rewrite skipn_all2 by lia. rewrite app_nil_r. reflexivity.
  - destruct (Nat.ltb_spec i (length relevant)) as [Hi|Hi].
    + rewrite IH by (unfold BATCH_SIZE; lia).
      rewrite pushFulfilled_omap, omap_map_id, <- app_assoc, <- omap_app', slice_then_rest.
      reflexivity.
    + rewrite skipn_all2 by lia. rewrite app_nil_r. reflexivity.
Qed.

Lemma noIgnoredPart_forallb parts :
  noIgnoredPart parts = forallb (fun part => negb (has part IGNORED_PATHS)) parts.
Proof.
  induction parts as [|part parts IH]; cbn [noIgnoredPart forallb]; [reflexivity|].
  destruct (has part IGNORED_PATHS); [reflexivity|exact IH].
Qed.

Lemma forallb_removelast {A} (p : A -> bool) (l : list A) :
  forallb p l = true -> forallb p (removelast l) = true.
Proof.
  induction l as [|x l IH]; cbn [removelast forallb]; [reflexivity|].
  intros H. apply andb_true_iff in H as [Hx Hl].
  destruct l as [|y l]; [reflexivity|]. cbn [forallb]. rewrite Hx. exact (IH Hl).
Qed.

Lemma isRelevantFile_no_ignored_directory f :
  isRelevantFile (path f) = true -> holds NoIgnoredDirectory f = true.
Proof.
  unfold isRelevantFile. destruct (negb _); [discriminate|].
  rewrite noIgnoredPart_forallb. cbn [holds]. apply forallb_removelast.
Qed.

(** What one wanted item gives when its blob arrives. *)
Lemma fetchBlob_wanted platform auth owner repo item f :
  isWanted item = true ->
  fetchBlob platform auth owner repo item = Some f ->
  t_path item = Some (path f)
  /\ path f <> ""
  /\ isRelevantFile (path f) = true
  /\ match t_size item with
     | Some size => sizeBytes f = size /\ (size <= MAX_FILE_SIZE_BYTES)%Z
     | None =>
         exists content,
           octokit_git_getBlob platform auth owner repo (t_sha item) = Ok content
           /\ sizeBytes f = byteLength platform content
     end.
Proof.
  unfold isWanted, fetchBlob. intros Hw Hf.
  destruct (t_path item) as [[|a p]|]; cbn [Js.truthy negb default from_option id] in Hw, Hf;
    try discriminate Hw.
  destruct (isRelevantFile (String a p)) eqn:Hrel; cbn [negb] in Hw; [|discriminate].
  destruct (octokit_git_getBlob platform auth owner repo (t_sha item)) as [content|e];
    [|discriminate].
  injection Hf as <-. cbn [path sizeBytes].
  split; [reflexivity|]. split; [discriminate|]. split; [exact Hrel|].
  destruct (t_size item) as [size|]; cbn [default from_option id] in Hw.
  - split; [reflexivity|]. destruct (Z.ltb_spec MAX_FILE_SIZE_BYTES size); [discriminate|lia].
  - exists content. split; reflexivity.
Qed.

Lemma In_omap {A B} (f : A -> option B) (l : list A) (y : B) :
  In y (omap f l) -> exists x, In x l /\ f x = Some y.
Proof.
  induction l as [|x l IH]; cbn [omap list_omap]; [intros []|].
  cbn [omap list_omap] in IH.
  destruct (f x) as [y'|] eqn:E.
  - intros [<-|Hin]; [exists x; split; [left; reflexivity|exact E]|].
    destruct (IH Hin) as (x' & Hx' & Hfx'). exists x'. split; [right|]; assumption.
  - intros Hin. destruct (IH Hin) as (x' & Hx' & Hfx'). exists x'. split; [right|]; assumption.
Qed.

Lemma length_omap_le {A B} (f : A -> option B) (l : list A) :
  length (omap f l) <= length l.
Proof.
  induction l as [|x l IH]; cbn [omap list_omap length]; [lia|].
  cbn [omap list_omap] in IH. destruct (f x); cbn [length]; lia.
Qed.

Lemma fetchViaRestApi_parts platform auth owner repo treeItems :
  fetchViaRestApi platform auth owner repo treeItems
  = omap (fetchBlob platform auth owner repo) (List.filter isWanted treeItems)
  /\ Forall (fun f => holds NoIgnoredDirectory f = true)
            (fetchViaRestApi platform auth owner repo treeItems).
Proof.
  unfold fetchViaRestApi. rewrite restLoop_all by lia. cbn [skipn app].
  split; [reflexivity|]. apply List.Forall_forall. intros f Hf.
  apply In_omap in Hf as (item & Hitem & Hblob).
  apply filter_In in Hitem as [Hitem Hw].
  destruct (fetchBlob_wanted _ _ _ _ _ _ Hw Hblob) as (_ & _ & Hrel & _).
  apply isRelevantFile_no_ignored_directory, Hrel.
Qed.

(** X24.  The REST strategy returns, in the order of the tree, one file
    for each wanted entry whose blob arrived, and nothing for the others:
    fetching in batches of twenty changes nothing.  Each file returned has
    the path of its entry, which is not empty, has a supported extension
    and no ignored segment, so that the filter's first rule holds for it;
    and where the tree gave a size, it is the file's size and at most
    512000 bytes. *)
Theorem fetchViaRestApi_files
        (platform : Platform) (auth : option string) (owner repo : string)
        (treeItems : list TreeItem) :
  let files := fetchViaRestApi platform auth owner repo treeItems in
  files = omap (fetchBlob platform auth owner repo) (List.filter isWanted treeItems)
  /\ Forall (fun f =>
               isRelevantFile (path f) = true
               /\ path f <> ""
               /\ holds NoIgnoredDirectory f = true
               /\ exists item,
                   In item treeItems
                   /\ t_path item = Some (path f)
                   /\ forall size, t_size item = Some size ->
                                   sizeBytes f = size /\ (size <= 512000)%Z)
            files.
Proof.
  cbn zeta. unfold fetchViaRestApi. rewrite restLoop_all by lia.
  cbn [skipn app]. split; [reflexivity|].
  apply List.Forall_forall. intros f Hf.
  apply In_omap in Hf as (item & Hitem & Hblob).
  apply filter_In in Hitem as [Hitem Hw].
  destruct (fetchBlob_wanted _ _ _ _ _ _ Hw Hblob) as (Hp & Hne & Hrel & Hsize).
  split; [exact Hrel|]. split; [exact Hne|].
  split; [apply isRelevantFile_no_ignored_directory, Hrel|].
  exists item. split; [exact Hitem|]. split; [exact Hp|].
  intros size Hs. rewrite Hs in Hsize. exact Hsize.
Qed.


Lemma rejected_reason_rule files pr :
  In pr (rejected (filterFiles files)) ->
  exists f, In f files /\ pr.1 = path f /\ ruleOfReason pr.2 = firstFailing f
            /\ firstFailing f <> None.
Proof.
  destruct (filterFiles_lists files) as [_ ->]. intros Hin.
  apply in_map_iff in Hin as (f & <- & Hf). apply filter_In in Hf as [Hf Hrules].
  exists f. split; [exact Hf|]. split; [reflexivity|]. cbn [snd].
  unfold reasonOf. pose proof (shouldIndex_firstFailing f) as H.
  destruct (firstFailing f) as [r|] eqn:E.
  - destruct H as (reason & -> & Hr). split; [exact Hr|discriminate].
  - apply allRulesHold_firstFailing in E. rewrite E in Hrules. discriminate.
Qed.

Lemma firstFailing_breaks f r : firstFailing f = Some r -> holds r f = false.
Proof.
  unfold firstFailing. intros H. apply find_some in H as [_ H].
  apply negb_true_iff in H. exact H.
Qed.

(** X25.  What [fetchRepository] returns.  The owner and the repository of
    [meta] are those parsed from the URL, and [fileCount] counts the blobs
    of the tree, whichever strategy ran.  The clone fallback is used
    exactly when there are more than 1000 blobs or the repository is above
    51200 KB, and then the files are those of the clone.  Otherwise the
    files come over REST: there are at most [fileCount] of them, and the
    filter rejects none of them for an ignored directory. *)
Theorem fetchRepository_result
        (platform : Platform) (githubUrl : string) (githubToken : option string)
        (fetched : FetchResult) :
  fetchRepository platform githubUrl githubToken = Ok fetched ->
  parseGitHubUrl githubUrl = Ok (owner (meta fetched), repo (meta fetched))
  /\ (exists tree,
        octokit_git_getTree platform
          (Js.or_else githubToken (env_GITHUB_TOKEN platform))
          (owner (meta fetched)) (repo (meta fetched)) (defaultBranch (meta fetched))
        = Ok tree
        /\ fileCount (meta fetched) = length (List.filter isBlob (default [] tree)))
  /\ (usedFallback (meta fetched) = true
      <-> 1000 < fileCount (meta fetched) \/ (51200 < sizeKB (meta fetched))%Z)
  /\ (usedFallback (meta fetched) = true ->
      fetchViaClone platform githubUrl githubToken = Ok (files fetched))
  /\ (usedFallback (meta fetched) = false ->
      length (files fetched) <= fileCount (meta fetched)
      /\ Forall (fun pr : string * string =>
                   ruleOfReason pr.2 <> Some NoIgnoredDirectory)
                (rejected (filterFiles (files fetched)))).
Proof.
  unfold fetchRepository.
  destruct (parseGitHubUrl githubUrl) as [[owner repo]|e]; [|discriminate].
  set (auth := Js.or_else githubToken (env_GITHUB_TOKEN platform)).
  destruct (octokit_repos_get platform auth owner repo) as [repoData|e]; [|discriminate].
  cbn zeta.
  destruct (octokit_git_getTree platform auth owner repo (default_branch repoData))
    as [tree|e] eqn:Htree; [|discriminate].
  set (allFiles := List.filter isBlob (default [] tree)).
  destruct ((FILE_COUNT_THRESHOLD <? length allFiles)%nat
            || (SIZE_THRESHOLD_MB * 1024 <? size repoData)%Z) eqn:Hfb.
  - destruct (fetchViaClone platform githubUrl githubToken) as [cloned|e]; [|discriminate].
    intros [= <-]. cbn [IndexRepoJob.meta IndexRepoJob.files GithubFetcher.owner GithubFetcher.repo
                          GithubFetcher.defaultBranch GithubFetcher.fileCount
                          GithubFetcher.usedFallback GithubFetcher.sizeKB].
    split; [reflexivity|]. split; [exists tree; split; [exact Htree|reflexivity]|].
    split; [|split; [reflexivity|discriminate]].
    split; [intros _|reflexivity].
    apply orb_true_iff in Hfb as [H|H]; [left|right].
    + apply Nat.ltb_lt in H. exact H.
    + apply Z.ltb_lt in H. exact H.
  - intros [= <-]. cbn [IndexRepoJob.meta IndexRepoJob.files GithubFetcher.owner GithubFetcher.repo
                          GithubFetcher.defaultBranch GithubFetcher.fileCount
                          GithubFetcher.usedFallback GithubFetcher.sizeKB].
    split; [reflexivity|]. split; [exists tree; split; [exact Htree|reflexivity]|].
    apply orb_false_iff in Hfb as [H1 H2].
    apply Nat.ltb_ge in H1. apply Z.ltb_ge in H2.
    split; [|split; [discriminate|intros _]].
    { split; [discriminate|]. unfold FILE_COUNT_THRESHOLD, SIZE_THRESHOLD_MB in *.
      intros [H|H]; lia. }
    destruct (fetchViaRestApi_parts platform auth owner repo allFiles) as [Hfiles Hall].
    split.
    + rewrite Hfiles. etransitivity; [apply length_omap_le|]. apply filter_length_le.
    + apply List.Forall_forall. intros pr Hpr.
      apply rejected_reason_rule in Hpr as (f & Hf & _ & -> & _).
      intros Hrule. apply firstFailing_breaks in Hrule.
      rewrite List.Forall_forall in Hall. rewrite (Hall f Hf) in Hrule. discriminate.
Qed.

End FetchMore.

Lemma fetchRepository_result_witness :
  exists fetched,
    RepoFetch.fetchRepository samplePlatform "https://github.com/o/r" None
    = GithubFetcher.Ok fetched
    /\ map FileFilter.path (IndexRepoJob.files fetched) = ["README.md"]
    /\ GithubFetcher.fileCount (IndexRepoJob.meta fetched) = 3
    /\ GithubFetcher.usedFallback (IndexRepoJob.meta fetched) = false
    /\ length (IndexRepoJob.files fetched) <= GithubFetcher.fileCount (IndexRepoJob.meta fetched).
Proof.
  destruct (RepoFetch.fetchRepository samplePlatform "https://github.com/o/r" None)
    as [fetched|e] eqn:E; [|vm_compute in E; discriminate E].
  exists fetched. split; [reflexivity|].
  destruct (fetchRepository_result samplePlatform _ _ fetched E)
    as (_ & _ & _ & _ & Hrest).
  assert (Hfb : GithubFetcher.usedFallback (IndexRepoJob.meta fetched) = false)
    by (vm_compute in E; injection E as <-; reflexivity).
  split; [vm_compute in E; injection E as <-; reflexivity|].
  split; [vm_compute in E; injection E as <-; reflexivity|].
  split; [exact Hfb|]. apply (Hrest Hfb).
Defined.

(** ** The names of the symbols *)

Section SymbolNames.
Import AstChunker.

Lemma string_app_not_nil (u v : string) : u <> "" \/ v <> "" -> u ++ v <> "".
Proof.
  intros H Heq. destruct u as [|a u]; [|discriminate Heq].
  change ("" ++ v) with v in Heq. destruct H as [H|H]; congruence.
Qed.

Lemma named_group n pre cs :
  1 <= n <= 3 -> pre <> "" -> named ((n, pre) :: cs) = true.
Proof.
  intros Hn Hpre. destruct pre as [|a pre]; [congruence|].
  assert (Hor : n = 1 \/ n = 2 \/ n = 3) by lia.
  unfold named. destruct Hor as [->|[->| ->]]; cbn [Regex.cap Nat.eqb Js.truthy];
    rewrite ?orb_true_r; reflexivity.
Qed.

(** What a match has taken and recorded when the matcher goes on. *)
Lemma exec_sound {R} (r : Regex.regex) :
  forall pos s cs (k : nat -> string -> Regex.caps -> option R) x,
    Regex.exec r pos s cs k = Some x ->
    exists pre s' cs',
      s = pre ++ s'
      /\ k (pos + String.length pre) s' cs' = Some x
      /\ (consumes r = true -> pre <> "")
      /\ (groupFree r = true -> cs' = cs)
      /\ (names r = true -> named cs' = true).
Proof.
  assert (Hnone : forall pos s cs (k : nat -> string -> Regex.caps -> option R) x,
             k pos s cs = Some x ->
             exists pre s' cs',
               s = pre ++ s' /\ k (pos + String.length pre) s' cs' = Some x
               /\ (false = true -> pre <> "") /\ (true = true -> cs' = cs)
               /\ (false = true -> named cs' = true)).
  { intros pos s cs k x H. exists "", s, cs. cbn [String.length]. rewrite Nat.add_0_r.
    split; [reflexivity|]. split; [exact H|]. split; [discriminate|].
    split; [reflexivity|discriminate]. }
  induction r as [|p|r1 IH1 r2 IH2|r1 IH1 r2 IH2|r1 IH1|n r1 IH1| |];
    intros pos s cs k x H; cbn [consumes groupFree names].
  - apply Hnone. exact H.
  - cbn [Regex.exec] in H. destruct s as [|a s']; [discriminate|].
    destruct (p a); [|discriminate].
    exists (String a ""), s', cs. cbn [String.length].
    split; [reflexivity|]. split; [rewrite <- H; f_equal; lia|].
    split; [discriminate|]. split; [reflexivity|discriminate].
  - cbn [Regex.exec] in H.
    apply IH1 in H as (pre1 & s1 & cs1 & -> & H & Hc1 & Hg1 & Hn1).
    apply IH2 in H as (pre2 & s2 & cs2 & -> & H & Hc2 & Hg2 & Hn2).
    exists (pre1 ++ pre2), s2, cs2.
    split; [symmetry; apply string_app_assoc|].
    split; [rewrite string_length_app, Nat.add_assoc; exact H|].
    split; [|split].
    + intros Hc. apply orb_true_iff in Hc. apply string_app_not_nil.
      destruct Hc as [Hc|Hc]; [left; exact (Hc1 Hc)|right; exact (Hc2 Hc)].
    + intros Hg. apply andb_true_iff in Hg as [Ha Hb].
      rewrite (Hg2 Hb). exact (Hg1 Ha).
    + intros Hn. apply orb_true_iff in Hn as [Hn|Hn]; [exact (Hn2 Hn)|].
      apply andb_true_iff in Hn as [Ha Hb]. rewrite (Hg2 Hb). exact (Hn1 Ha).
  - cbn [Regex.exec] in H.
    destruct (Regex.exec r1 pos s cs k) as [y|] eqn:E.
    + injection H as ->. apply IH1 in E as (pre & s' & cs' & Hs & Hk & Hc & Hg & Hn).
      exists pre, s', cs'. split; [exact Hs|]. split; [exact Hk|].
      split; [intros H; apply andb_true_iff in H as [H _]; exact (Hc H)|].
      split; [intros H; apply andb_true_iff in H as [H _]; exact (Hg H)|].
      intros H; apply andb_true_iff in H as [H _]; exact (Hn H).
    + apply IH2 in H as (pre & s' & cs' & Hs & Hk & Hc & Hg & Hn).
      exists pre, s', cs'. split; [exact Hs|]. split; [exact Hk|].
      split; [intros H; apply andb_true_iff in H as [_ H]; exact (Hc H)|].
      split; [intros H; apply andb_true_iff in H as [_ H]; exact (Hg H)|].
      intros H; apply andb_true_iff in H as [_ H]; exact (Hn H).
  - cbn [Regex.exec] in H. revert H. generalize (String.length s). intros fuel.
    revert pos s cs. induction fuel as [|fuel IHf]; intros pos s cs H;
      cbn [Regex.star_loop] in H.
    { destruct (Hnone pos s cs k x H) as (pre & s' & cs' & Hs & Hk & _ & Hg & _).
      exists pre, s', cs'. split; [exact Hs|]. split; [exact Hk|].
      split; [discriminate|]. split; [intros _; exact (Hg eq_refl)|discriminate]. }
    destruct (Regex.exec r1 pos s cs _) as [y|] eqn:E.
    + injection H as ->. apply IH1 in E as (pre1 & s1 & cs1 & -> & E & _ & Hg1 & _).
      destruct (pos <? pos + String.length pre1)%nat; [|discriminate].
      apply IHf in E as (pre2 & s2 & cs2 & -> & Hk & _ & Hg2 & _).
      exists (pre1 ++ pre2), s2, cs2.
      split; [symmetry; apply string_app_assoc|].
      split; [rewrite string_length_app, Nat.add_assoc; exact Hk|].
      split; [discriminate|]. split; [|discriminate].
      intros Hg. rewrite (Hg2 Hg). exact (Hg1 Hg).
    + destruct (Hnone pos s cs k x H) as (pre & s' & cs' & Hs & Hk & _ & Hg & _).
      exists pre, s', cs'. split; [exact Hs|]. split; [exact Hk|].
      split; [discriminate|]. split; [intros _; exact (Hg eq_refl)|discriminate].
  - cbn [Regex.exec] in H.
    apply IH1 in H as (pre & s' & cs' & -> & H & Hc & _ & _).
    replace (pos + String.length pre - pos) with (String.length pre) in H by lia.
    rewrite substring_prefix in H.
    exists pre, s', ((n, pre) :: cs'). split; [reflexivity|]. split; [exact H|].
    split; [exact Hc|]. split; [discriminate|].
    intros Hn. apply andb_true_iff in Hn as [Hn Hcon].
    apply andb_true_iff in Hn as [H1 H3].
    apply Nat.leb_le in H1. apply Nat.leb_le in H3.
    apply named_group; [lia|exact (Hc Hcon)].
  - cbn [Regex.exec] in H. destruct (pos =? 0)%nat; [|discriminate].
    apply Hnone. exact H.
  - cbn [Regex.exec] in H. destruct s; [|discriminate]. apply Hnone. exact H.
Qed.

Lemma search_from_named r :
  names r = true ->
  forall s pos m, Regex.search_from r pos s = Some m -> named (Regex.m_caps m) = true.
Proof.
  intros Hr.
  assert (Hat : forall pos s m, Regex.match_at r pos s = Some m ->
                                named (Regex.m_caps m) = true).
  { intros pos s m H. unfold Regex.match_at in H.
    apply exec_sound in H as (pre & s' & cs' & _ & H & _ & _ & Hn).
    injection H as <-. exact (Hn Hr). }
  induction s as [|a s IH]; intros pos m; cbn [Regex.search_from].
  - destruct (Regex.match_at r pos "") as [m'|] eqn:E; [|discriminate].
    intros [= <-]. exact (Hat _ _ _ E).
  - destruct (Regex.match_at r pos (String a s)) as [m'|] eqn:E.
    + intros [= <-]. exact (Hat _ _ _ E).
    + apply IH.
Qed.

Lemma detectLoop_names re lines b :
  forall i,
    In b (detectLoop re lines i) ->
    exists line m,
      i < b_startLine b
      /\ nth_error lines (b_startLine b - 1 - i) = Some line
      /\ Regex.search re line = Some m
      /\ b_symbolName b
         = default "anonymous"
             (Js.or_else (Regex.cap 1 (Regex.m_caps m))
                (Js.or_else (Regex.cap 2 (Regex.m_caps m))
                   (Js.or_else (Regex.cap 3 (Regex.m_caps m)) (Some "anonymous")))).
Proof.
  induction lines as [|l lines IH]; intros i Hin; cbn [detectLoop] in Hin; [contradiction|].
  assert (Hrest : In b (detectLoop re lines (S i)) ->
                  exists line m,
                    i < b_startLine b
                    /\ nth_error (l :: lines) (b_startLine b - 1 - i) = Some line
                    /\ Regex.search re line = Some m
                    /\ b_symbolName b
                       = default "anonymous"
                           (Js.or_else (Regex.cap 1 (Regex.m_caps m))
                              (Js.or_else (Regex.cap 2 (Regex.m_caps m))
                                 (Js.or_else (Regex.cap 3 (Regex.m_caps m))
                                    (Some "anonymous"))))).
  { intros H. destruct (IH (S i) H) as (line & m & Hi & Hnth & Hm & Hname).
    exists line, m. split; [lia|]. split; [|split; assumption].
    replace (b_startLine b - 1 - i) with (S (b_startLine b - 1 - S i)) by lia.
    exact Hnth. }
  destruct (Regex.search re l) as [m|] eqn:E; [|exact (Hrest Hin)].
  destruct Hin as [<-|Hin]; [|exact (Hrest Hin)].
  exists l, m. cbn [b_startLine b_symbolName]. split; [lia|].
  replace (i + 1 - 1 - i) with 0 by lia. split; [reflexivity|]. split; [exact E|reflexivity].
Qed.

(** X28.  The name of a symbol is the text of the group that took part
    in the match, and it is never empty: both patterns put a [\w+] group
    on every way through them, so the fallback ["anonymous"] of
    [detectSymbolBoundaries] is never what names a symbol. *)
Theorem detectSymbolBoundaries_names
        (lines : list string) (re : Regex.regex) (b : SymbolBoundary) :
  re = TS_SYMBOL_START_RE \/ re = PY_SYMBOL_START_RE ->
  In b (detectSymbolBoundaries lines re) ->
  b_symbolName b <> ""
  /\ exists line m n,
      nth_error lines (b_startLine b - 1) = Some line
      /\ Regex.search re line = Some m
      /\ 1 <= n <= 3
      /\ Regex.cap n (Regex.m_caps m) = Some (b_symbolName b).
Proof.
  intros Hre Hin.
  assert (Hnames : names re = true) by (destruct Hre as [->| ->]; vm_compute; reflexivity).
  apply detectLoop_names in Hin as (line & m & _ & Hnth & Hm & Hname).
  rewrite Nat.sub_0_r in Hnth.
  pose proof (search_from_named re Hnames line 0 m Hm) as Hnamed.
  unfold named in Hnamed. rewrite Hname. clear Hname.
  destruct (Regex.cap 1 (Regex.m_caps m)) as [[|a1 s1]|] eqn:E1;
    destruct (Regex.cap 2 (Regex.m_caps m)) as [[|a2 s2]|] eqn:E2;
    destruct (Regex.cap 3 (Regex.m_caps m)) as [[|a3 s3]|] eqn:E3;
    cbn [Js.truthy orb] in Hnamed; try discriminate Hnamed;
    cbn [Js.or_else Js.truthy default from_option id];
    (split; [discriminate|]); exists line, m;
    first [ exists 1; rewrite E1; (split; [exact Hnth|split; [exact Hm|split; [lia|reflexivity]]])
          | exists 2; rewrite E2; (split; [exact Hnth|split; [exact Hm|split; [lia|reflexivity]]])
          | exists 3; rewrite E3; (split; [exact Hnth|split; [exact Hm|split; [lia|reflexivity]]]) ].
Qed.

Lemma detectSymbolBoundaries_names_witness :
  let b := {| b_startLine := 2; b_symbolName := "b" |} in
  In b (detectSymbolBoundaries (linesOf shortThenLong) TS_SYMBOL_START_RE)
  /\ b_symbolName b <> ""
  /\ exists line m n,
      nth_error (linesOf shortThenLong) (b_startLine b - 1) = Some line
      /\ Regex.search TS_SYMBOL_START_RE line = Some m
      /\ 1 <= n <= 3
      /\ Regex.cap n (Regex.m_caps m) = Some (b_symbolName b).
Proof.
  cbn zeta.
  assert (Hin : In {| b_startLine := 2; b_symbolName := "b" |}
                   (detectSymbolBoundaries (linesOf shortThenLong) TS_SYMBOL_START_RE))
    by (vm_compute; right; left; reflexivity).
  split; [exact Hin|].
  exact (detectSymbolBoundaries_names (linesOf shortThenLong) TS_SYMBOL_START_RE _
           (or_introl eq_refl) Hin).
Defined.

End SymbolNames.

Lemma assembleContext_files_in_retrieval_order_witness :
  exists ctx,
    sampleContext = Some ctx
    /\ Forall (fun c => ContextAssembler.arrayIndex (ContextAssembler.filePath c) = None)
              sampleRetrieved
    /\ map fst (blocksOf String.length sampleRetrieved)
       = firstSeen [] (map ContextAssembler.filePath sampleRetrieved).
Proof.
  destruct sampleContext as [ctx|] eqn:E; [|vm_compute in E; discriminate E].
  exists ctx. split; [reflexivity|].
  assert (Hp : Forall (fun c => ContextAssembler.arrayIndex (ContextAssembler.filePath c) = None)
                      sampleRetrieved).
  { repeat constructor. }
  split; [exact Hp|].
  exact (proj2 (assembleContext_files_in_retrieval_order String.length "where is auth?"
                  sampleRetrieved "o/r" ctx E Hp)).
Defined.

(** ** The five rules of the file filter, as the specification words them *)

Section FilterSpec.
Import FileFilter.

Lemma includes_app c (u v : string) :
  Js.includes c (u ++ v) = Js.includes c u || Js.includes c v.
Proof.
  induction u as [|a u IH]; [reflexivity|].
  change (String a u ++ v) with (String a (u ++ v)).
  cbn [Js.includes]. rewrite IH. apply orb_assoc.
Qed.

Lemma last_cons {A} (x d : A) (l : list A) :
  l <> [] -> List.last (x :: l) d = List.last l d.
Proof. destruct l; [congruence|reflexivity]. Qed.

Lemma removelast_cons {A} (x : A) (l : list A) :
  l <> [] -> removelast (x :: l) = x :: removelast l.
Proof. destruct l; [congruence|reflexivity]. Qed.

(** Reading a path from the left gives the parts [split("/")] gives: all
    but the last, and the last. *)
Lemma readPath_split path :
  forall cur,
    Js.includes "/"%char cur = false ->
    readPath cur path
    = (Js.init (Js.split "/"%char (cur ++ path)), Js.pop (Js.split "/"%char (cur ++ path))).
Proof.
  induction path as [|a rest IH]; intros cur Hcur; cbn [readPath].
  - rewrite string_app_nil_r, split_segment by exact Hcur. reflexivity.
  - destruct (Ascii.eqb_spec a "/"%char) as [->|Hne].
    + rewrite (IH "" eq_refl). change ("" ++ rest) with rest.
      rewrite split_app_sep, (split_segment _ cur Hcur). cbn [app].
      pose proof (split_not_nil "/"%char rest) as Hrest.
      unfold Js.init, Js.pop.
      rewrite removelast_cons, last_cons by exact Hrest. reflexivity.
    + rewrite IH.
      * rewrite string_app_assoc. reflexivity.
      * rewrite includes_app, Hcur. cbn [Js.includes orb].
        destruct (Ascii.eqb_spec a "/"%char); [congruence|reflexivity].
Qed.

Lemma directoriesOf_split path :
  directoriesOf path = Js.init (Js.split "/"%char path).
Proof. unfold directoriesOf. rewrite readPath_split by reflexivity. reflexivity. Qed.

Lemma basenameOf_fileName f : basenameOf (path f) = fileName f.
Proof. unfold basenameOf, fileName. rewrite readPath_split by reflexivity. reflexivity. Qed.

Lemma split_single c s h : Js.split c s = [h] -> Js.includes c s = false.
Proof.
  revert h. induction s as [|a s IH]; intros h; cbn [Js.split Js.includes]; [reflexivity|].
  destruct (Ascii.eqb a c).
  - intros H. pose proof (split_not_nil c s) as Hs. injection H as _ H. congruence.
  - destruct (Js.split c s) as [|h' t] eqn:E; [intros _; exact (IH _ eq_refl) || idtac|].
    + exfalso. exact (split_not_nil c s E).
    + intros [= _ ->]. exact (IH h' eq_refl).
Qed.

(** The text after the last dot is the last part [split(".")] gives. *)
Lemma afterLastDot_split name :
  match afterLastDot name with
  | Some tail =>
      Js.includes "."%char name = true /\ Js.pop (Js.split "."%char name) = tail
  | None => Js.includes "."%char name = false
  end.
Proof.
  induction name as [|a rest IH]; cbn [afterLastDot Js.includes Js.split]; [reflexivity|].
  pose proof (split_not_nil "."%char rest) as Hrest.
  destruct (afterLastDot rest) as [tail|].
  - destruct IH as [Hinc Hpop]. split; [rewrite Hinc; apply orb_true_r|].
    unfold Js.pop in *. destruct (Ascii.eqb a "."%char).
    + rewrite last_cons by exact Hrest. exact Hpop.
    + destruct (Js.split "."%char rest) as [|h t] eqn:E; [congruence|].
      destruct t as [|h' t].
      * apply split_single in E. congruence.
      * exact Hpop.
  - destruct (Ascii.eqb a "."%char).
    + split; [reflexivity|]. rewrite split_segment by exact IH. reflexivity.
    + exact IH.
Qed.

Lemma fileExt_extensionOf f : fileExt f = extensionOf (basenameOf (path f)).
Proof.
  rewrite basenameOf_fileName. unfold fileExt, extensionOf.
  pose proof (afterLastDot_split (fileName f)) as H.
  destruct (afterLastDot (fileName f)) as [tail|].
  - destruct H as [-> ->]. reflexivity.
  - rewrite H. reflexivity.
Qed.

(** Membership in a [Set] built from a list of names. *)
Lemma has_list x (l : list string) :
  has x (list_to_set l) = existsb (String.eqb x) l.
Proof.
  apply eq_true_iff_eq. unfold has.
  rewrite bool_decide_eq_true, elem_of_list_to_set, existsb_exists. split.
  - intros Hin. exists x. split; [apply list_elem_of_In, Hin|apply String.eqb_refl].
  - intros (y & Hin & Heq). apply String.eqb_eq in Heq as ->.
    apply list_elem_of_In, Hin.
Qed.

Ltac each_name H :=
  cbn [In] in H;
  repeat (destruct H as [<-|H]; [try (vm_compute; reflexivity)|]);
  try contradiction.

Lemma has_IGNORED_FILENAMES name :
  has name IGNORED_FILENAMES = onList filenameDenylistByName name.
Proof.
  unfold IGNORED_FILENAMES. rewrite has_list.
  apply eq_true_iff_eq. unfold onList. rewrite !existsb_exists. split.
  - intros (y & Hin & Heq). apply String.eqb_eq in Heq as ->.
    apply existsb_exists. fold (onList filenameDenylistByName y). each_name Hin.
  - intros (e & Hin & He). apply existsb_exists.
    unfold filenameDenylistByName in Hin. cbn [In] in Hin.
    repeat (destruct Hin as [<-|Hin];
            [cbn [listed] in He; apply String.eqb_eq in He as <-; vm_compute; reflexivity|]).
    contradiction.
Qed.

Lemma has_SUPPORTED_EXTENSIONS ext :
  has ext SUPPORTED_EXTENSIONS = existsb (String.eqb ext) extensionAllowlist.
Proof.
  unfold SUPPORTED_EXTENSIONS. rewrite has_list.
  apply eq_true_iff_eq. rewrite !existsb_exists. split.
  - intros (y & Hin & Heq). apply String.eqb_eq in Heq as ->.
    apply existsb_exists. each_name Hin.
  - intros (y & Hin & Heq). apply String.eqb_eq in Heq as ->.
    apply existsb_exists. unfold extensionAllowlist in Hin. each_name Hin.
Qed.

(** The directory list: the code holds the pattern as a name, so the two
    agree on a name that does not end in [.egg-info]. *)
Lemma has_IGNORED_PATHS d :
  endsWith ".egg-info" d = false ->
  has d IGNORED_PATHS = onList directoryDenylist d.
Proof.
  intros Hegg. unfold IGNORED_PATHS. rewrite has_list.
  apply eq_true_iff_eq. unfold onList. rewrite !existsb_exists. split.
  - intros (y & Hin & Heq). apply String.eqb_eq in Heq as ->.
    apply existsb_exists. fold (onList directoryDenylist y). cbn [In] in Hin.
    repeat (destruct Hin as [<-|Hin];
            [first [vm_compute; reflexivity | vm_compute in Hegg; discriminate Hegg]|]).
    contradiction.
  - intros (e & Hin & He). apply existsb_exists.
    unfold directoryDenylist in Hin. cbn [In] in Hin.
    repeat (destruct Hin as [<-|Hin];
            [cbn [listed] in He;
             first [congruence
                   | apply String.eqb_eq in He as <-; vm_compute; reflexivity]|]).
    contradiction.
Qed.

Lemma forallb_agree {A} (p q : A -> bool) (l : list A) :
  (forall x, In x l -> p x = q x) -> forallb p l = forallb q l.
Proof.
  induction l as [|x l IH]; intros H; cbn [forallb]; [reflexivity|].
  rewrite (H x) by (left; reflexivity). rewrite IH; [reflexivity|].
  intros y Hy. apply H. right. exact Hy.
Qed.

(** Away from [.egg-info] directories each rule, with the filename
    denylist read by name, is the test [shouldIndex] makes. *)
Lemma ruleHolds_holds f r :
  outsideEggInfo f -> ruleHolds filenameDenylistByName r f = holds r f.
Proof.
  intros Hout. unfold outsideEggInfo in Hout. rewrite forallb_forall in Hout.
  destruct r; cbn [ruleHolds holds]; try reflexivity.
  - rewrite <- directoriesOf_split. apply forallb_agree. intros d Hd.
    rewrite has_IGNORED_PATHS; [reflexivity|].
    specialize (Hout d Hd). destruct (endsWith ".egg-info" d); [discriminate|reflexivity].
  - rewrite basenameOf_fileName, has_IGNORED_FILENAMES. reflexivity.
  - rewrite <- fileExt_extensionOf, has_SUPPORTED_EXTENSIONS. reflexivity.
Qed.

Lemma fiveRules_allRulesHold f :
  outsideEggInfo f ->
  fiveRules filenameDenylistByName f = allRulesHold f
  /\ firstBroken filenameDenylistByName f = firstFailing f.
Proof.
  intros Hout. unfold fiveRules, allRulesHold, firstBroken, firstFailing, rulesInOrder.
  cbn [forallb find]. rewrite !(ruleHolds_holds f _ Hout). split; reflexivity.
Qed.

(** C3.  For files none of whose directories has a name ending in
    [.egg-info], [filterFiles] accepts exactly those for which the five
    rules hold: no directory of the path on the directory denylist; the
    basename not one of the names of the filename denylist, where the
    [.eslintrc] and [jest.config] families count by the names
    [.eslintrc], [.eslintrc.js], [.eslintrc.json], [jest.config.js] and
    [jest.config.ts]; the extension, in lower case, on the allowlist;
    [10 <= sizeBytes <= 512000]; no NUL in the content.  The accepted files
    keep their order; every other file is rejected, in order, with its path
    and a reason that names the first of the five rules, taken in that
    order, that the file breaks. *)
Theorem filterFiles_five_rules (files : list RawFile) :
  Forall outsideEggInfo files ->
  accepted (filterFiles files) = List.filter (fiveRules filenameDenylistByName) files
  /\ map fst (rejected (filterFiles files))
     = map path (List.filter (fun f => negb (fiveRules filenameDenylistByName f)) files)
  /\ map (fun pr => ruleOfReason (snd pr)) (rejected (filterFiles files))
     = map (firstBroken filenameDenylistByName)
           (List.filter (fun f => negb (fiveRules filenameDenylistByName f)) files)
  /\ Forall (fun f => exists r, firstBroken filenameDenylistByName f = Some r)
            (List.filter (fun f => negb (fiveRules filenameDenylistByName f)) files).
Proof.
  intros Hout. rewrite List.Forall_forall in Hout.
  assert (Hacc : List.filter (fiveRules filenameDenylistByName) files
                 = List.filter allRulesHold files).
  { apply List.filter_ext_in. intros f Hf. apply fiveRules_allRulesHold, Hout, Hf. }
  assert (Hrej : List.filter (fun f => negb (fiveRules filenameDenylistByName f)) files
                 = List.filter (fun f => negb (allRulesHold f)) files).
  { apply List.filter_ext_in. intros f Hf.
    rewrite (proj1 (fiveRules_allRulesHold f (Hout f Hf))). reflexivity. }
  rewrite Hacc, Hrej.
  destruct (filterFiles_lists files) as [-> ->].
  split; [reflexivity|].
  rewrite !map_map. cbn [fst snd].
  split; [reflexivity|].
  split.
  - apply List.map_ext_in. intros f Hf. apply filter_In in Hf as [Hin Hf].
    rewrite (proj2 (fiveRules_allRulesHold f (Hout f Hin))).
    unfold reasonOf. pose proof (shouldIndex_firstFailing f) as H.
    destruct (firstFailing f) as [r|] eqn:E.
    + destruct H as (reason & -> & Hr). exact Hr.
    + apply allRulesHold_firstFailing in E. rewrite E in Hf. discriminate.
  - apply List.Forall_forall. intros f Hf. apply filter_In in Hf as [Hin Hf].
    rewrite (proj2 (fiveRules_allRulesHold f (Hout f Hin))).
    destruct (firstFailing f) as [r|] eqn:E; [eauto|].
    apply allRulesHold_firstFailing in E. rewrite E in Hf. discriminate.
Qed.

(** C3 as it is stated fails on three files that [filterFiles] accepts.  A
    linter configuration in YAML and a test configuration in the module
    format have basenames that the patterns [.eslintrc*] and
    [jest.config.*] of the filename denylist cover, so the second rule
    does not hold for them; a file under [pkg.egg-info] has a directory
    that the pattern [*.egg-info] of the directory denylist covers, so the
    first rule does not hold for it. *)
Lemma filterFiles_five_rules_counterexample :
  accepted (filterFiles [eslintrcYml; jestConfigMjs; eggInfoFile])
  = [eslintrcYml; jestConfigMjs; eggInfoFile]
  /\ basenameOf (path eslintrcYml) = ".eslintrc.yml"
  /\ onList filenameDenylist ".eslintrc.yml" = true
  /\ fiveRules filenameDenylist eslintrcYml = false
  /\ basenameOf (path jestConfigMjs) = "jest.config.mjs"
  /\ onList filenameDenylist "jest.config.mjs" = true
  /\ fiveRules filenameDenylist jestConfigMjs = false
  /\ directoriesOf (path eggInfoFile) = ["pkg.egg-info"]
  /\ onList directoryDenylist "pkg.egg-info" = true
  /\ fiveRules filenameDenylist eggInfoFile = false
  /\ ~ (forall f, In f (accepted (filterFiles [f])) <-> fiveRules filenameDenylist f = true).
Proof.
  repeat (split; [vm_compute; reflexivity|]).
  intros H. specialize (H eslintrcYml). destruct H as [H _].
  specialize (H ltac:(vm_compute; left; reflexivity)).
  vm_compute in H. discriminate H.
Qed.

(** The entry [*.egg-info] of the directory list is compared as a name: a
    file under a directory [pkg.egg-info] is accepted. *)
Example filterFiles_egg_info_directory :
  directoriesOf (path eggInfoFile) = ["pkg.egg-info"]
  /\ onList directoryDenylist "pkg.egg-info" = true
  /\ has "pkg.egg-info" IGNORED_PATHS = false
  /\ has "*.egg-info" IGNORED_PATHS = true
  /\ accepted (filterFiles [eggInfoFile]) = [eggInfoFile].
Proof. vm_compute. repeat split; reflexivity. Qed.

End FilterSpec.

Lemma filterFiles_five_rules_witness :
  let files :=
    [ {| FileFilter.path := "src/.git/a.ts"; FileFilter.content := "export const a = 1;";
         FileFilter.sizeBytes := 19 |};
      eslintrcYml;
      {| FileFilter.path := "docs/jest.config.js"; FileFilter.content := "module.exports = {};";
         FileFilter.sizeBytes := 20 |};
      {| FileFilter.path := "src/Main.TS"; FileFilter.content := "export const b = 2;";
         FileFilter.sizeBytes := 19 |};
      {| FileFilter.path := "Makefile"; FileFilter.content := "all: build test";
         FileFilter.sizeBytes := 15 |} ] in
  Forall outsideEggInfo files
  /\ map FileFilter.path (FileFilter.accepted (FileFilter.filterFiles files))
     = [".eslintrc.yml"; "src/Main.TS"]
  /\ FileFilter.accepted (FileFilter.filterFiles files)
     = List.filter (fiveRules filenameDenylistByName) files
  /\ map (fun pr => ruleOfReason (snd pr)) (FileFilter.rejected (FileFilter.filterFiles files))
     = [Some NoIgnoredDirectory; Some NotIgnoredFilename; Some SupportedExtension].
Proof.
  cbn zeta.
  match goal with |- Forall _ ?l /\ _ => set (files := l) end.
  assert (Hout : Forall outsideEggInfo files) by (repeat constructor).
  destruct (filterFiles_five_rules files Hout) as (Hacc & _ & Hreasons & _).
  split; [exact Hout|]. split; [vm_compute; reflexivity|]. split; [exact Hacc|].
  rewrite Hreasons. vm_compute. reflexivity.
Defined.
